(** * Debug Cleanup Pro: the statement scanners and the text surgeon

    A shallow embedding of [DebugStatementParser] (src/parser.js) and of
    [CodeCleaner] (the cleaner module of src/extension.js), with the
    properties of the specification stated over it.

    JavaScript strings are sequences of UTF-16 code units: a string is a
    list of code units, a code unit is a number.  Offsets are indices
    into that list.  Regular expressions are values of a small syntax
    interpreted by a backtracking matcher with the priorities of the
    JavaScript one (greedy quantifiers, ordered alternatives). *)

From Stdlib Require Import List NArith ZArith Arith Lia Bool Ascii.
From Stdlib Require String.
From Stdlib Require Import Sorted Permutation.
Import ListNotations.
Import String.StringSyntax.
Local Open Scope string_scope.
Local Open Scope list_scope.

(** ** JavaScript strings *)

Definition char := N.
Definition jsstring := list char.

(** A literal of the source (ASCII), code unit by code unit. *)
Definition js (s : String.string) : jsstring :=
  List.map N_of_ascii (String.list_ascii_of_string s).

Definition LF : char := 10%N.
Definition CR : char := 13%N.

Definition char_eqb (a b : char) : bool := N.eqb a b.

(** [\s] of a regular expression and the characters [trim] strips:
    WhiteSpace and LineTerminator of the language. *)
Definition is_space (c : char) : bool :=
  ((9 <=? c) && (c <=? 13) || (c =? 32) || (c =? 160) || (c =? 5760)
   || (8192 <=? c) && (c <=? 8202) || (c =? 8232) || (c =? 8233)
   || (c =? 8239) || (c =? 8287) || (c =? 12288) || (c =? 65279))%N.

(** The characters before which a multiline [$] holds. *)
Definition is_line_terminator (c : char) : bool :=
  ((c =? 10) || (c =? 13) || (c =? 8232) || (c =? 8233))%N.

Fixpoint jsstring_eqb (a b : jsstring) : bool :=
  match a, b with
  | [], [] => true
  | x :: a', y :: b' => char_eqb x y && jsstring_eqb a' b'
  | _, _ => false
  end.

(** [s.substring(a, b)]: both indices are clamped to the length and
    swapped when out of order. *)
Definition substring (s : jsstring) (a b : nat) : jsstring :=
  let a' := Nat.min a (length s) in
  let b' := Nat.min b (length s) in
  firstn (Nat.max a' b' - Nat.min a' b') (skipn (Nat.min a' b') s).

(** [s.substring(a)]. *)
Definition substring_from (s : jsstring) (a : nat) : jsstring := skipn a s.

(** [s.startsWith(p)]. *)
Fixpoint startsWith (s p : jsstring) {struct p} : bool :=
  match p, s with
  | [], _ => true
  | x :: p', y :: s' => char_eqb x y && startsWith s' p'
  | _ :: _, [] => false
  end.

(** [s.includes(p)]. *)
Fixpoint includes (s p : jsstring) : bool :=
  startsWith s p ||
  match s with
  | [] => false
  | _ :: s' => includes s' p
  end.

(** [s.split('\n')]: never empty, the empty string gives one empty line. *)
Fixpoint split_lines (s : jsstring) : list jsstring :=
  match s with
  | [] => [[]]
  | c :: s' =>
      if char_eqb c LF then [] :: split_lines s'
      else match split_lines s' with
           | l :: ls => (c :: l) :: ls
           | [] => [[c]]
           end
  end.

(** [lines.join('\n')]. *)
Fixpoint join_lines (ls : list jsstring) : jsstring :=
  match ls with
  | [] => []
  | [l] => l
  | l :: ls' => l ++ LF :: join_lines ls'
  end.

Fixpoint drop_spaces (s : jsstring) : jsstring :=
  match s with
  | c :: s' => if is_space c then drop_spaces s' else s
  | [] => []
  end.

(** [s.trim()]. *)
Definition trim (s : jsstring) : jsstring :=
  rev (drop_spaces (rev (drop_spaces s))).

(** ['\n'.repeat(n)]. *)
Definition repeat_LF (n : nat) : jsstring := repeat LF n.

(** [array.sort(cmp)]: the sort of the language is stable; [cmp x y]
    is the number the comparator returns. *)
Section Sort.
Variable A : Type.
Variable cmp : A -> A -> Z.

Fixpoint sort_insert (x : A) (l : list A) : list A :=
  match l with
  | [] => [x]
  | y :: l' => if (cmp x y <=? 0)%Z then x :: l else y :: sort_insert x l'
  end.

Definition js_sort (l : list A) : list A := fold_right sort_insert [] l.
End Sort.
Arguments sort_insert {A} cmp x l.
Arguments js_sort {A} cmp l.

(** ** Regular expressions *)

Inductive regex : Type :=
| Eps                                (* the empty pattern *)
| Chr (p : char -> bool)             (* one character of a class *)
| Seq (r1 r2 : regex)                (* r1 r2 *)
| Alt (r1 r2 : regex)                (* r1|r2, r1 tried first *)
| Star (r : regex)                   (* r*, greedy *)
| Eos                                (* $ without the m flag *)
| Eol.                               (* $ with the m flag *)

(** The matcher in continuation style: [rmatch r s k] matches [r] at the
    head of [s] and hands the rest of the input to [k]; when [k] fails
    the matcher backtracks into [r].  An iteration of a star that
    consumes nothing is refused, as in the language. *)
Fixpoint rmatch (r : regex) (s : jsstring)
    (k : jsstring -> option jsstring) {struct r} : option jsstring :=
  match r with
  | Eps => k s
  | Chr p =>
      match s with
      | c :: s' => if p c then k s' else None
      | [] => None
      end
  | Seq r1 r2 => rmatch r1 s (fun s' => rmatch r2 s' k)
  | Alt r1 r2 =>
      match rmatch r1 s k with
      | Some x => Some x
      | None => rmatch r2 s k
      end
  | Star r1 =>
      (fix loop (fuel : nat) (s : jsstring) {struct fuel} : option jsstring :=
         match fuel with
         | O => k s
         | S fuel' =>
             match rmatch r1 s
                     (fun s' => if length s' <? length s then loop fuel' s'
                                else None) with
             | Some x => Some x
             | None => k s
             end
         end) (length s) s
  | Eos => match s with [] => k s | _ :: _ => None end
  | Eol =>
      match s with
      | [] => k s
      | c :: _ => if is_line_terminator c then k s else None
      end
  end.

(** The rest of the input after a match at the head of [s]. *)
Definition match_here (r : regex) (s : jsstring) : option jsstring :=
  rmatch r s Some.

(** Derived forms. *)
Definition Lit1 (c : char) : regex := Chr (char_eqb c).
Definition Lit (s : String.string) : regex :=
  fold_right (fun c r => Seq (Lit1 c) r) Eps (js s).
Definition Opt (r : regex) : regex := Alt r Eps.
Definition Plus (r : regex) : regex := Seq r (Star r).
(** [r{n,}] *)
Fixpoint AtLeast (n : nat) (r : regex) : regex :=
  match n with
  | O => Star r
  | S n' => Seq r (AtLeast n' r)
  end.
Definition Space : regex := Chr is_space.
Definition NoneOf (s : String.string) : regex :=
  Chr (fun x => negb (existsb (char_eqb x) (js s))).
Definition OneOf (s : String.string) : regex :=
  Chr (fun x => existsb (char_eqb x) (js s)).

(** The loop [while ((match = regex.exec(code)) !== null)] of a regular
    expression with the g flag: the matches from left to right, each
    search starting where the previous match ended.  [pos] is the offset
    of [s] in the text and [skip] the number of characters of [s] the
    previous match still covers.  Each match is [(index, length)].
    (On an empty match the loop of the source would search the same
    place again for ever; the patterns it is used with start with a
    literal and have no empty match, see [scanner_match_nonempty].) *)
Fixpoint exec_all (r : regex) (pos skip : nat) (s : jsstring)
    {struct s} : list (nat * nat) :=
  match skip, s with
  | S n, _ :: s' => exec_all r (S pos) n s'
  | S _, [] => []
  | O, _ =>
      match match_here r s with
      | Some rest =>
          let n := length s - length rest in
          (pos, n) ::
          match s with
          | _ :: s' => exec_all r (S pos) (n - 1) s'
          | [] => []
          end
      | None =>
          match s with
          | _ :: s' => exec_all r (S pos) 0 s'
          | [] => []
          end
      end
  end.

(** [s.replace(r, repl)] for [r] without the g flag: the leftmost match. *)
Fixpoint replace_first (r : regex) (repl s : jsstring) {struct s} : jsstring :=
  match match_here r s with
  | Some rest => repl ++ rest
  | None =>
      match s with
      | c :: s' => c :: replace_first r repl s'
      | [] => []
      end
  end.

(** [s.replace(r, repl)] for a pattern that starts with [^] (no m flag):
    only the head of the string can match. *)
Definition replace_at_start (r : regex) (repl s : jsstring) : jsstring :=
  match match_here r s with
  | Some rest => repl ++ rest
  | None => s
  end.

(** [s.replace(r, repl)] for [r] with the g flag.  After an empty match
    the search moves one character on. *)
Fixpoint replace_all (r : regex) (repl : jsstring) (skip : nat)
    (s : jsstring) {struct s} : jsstring :=
  match skip, s with
  | S n, _ :: s' => replace_all r repl n s'
  | S _, [] => []
  | O, _ =>
      match match_here r s with
      | Some rest =>
          repl ++
          match length s - length rest, s with
          | S m, _ :: s' => replace_all r repl m s'
          | O, c :: s' => c :: replace_all r repl 0 s'
          | _, [] => []
          end
      | None =>
          match s with
          | c :: s' => c :: replace_all r repl 0 s'
          | [] => []
          end
      end
  end.

(** ** The statement scanners (src/parser.js) *)

Inductive statement_type : Type := console | print | system_out | debugger.

(** The objects pushed by [addDebugStatement] and [fallbackRegexParse];
    [end_] is the field [end]. *)
Record statement : Type := mkStatement {
  type : statement_type;
  line : nat;
  column : nat;
  start : nat;
  end_ : nat;
  text : jsstring;
  lineContent : jsstring
}.

(** What the scanner reads of the syntax tree of @babel/parser: the
    callee of a call expression, and the [start] and [end] of the nodes
    its two visitors are called on. *)
Inductive expression : Type :=
| Identifier (name : jsstring)
| MemberExpression (object property : expression)
| OtherExpression.

Inductive node_kind : Type :=
| CallExpression (callee : expression)
| DebuggerStatement.

Record node : Type := mkNode {
  kind : node_kind;
  node_start : nat;
  node_end : nat
}.

(** [parse] followed by [traverse]: the nodes in the order the visitors
    see them, or the error [parse] throws. *)
Inductive parse_outcome : Type :=
| Parsed (visited : list node)
| ParseError (message : jsstring).

(** How a call of the source ends. *)
Inductive completion (A : Type) : Type :=
| Returns (value : A)
| Throws (message : jsstring).
Arguments Returns {A} value.
Arguments Throws {A} message.

Definition isIdentifierNamed (e : expression) (n : String.string) : bool :=
  match e with
  | Identifier name => jsstring_eqb name (js n)
  | _ => false
  end.

Definition console_methods : list String.string :=
  ["log"; "debug"; "info"; "warn"; "error"; "trace"; "table"; "time";
   "timeEnd"].

Definition isConsoleCall (callee : expression) : bool :=
  match callee with
  | MemberExpression object property =>
      isIdentifierNamed object "console" &&
      match property with
      | Identifier name =>
          existsb (fun m => jsstring_eqb (js m) name) console_methods
      | _ => false
      end
  | _ => false
  end.

Definition isPrintCall (callee : expression) : bool :=
  isIdentifierNamed callee "print".

Definition isSystemOutCall (callee : expression) : bool :=
  match callee with
  | MemberExpression (MemberExpression o p) property =>
      isIdentifierNamed o "System" && isIdentifierNamed p "out" &&
      isIdentifierNamed property "println"
  | _ => false
  end.

(** The loop of [addDebugStatement] and [fallbackRegexParse] that looks
    for the line of offset [start]: the line number and the offset of
    the line.  Without a [break] the number keeps its initial value 1. *)
Fixpoint find_line (lines : list jsstring) (start lineStart i : nat)
    : nat * nat :=
  match lines with
  | [] => (1, lineStart)
  | l :: ls =>
      if (lineStart <=? start) && (start <=? lineStart + length l)
      then (i + 1, lineStart)
      else find_line ls start (lineStart + length l + 1) (i + 1)
  end.

(** [/^[\s]*;/] *)
Definition semicolon_re : regex := Seq (Star Space) (Lit ";").

Definition addDebugStatement (n : node) (code : jsstring)
    (ty : statement_type) : statement :=
  let start := node_start n in
  let afterStatement := substring_from code (node_end n) in
  let end_ :=
    match match_here semicolon_re afterStatement with
    | Some rest => node_end n + (length afterStatement - length rest)
    | None => node_end n
    end in
  let lines := split_lines code in
  let '(lineNumber, lineStart) := find_line lines start 0 0 in
  let lineContent := nth (lineNumber - 1) lines [] in
  mkStatement ty lineNumber (start - lineStart) start end_
    (substring code start end_) (trim lineContent).

(** The two visitors: the statement a node adds, if any. *)
Definition handleNode (n : node) (code : jsstring) : list statement :=
  match kind n with
  | CallExpression callee =>
      if isConsoleCall callee then [addDebugStatement n code console]
      else if isPrintCall callee then [addDebugStatement n code print]
      else if isSystemOutCall callee
           then [addDebugStatement n code system_out]
      else []
  | DebuggerStatement => [addDebugStatement n code debugger]
  end.

(** The four patterns of [fallbackRegexParse]. *)
Definition call_tail : regex :=
  Seq (Star Space)
   (Seq (Lit "(")
    (Seq (Star (NoneOf ")"))
     (Seq (Lit ")")
      (Seq (Star Space) (Seq (Opt (Lit ";")) (Star Space)))))).

Definition console_method_re : regex :=
  fold_right (fun m r => Alt (Lit m) r) (Lit "timeEnd")
    ["log"; "debug"; "info"; "warn"; "error"; "trace"; "table"; "time"].

Definition console_re : regex :=
  Seq (Lit "console.") (Seq console_method_re call_tail).
Definition print_re : regex := Seq (Lit "print") call_tail.
Definition system_out_re : regex := Seq (Lit "System.out.println") call_tail.
Definition debugger_re : regex :=
  Seq (Lit "debugger") (Seq (Star Space) (Seq (Opt (Lit ";")) (Star Space))).

Definition patterns : list (regex * statement_type) :=
  [(console_re, console); (print_re, print);
   (system_out_re, system_out); (debugger_re, debugger)].

(** The statement [fallbackRegexParse] pushes for one match. *)
Definition statement_of_match (code : jsstring) (lines : list jsstring)
    (ty : statement_type) (m : nat * nat) : statement :=
  let start := fst m in
  let end_ := start + snd m in
  let '(lineNumber, lineStart) := find_line lines start 0 0 in
  mkStatement ty lineNumber (start - lineStart) start end_
    (firstn (snd m) (skipn start code))
    (trim (nth (lineNumber - 1) lines [])).

(** The statements before the final sort, pattern after pattern. *)
Definition fallback_matches (code : jsstring) : list statement :=
  let lines := split_lines code in
  flat_map (fun '(regex, ty) =>
              List.map (statement_of_match code lines ty)
                       (exec_all regex 0 0 code))
           patterns.

Definition by_start_ascending (a b : statement) : Z :=
  (Z.of_nat (start a) - Z.of_nat (start b))%Z.

Definition fallbackRegexParse (code : jsstring) : list statement :=
  js_sort by_start_ascending (fallback_matches code).

(** [parseCode]: [babel] is the outcome of [parse] and [traverse] on the
    text (the file path only selects plugins of the parser and heads
    the warning; it is left out); an error is caught, its message
    written with [console.warn], and the lexical scan returned.  The
    result is the pair of what was written to the console and how the
    call ends. *)
Definition parseCode (babel : parse_outcome) (code : jsstring)
    : list jsstring * completion (list statement) :=
  match babel with
  | Parsed visited =>
      ([], Returns (flat_map (fun n => handleNode n code) visited))
  | ParseError message =>
      ([message], Returns (fallbackRegexParse code))
  end.

(** ** The text surgeon ([CodeCleaner]) *)

(** The settings the cleaner reads of [this.config]. *)
Module Config.
Record configuration : Type := mkConfiguration {
  removeConsoleLog : bool;
  removeConsoleWarn : bool;
  removeConsoleError : bool;
  removeConsoleInfo : bool;
  removeConsoleDebug : bool;
  removeConsoleTrace : bool;
  removeDebugger : bool;
  removePrint : bool;
  removeSystemOut : bool;
  maxEmptyLines : nat;
  cleanWhitespace : bool
}.
End Config.
Abbreviation configuration := Config.configuration.

(** The defaults of the constructor. *)
Definition default_configuration : configuration :=
  Config.mkConfiguration true true false true true true true true true 2 true.

(** [{...statement, originalPosition: statement.start}] *)
Record removed_statement : Type := mkRemoved {
  removed : statement;
  originalPosition : nat
}.

Record clean_result : Type := mkResult {
  cleanCode : jsstring;
  removedCount : nat;
  removedStatements : list removed_statement
}.

(** The cleaner object: its settings and the field [removedStatements]
    that [removeDebugStatements] assigns. *)
Record cleaner : Type := mkCleaner {
  config : configuration;
  this_removedStatements : list removed_statement
}.

Record statement_context : Type := mkContext {
  lineNumber : nat;
  lineStart : nat;
  context_line : jsstring;
  beforeInLine : jsstring;
  afterInLine : jsstring;
  isOnOwnLine : bool;
  isAtLineStart : bool;
  isAtLineEnd : bool;
  hasContentBefore : bool;
  hasContentAfter : bool
}.

(** [s.trim() === ''] *)
Definition is_blank (s : jsstring) : bool :=
  match trim s with
  | [] => true
  | _ :: _ => false
  end.

(** The loop of [analyzeStatementContext]: the index and the offset of
    the line of [start]; both stay 0 without a [break]. *)
Fixpoint find_context_line (lines : list jsstring) (start currentPos i : nat)
    : nat * nat :=
  match lines with
  | [] => (0, 0)
  | l :: ls =>
      if (currentPos <=? start) && (start <? currentPos + length l + 1)
      then (i, currentPos)
      else find_context_line ls start (currentPos + length l + 1) (i + 1)
  end.

Definition analyzeStatementContext (code : jsstring) (st : statement)
    : statement_context :=
  let lines := split_lines code in
  let '(lineNumber, lineStart) := find_context_line lines (start st) 0 0 in
  let line := nth lineNumber lines [] in
  let statementStartInLine := start st - lineStart in
  let statementEndInLine := end_ st - lineStart in
  let beforeInLine := substring line 0 statementStartInLine in
  let afterInLine := substring_from line statementEndInLine in
  mkContext lineNumber lineStart line beforeInLine afterInLine
    (is_blank beforeInLine && is_blank afterInLine)
    (is_blank beforeInLine)
    (is_blank afterInLine)
    (negb (is_blank beforeInLine))
    (negb (is_blank afterInLine)).

Definition removeEntireLine (before after : jsstring)
    (context : statement_context) : jsstring * jsstring :=
  let beforeLines := split_lines before in
  let adjustedAfter :=
    if startsWith after [LF] then substring_from after 1
    else if startsWith after [CR; LF] then substring_from after 2
    else after in
  let adjustedBefore :=
    if 0 <? length beforeLines then
      let lastBeforeLine := last beforeLines [] in
      if is_blank lastBeforeLine then
        let popped := removelast beforeLines in
        join_lines popped ++ (if 0 <? length popped then [LF] else [])
      else before
    else before in
  (adjustedBefore, adjustedAfter).

(** [/[,;]\s*$/] *)
Definition leading_re : regex := Seq (OneOf ",;") (Seq (Star Space) Eos).

Definition cleanLeadingCommaOrSemicolon (before : jsstring) : jsstring :=
  replace_first leading_re [] before.

(** [/^\s*,/] *)
Definition trailing_re : regex := Seq (Star Space) (Lit ",").

Definition cleanTrailingCommaOrSemicolon (after : jsstring) : jsstring :=
  replace_at_start trailing_re [] after.

(** The new text and the flag [removed]. *)
Definition removeStatement (code : jsstring) (st : statement)
    : jsstring * bool :=
  let before := substring code 0 (start st) in
  let after := substring_from code (end_ st) in
  let context := analyzeStatementContext code st in
  let '(adjustedBefore, adjustedAfter) :=
    if isOnOwnLine context then removeEntireLine before after context
    else if isAtLineStart context
         then (before, cleanTrailingCommaOrSemicolon after)
    else if isAtLineEnd context
         then (cleanLeadingCommaOrSemicolon before, after)
    else (cleanLeadingCommaOrSemicolon before,
          cleanTrailingCommaOrSemicolon after) in
  (adjustedBefore ++ adjustedAfter, true).

Definition keep_statement (c : configuration) (st : statement) : bool :=
  match type st with
  | console =>
      if includes (text st) (js "console.log") && negb (Config.removeConsoleLog c)
      then false
      else if includes (text st) (js "console.warn")
              && negb (Config.removeConsoleWarn c) then false
      else if includes (text st) (js "console.error")
              && negb (Config.removeConsoleError c) then false
      else if includes (text st) (js "console.info")
              && negb (Config.removeConsoleInfo c) then false
      else if includes (text st) (js "console.debug")
              && negb (Config.removeConsoleDebug c) then false
      else if includes (text st) (js "console.trace")
              && negb (Config.removeConsoleTrace c) then false
      else true
  | debugger => Config.removeDebugger c
  | print => Config.removePrint c
  | system_out => Config.removeSystemOut c
  end.

Definition filterStatementsByConfig (c : configuration)
    (statements : list statement) : list statement :=
  filter (keep_statement c) statements.

(** The pattern built by [new RegExp]: the group [\n\s*], [maxLines + 1]
    times or more. *)
Definition blank_lines_re (maxLines : nat) : regex :=
  AtLeast (maxLines + 1) (Seq (Lit1 LF) (Star Space)).

(** [/[ \t]+$/gm] *)
Definition trailing_blanks_re : regex :=
  Seq (Plus (Chr (fun c => (c =? 32) || (c =? 9))%N)) Eol.

(** [/\n*$/] *)
Definition final_newlines_re : regex := Seq (Star (Lit1 LF)) Eos.

Definition cleanWhitespace (c : configuration) (code : jsstring) : jsstring :=
  let maxLines := Config.maxEmptyLines c in
  let code := replace_all (blank_lines_re maxLines) (repeat_LF maxLines) 0 code in
  let code := replace_all trailing_blanks_re [] 0 code in
  replace_first final_newlines_re [LF] code.

Definition by_start_descending (a b : statement) : Z :=
  (Z.of_nat (start b) - Z.of_nat (start a))%Z.

(** One turn of the [forEach] of [removeDebugStatements] on the text,
    the counter and [this.removedStatements]. *)
Definition remove_step (acc : jsstring * nat * list removed_statement)
    (st : statement) : jsstring * nat * list removed_statement :=
  let '(cleanCode, removedCount, removedStatements) := acc in
  let '(code, was_removed) := removeStatement cleanCode st in
  if was_removed
  then (code, removedCount + 1,
        removedStatements ++ [mkRemoved st (start st)])
  else (code, removedCount, removedStatements).

(** [removeDebugStatements]: the result and the cleaner afterwards.  A
    missing statement list is the empty list. *)
Definition removeDebugStatements (this : cleaner) (code : jsstring)
    (statements : list statement) : clean_result * cleaner :=
  if length statements =? 0 then (mkResult code 0 [], this)
  else
    let this := mkCleaner (config this) [] in
    let filteredStatements := filterStatementsByConfig (config this) statements in
    if length filteredStatements =? 0 then (mkResult code 0 [], this)
    else
      let sortedStatements := js_sort by_start_descending filteredStatements in
      let '(cleanCode, removedCount, removedStatements) :=
        fold_left remove_step sortedStatements
                  (code, 0, this_removedStatements this) in
      let cleanCode :=
        if Config.cleanWhitespace (config this) then cleanWhitespace (config this) cleanCode
        else cleanCode in
      let reversed := rev removedStatements in
      (mkResult cleanCode removedCount reversed,
       mkCleaner (config this) reversed).

(** ** The other operations of the cleaner and of the parser *)

Definition statement_type_eqb (a b : statement_type) : bool :=
  match a, b with
  | console, console | print, print
  | system_out, system_out | debugger, debugger => true
  | _, _ => false
  end.

(** [statements.filter(stmt => stmt.type === ty)] *)
Definition of_type (ty : statement_type) (statements : list statement)
    : list statement :=
  filter (fun stmt => statement_type_eqb (type stmt) ty) statements.

Definition removeConsoleLogsOnly (this : cleaner) (code : jsstring)
    (statements : list statement) : clean_result * cleaner :=
  removeDebugStatements this code (of_type console statements).

Definition removePrintStatementsOnly (this : cleaner) (code : jsstring)
    (statements : list statement) : clean_result * cleaner :=
  removeDebugStatements this code (of_type print statements).

Definition removeDebuggerStatementsOnly (this : cleaner) (code : jsstring)
    (statements : list statement) : clean_result * cleaner :=
  removeDebugStatements this code (of_type debugger statements).

Definition removeSystemOutStatementsOnly (this : cleaner) (code : jsstring)
    (statements : list statement) : clean_result * cleaner :=
  removeDebugStatements this code (of_type system_out statements).

(** The object [byType] of [getStatementsByType], one array per key. *)
Record statements_by_type : Type := mkByType {
  by_console : list removed_statement;
  by_print : list removed_statement;
  by_debugger : list removed_statement;
  by_system_out : list removed_statement
}.

(** One turn of its [forEach]: the array of the key [stmt.type] exists
    for each of the four types, and the statement is pushed on it. *)
Definition push_by_type (byType : statements_by_type)
    (stmt : removed_statement) : statements_by_type :=
  match type (removed stmt) with
  | console =>
      mkByType (by_console byType ++ [stmt]) (by_print byType)
               (by_debugger byType) (by_system_out byType)
  | print =>
      mkByType (by_console byType) (by_print byType ++ [stmt])
               (by_debugger byType) (by_system_out byType)
  | debugger =>
      mkByType (by_console byType) (by_print byType)
               (by_debugger byType ++ [stmt]) (by_system_out byType)
  | system_out =>
      mkByType (by_console byType) (by_print byType)
               (by_debugger byType) (by_system_out byType ++ [stmt])
  end.

Definition getStatementsByType (statements : list removed_statement)
    : statements_by_type :=
  fold_left push_by_type statements (mkByType [] [] [] []).

(** The report; [linesReduced] is a difference and can be negative. *)
Record cleanup_report : Type := mkReport {
  originalLines : nat;
  cleanedLines : nat;
  linesReduced : Z;
  report_removedCount : nat;
  statementsByType : statements_by_type
}.

Definition generateCleanupReport (originalCode : jsstring)
    (cleanResult : clean_result) : cleanup_report :=
  let originalLines := length (split_lines originalCode) in
  let cleanedLines := length (split_lines (cleanCode cleanResult)) in
  mkReport originalLines cleanedLines
    (Z.of_nat originalLines - Z.of_nat cleanedLines)%Z
    (removedCount cleanResult)
    (getStatementsByType (removedStatements cleanResult)).

(** An entry of [previewChanges]. *)
Record change : Type := mkChange {
  change_line : nat;
  change_type : statement_type;
  change_text : jsstring;
  action : jsstring;
  change_context : jsstring
}.

Definition by_line_ascending (a b : change) : Z :=
  (Z.of_nat (change_line a) - Z.of_nat (change_line b))%Z.

(** [previewChanges]; the context object has no [lineContent], so the
    entry takes [context.line]. *)
Definition previewChanges (code : jsstring) (statements : list statement)
    : list change :=
  let changes :=
    List.map (fun st =>
                let context := analyzeStatementContext code st in
                mkChange (line st) (type st) (text st)
                  (if isOnOwnLine context then js "Remove entire line"
                   else js "Remove statement")
                  (context_line context))
             statements in
  js_sort by_line_ascending changes.

(** The methods of the parser that hand over to a new cleaner, built
    without settings, hence with the defaults of its constructor. *)
Module DebugStatementParser.
Definition removeDebugStatements (code : jsstring)
    (statements : list statement) : clean_result :=
  fst (removeDebugStatements (mkCleaner default_configuration []) code
         statements).
Definition removeConsoleLogsOnly (code : jsstring)
    (statements : list statement) : clean_result :=
  fst (removeConsoleLogsOnly (mkCleaner default_configuration []) code
         statements).
Definition removePrintStatementsOnly (code : jsstring)
    (statements : list statement) : clean_result :=
  fst (removePrintStatementsOnly (mkCleaner default_configuration []) code
         statements).
Definition removeDebuggerStatementsOnly (code : jsstring)
    (statements : list statement) : clean_result :=
  fst (removeDebuggerStatementsOnly (mkCleaner default_configuration []) code
         statements).
Definition previewChanges (code : jsstring) (statements : list statement)
    : list change :=
  previewChanges code statements.
Definition generateCleanupReport (originalCode : jsstring)
    (cleanResult : clean_result) : cleanup_report :=
  generateCleanupReport originalCode cleanResult.
End DebugStatementParser.

(** ** Auxiliary definitions for the proofs *)

(** The loop of a greedy star, with the matcher of its body as a
    parameter. *)
Section StarLoop.
Variable m : jsstring -> (jsstring -> option jsstring) -> option jsstring.
Variable k : jsstring -> option jsstring.

Fixpoint star_loop (fuel : nat) (s : jsstring) : option jsstring :=
  match fuel with
  | O => k s
  | S fuel' =>
      match m s (fun s' => if length s' <? length s
                           then star_loop fuel' s' else None) with
      | Some x => Some x
      | None => k s
      end
  end.
End StarLoop.

(** What a greedy star of a character class does: the longest run of
    the class first, then one character less at a time. *)
Fixpoint star_chr (p : char -> bool) (k : jsstring -> option jsstring)
    (s : jsstring) : option jsstring :=
  match s with
  | c :: s' =>
      if p c then
        match star_chr p k s' with
        | Some x => Some x
        | None => k s
        end
      else k s
  | [] => k []
  end.

Fixpoint drop_while (p : char -> bool) (s : jsstring) : jsstring :=
  match s with
  | c :: s' => if p c then drop_while p s' else s
  | [] => []
  end.

(** [;?] at the head of a string. *)
Definition drop_semicolon (s : jsstring) : jsstring :=
  match s with
  | c :: s' => if char_eqb 59%N c then s' else s
  | [] => []
  end.

(** What follows the closing parenthesis in the scanner patterns:
    optional white space, an optional semicolon, optional white space. *)
Definition after_terminator (s : jsstring) : jsstring :=
  drop_spaces (drop_semicolon (drop_spaces s)).

Fixpoint take_while (p : char -> bool) (s : jsstring) : jsstring :=
  match s with
  | c :: s' => if p c then c :: take_while p s' else []
  | [] => []
  end.

(** The number of line breaks of a string. *)
Definition count_LF (s : jsstring) : nat := length (filter (char_eqb LF) s).

Definition starts_with_LF (s : jsstring) : bool :=
  match s with
  | c :: _ => char_eqb LF c
  | [] => false
  end.

(** The group [\n\s*] of the pattern of [cleanWhitespace]. *)
Definition blank_group : regex := Seq (Lit1 LF) (Star Space).

(** [s'] is what is left of [s] after some prefix. *)
Definition is_suffix (s' s : jsstring) : Prop := exists pre, s = pre ++ s'.

(** The rest of a text after the first closing parenthesis that matches
    no parenthesis opened in it: where, in the words of the
    specification, the arguments of a call end.  [depth] counts the
    parentheses that are open. *)
Fixpoint after_unmatched_close (depth : nat) (s : jsstring)
    : option jsstring :=
  match s with
  | [] => None
  | c :: s' =>
      if char_eqb c 40%N then after_unmatched_close (S depth) s'
      else if char_eqb c 41%N then
        match depth with
        | O => Some s'
        | S d => after_unmatched_close d s'
        end
      else after_unmatched_close depth s'
  end.

(** The callee [console.log], and the text and the syntax tree of the
    one-line example [const r = f(); console.log(r); return r;]: the
    call is the node from offset 15 to offset 29. *)
Definition console_log_callee : expression :=
  MemberExpression (Identifier (js "console")) (Identifier (js "log")).

Definition inline_code : jsstring :=
  js "const r = f(); console.log(r); return r;".

Definition inline_parse : parse_outcome :=
  Parsed [mkNode (CallExpression console_log_callee) 15 29].

(** A call of [console.log] whose argument names another method, and a
    call of [console.time] of the same kind. *)
Definition log_about_error : jsstring := js "console.log('console.error');".
Definition time_about_error : jsstring := js "console.time('console.error');".

(** A call of [console.log] alone on its line, between a line [print]
    and a line [(x)]. *)
Definition print_around_log : jsstring :=
  js "print" ++ [LF] ++ js "console.log(1);" ++ [LF] ++ js "(x)".

(** The offsets of a statement lie in the text and are in order. *)
Definition offsets_valid (code : jsstring) (st : statement) : Prop :=
  0 <= start st /\ start st < end_ st /\ end_ st <= length code.

(** The text of a string after its last line break, and before its
    first one. *)
Definition line_before (s : jsstring) : jsstring := last (split_lines s) [].

Definition not_LF (c : char) : bool := negb (char_eqb c LF).

Definition line_after (s : jsstring) : jsstring := take_while not_LF s.

(** What a scan records of the place of a statement that starts at
    offset [off] of the text: the line (counted from 1) is one more than
    the number of line breaks before the offset, the column is the
    length of the text between the last of them and the offset, and the
    line content is that line, trimmed. *)
Definition placed_at (code : jsstring) (off : nat) (st : statement) : Prop :=
  line st = S (count_LF (firstn off code)) /\
  column st = length (line_before (firstn off code)) /\
  lineContent st =
    trim (line_before (firstn off code) ++ line_after (skipn off code)).

(** [a] is a beginning of [b]. *)
Definition is_prefix (a b : jsstring) : Prop := exists suf, b = a ++ suf.

(** [a] is [b] with some characters deleted. *)
Inductive subsequence : jsstring -> jsstring -> Prop :=
| sub_nil : subsequence [] []
| sub_skip (c : char) (a b : jsstring) :
    subsequence a b -> subsequence a (c :: b)
| sub_keep (c : char) (a b : jsstring) :
    subsequence a b -> subsequence (c :: a) (c :: b).

(** A space or a tab, the class of the pattern for trailing blanks. *)
Definition blank_char (c : char) : bool := ((c =? 32) || (c =? 9))%N.

(** The end of a line: the end of the text or a line terminator next. *)
Definition at_eol (s : jsstring) : bool :=
  match s with
  | [] => true
  | c :: _ => is_line_terminator c
  end.

(** No space or tab stands at the end of a line. *)
Fixpoint trailing_blank_free (s : jsstring) : bool :=
  match s with
  | [] => true
  | c :: s' => negb (blank_char c && at_eol s') && trailing_blank_free s'
  end.

(** Every run of white space of [s] holds at most [k] line breaks: at
    each place of [s], the white space that starts there does. *)
Fixpoint runs_bounded (k : nat) (s : jsstring) : bool :=
  match s with
  | [] => true
  | _ :: s' =>
      (count_LF (take_while is_space s) <=? k) && runs_bounded k s'
  end.

(** A text in which statements stand on lines of their own: each piece
    is some text to keep ([kept], whole lines), then the line of one
    statement: blanks, the statement, a line break. *)
Record own_line : Type := mkOwnLine {
  kept : jsstring;
  indent : jsstring;
  body : jsstring;
  line_break : jsstring
}.

Fixpoint full_text (pieces : list own_line) (tail : jsstring) : jsstring :=
  match pieces with
  | [] => tail
  | p :: ps =>
      kept p ++ indent p ++ body p ++ line_break p ++ full_text ps tail
  end.

(** The same text without the lines of the statements. *)
Fixpoint kept_text (pieces : list own_line) (tail : jsstring) : jsstring :=
  match pieces with
  | [] => tail
  | p :: ps => kept p ++ kept_text ps tail
  end.

(** [statements] are the statements of the pieces, in the order of the
    text, [off] being the offset of the first piece. *)
Fixpoint own_lines (off : nat) (pieces : list own_line)
    (statements : list statement) : Prop :=
  match pieces, statements with
  | [], [] => True
  | p :: ps, st :: sts =>
      (kept p = [] \/ exists k, kept p = k ++ [LF]) /\
      forallb not_LF (indent p) = true /\
      forallb is_space (indent p) = true /\
      (line_break p = [LF] \/ line_break p = [CR; LF]) /\
      start st = off + length (kept p) + length (indent p) /\
      end_ st = start st + length (body p) /\
      own_lines (end_ st + length (line_break p)) ps sts
  | _, _ => False
  end.

(** Two statements on lines of their own, the second one with a
    carriage return before the line feed. *)
Definition two_own_lines : list own_line :=
  [mkOwnLine (js "a();" ++ [LF]) (js "  ") (js "debugger;") [LF];
   mkOwnLine [] [] (js "print(1)") [CR; LF]].

Definition two_statements : list statement :=
  [mkStatement debugger 2 2 7 16 (js "debugger;") (js "debugger;");
   mkStatement print 3 0 17 25 (js "print(1)") (js "print(1)")].

Definition not_space (c : char) : bool := negb (is_space c).

(** The text is empty or starts with white space. *)
Definition head_space (s : jsstring) : bool :=
  match s with
  | [] => true
  | c :: _ => is_space c
  end.

(** The words of a text: its longest pieces without white space. *)
Fixpoint words (s : jsstring) : list jsstring :=
  match s with
  | [] => []
  | c :: s' =>
      if is_space c then words s'
      else if head_space s' then [c] :: words s'
      else match words s' with
           | w :: ws => (c :: w) :: ws
           | [] => [[c]]
           end
  end.






(** * Properties *)

(** ** The matcher *)

Lemma rmatch_Star (r : regex) (s : jsstring) k :
  rmatch (Star r) s k = star_loop (rmatch r) k (length s) s.
Proof. reflexivity. Qed.

Lemma is_suffix_refl (s : jsstring) : is_suffix s s.
Proof. exists []. reflexivity. Qed.

Lemma is_suffix_trans (a b c : jsstring) :
  is_suffix a b -> is_suffix b c -> is_suffix a c.
Proof.
  intros [p Hp] [q Hq]. exists (q ++ p). subst. now rewrite app_assoc.
Qed.

Lemma is_suffix_cons (c : char) (a b : jsstring) :
  is_suffix a b -> is_suffix a (c :: b).
Proof. intros [p Hp]. exists (c :: p). now subst. Qed.

Lemma is_suffix_length (a b : jsstring) :
  is_suffix a b -> length a <= length b.
Proof. intros [p ->]. rewrite length_app. lia. Qed.

Lemma is_suffix_skipn (a b : jsstring) :
  is_suffix a b -> a = skipn (length b - length a) b.
Proof.
  intros [p ->]. rewrite length_app.
  replace (length p + length a - length a) with (length p) by lia.
  rewrite skipn_app, skipn_all, Nat.sub_diag. reflexivity.
Qed.

(** A match hands a suffix of the input to its continuation. *)
Lemma rmatch_suffix (r : regex) :
  forall s k x, rmatch r s k = Some x ->
  exists s', is_suffix s' s /\ k s' = Some x.
Proof.
  induction r as [|p|r1 IH1 r2 IH2|r1 IH1 r2 IH2|r IH| |]; intros s k x H.
  - exists s. split; [apply is_suffix_refl|exact H].
  - simpl in H. destruct s as [|c s]; [discriminate|].
    destruct (p c); [|discriminate].
    exists s. split; [|exact H]. apply is_suffix_cons, is_suffix_refl.
  - simpl in H. apply IH1 in H. destruct H as (s1 & Hs1 & H).
    apply IH2 in H. destruct H as (s2 & Hs2 & H).
    exists s2. split; [|exact H]. eapply is_suffix_trans; eauto.
  - simpl in H. destruct (rmatch r1 s k) eqn:E.
    + inversion H; subst. apply IH1 in E. exact E.
    + apply IH2 in H. exact H.
  - rewrite rmatch_Star in H. revert H.
    generalize (length s) as fuel. intros fuel. revert s.
    induction fuel as [|fuel IHf]; intros s H; simpl in H.
    + exists s. split; [apply is_suffix_refl|exact H].
    + destruct (rmatch r s _) eqn:E.
      * inversion H; subst. apply IH in E. destruct E as (s1 & Hs1 & E).
        destruct (length s1 <? length s); [|discriminate].
        apply IHf in E. destruct E as (s2 & Hs2 & E).
        exists s2. split; [|exact E]. eapply is_suffix_trans; eauto.
      * exists s. split; [apply is_suffix_refl|exact H].
  - simpl in H. destruct s; [|discriminate].
    exists []. split; [apply is_suffix_refl|exact H].
  - simpl in H. exists s. split; [apply is_suffix_refl|].
    destruct s as [|c s]; [exact H|].
    destruct (is_line_terminator c); [exact H|discriminate].
Qed.

Lemma match_here_suffix (r : regex) (s rest : jsstring) :
  match_here r s = Some rest -> is_suffix rest s.
Proof.
  intros H. apply rmatch_suffix in H. destruct H as (s' & Hs & E).
  inversion E; subst. exact Hs.
Qed.

(** A greedy star of a character class. *)
Lemma star_loop_chr (p : char -> bool) k :
  forall fuel s, length s <= fuel ->
  star_loop (rmatch (Chr p)) k fuel s = star_chr p k s.
Proof.
  induction fuel as [|fuel IH]; intros s Hlen.
  - destruct s; [reflexivity|simpl in Hlen; lia].
  - destruct s as [|c s]; [reflexivity|].
    simpl in Hlen. cbn [star_loop rmatch star_chr].
    destruct (p c); [|reflexivity].
    replace (length s <? length (c :: s)) with true
      by (symmetry; apply Nat.ltb_lt; simpl; lia).
    rewrite IH by lia. reflexivity.
Qed.

Lemma rmatch_star_chr (p : char -> bool) k (s : jsstring) :
  rmatch (Star (Chr p)) s k = star_chr p k s.
Proof. rewrite rmatch_Star. apply star_loop_chr. lia. Qed.

Lemma star_chr_greedy (p : char -> bool) k (s : jsstring) x :
  k (drop_while p s) = Some x -> star_chr p k s = Some x.
Proof.
  induction s as [|c s IH]; simpl; intros H; [exact H|].
  destruct (p c); [|exact H]. rewrite IH by exact H. reflexivity.
Qed.

Lemma drop_while_app (p : char -> bool) (w rest : jsstring) :
  forallb p w = true ->
  match rest with [] => True | c :: _ => p c = false end ->
  drop_while p (w ++ rest) = rest.
Proof.
  induction w as [|c w IH]; simpl; intros Hw Hr.
  - destruct rest as [|c rest]; [reflexivity|]. simpl. now rewrite Hr.
  - apply andb_prop in Hw. destruct Hw as [Hc Hw]. rewrite Hc. auto.
Qed.

Lemma drop_spaces_drop_while (s : jsstring) :
  drop_spaces s = drop_while is_space s.
Proof. induction s as [|c s IH]; simpl; [reflexivity|now rewrite IH]. Qed.

Lemma char_eqb_eq (a b : char) : char_eqb a b = true <-> a = b.
Proof. apply N.eqb_eq. Qed.

Lemma char_eqb_refl (a : char) : char_eqb a a = true.
Proof. apply N.eqb_refl. Qed.

Lemma startsWith_app (p s : jsstring) : startsWith (p ++ s) p = true.
Proof.
  induction p as [|c p IH]; simpl; [reflexivity|].
  now rewrite char_eqb_refl, IH.
Qed.

Lemma startsWith_inv (p s : jsstring) :
  startsWith s p = true -> s = p ++ skipn (length p) s.
Proof.
  revert s. induction p as [|c p IH]; intros s H; [reflexivity|].
  destruct s as [|d s]; [discriminate|]. simpl in H.
  apply andb_prop in H. destruct H as [Hc Hp].
  apply char_eqb_eq in Hc. subst d. simpl. f_equal. apply IH, Hp.
Qed.

(** A literal at the head of the input. *)
Lemma rmatch_literal (l s : jsstring) k :
  rmatch (fold_right (fun c r => Seq (Lit1 c) r) Eps l) s k =
  if startsWith s l then k (skipn (length l) s) else None.
Proof.
  revert s. induction l as [|c l IH]; intros s; [reflexivity|].
  cbn [fold_right rmatch Lit1]. destruct s as [|d s]; [reflexivity|].
  cbn [startsWith length skipn]. destruct (char_eqb c d); [|reflexivity].
  apply IH.
Qed.

Lemma rmatch_Lit (l : String.string) (s : jsstring) k :
  rmatch (Lit l) s k =
  if startsWith s (js l) then k (skipn (length (js l)) s) else None.
Proof. apply rmatch_literal. Qed.

Lemma rmatch_Lit_app (l : String.string) (s : jsstring) k :
  rmatch (Lit l) (js l ++ s) k = k s.
Proof.
  rewrite rmatch_Lit, startsWith_app, skipn_app, skipn_all, Nat.sub_diag.
  reflexivity.
Qed.

Lemma rmatch_Lit_inv (l : String.string) (s : jsstring) k x :
  rmatch (Lit l) s k = Some x ->
  exists s', s = js l ++ s' /\ k s' = Some x.
Proof.
  rewrite rmatch_Lit. destruct (startsWith s (js l)) eqn:E; [|discriminate].
  intros H. exists (skipn (length (js l)) s). split; [|exact H].
  apply startsWith_inv, E.
Qed.

Lemma star_chr_inv (p : char -> bool) k (s : jsstring) x :
  star_chr p k s = Some x ->
  exists w tail, s = w ++ tail /\ forallb p w = true /\ k tail = Some x.
Proof.
  induction s as [|c s IH]; simpl; intros H.
  - exists [], []. auto.
  - destruct (p c) eqn:Hc.
    + destruct (star_chr p k s) eqn:E.
      * inversion H; subst. destruct (IH eq_refl) as (w & tail & -> & Hw & Hk).
        exists (c :: w), tail. simpl. rewrite Hc, Hw. auto.
      * exists [], (c :: s). auto.
    + exists [], (c :: s). auto.
Qed.

Lemma rmatch_Seq (r1 r2 : regex) (s : jsstring) k :
  rmatch (Seq r1 r2) s k = rmatch r1 s (fun s' => rmatch r2 s' k).
Proof. reflexivity. Qed.

Lemma rmatch_Eps (s : jsstring) k : rmatch Eps s k = k s.
Proof. reflexivity. Qed.

Lemma rmatch_Chr (p : char -> bool) (s : jsstring) k :
  rmatch (Chr p) s k =
  match s with
  | c :: s' => if p c then k s' else None
  | [] => None
  end.
Proof. reflexivity. Qed.

Lemma rmatch_Alt (r1 r2 : regex) (s : jsstring) k :
  rmatch (Alt r1 r2) s k =
  match rmatch r1 s k with Some x => Some x | None => rmatch r2 s k end.
Proof. reflexivity. Qed.

Lemma rmatch_star_Space k (s : jsstring) :
  rmatch (Star Space) s k = star_chr is_space k s.
Proof. apply rmatch_star_chr. Qed.

(** The end of the scanner patterns never fails and takes all it can. *)
Lemma rmatch_terminator (s : jsstring) :
  rmatch (Seq (Star Space) (Seq (Opt (Lit ";")) (Star Space))) s Some =
  Some (after_terminator s).
Proof.
  rewrite rmatch_Seq, rmatch_star_Space. apply star_chr_greedy.
  unfold after_terminator. rewrite !drop_spaces_drop_while.
  unfold Opt. rewrite rmatch_Seq, rmatch_Alt, rmatch_Lit.
  set (t := drop_while is_space s).
  destruct t as [|c t].
  - reflexivity.
  - cbn [js String.list_ascii_of_string List.map startsWith drop_semicolon].
    change (N_of_ascii ";") with 59%N.
    destruct (char_eqb 59%N c) eqn:E.
    + cbn [andb skipn length]. rewrite rmatch_star_Space.
      rewrite (star_chr_greedy is_space Some t (drop_while is_space t))
        by reflexivity.
      reflexivity.
    + cbn [andb]. rewrite rmatch_Eps, rmatch_star_Space.
      apply star_chr_greedy. reflexivity.
Qed.

(** ** The patterns of the lexical scanner *)

Lemma no_rparen_forallb (args : jsstring) :
  includes args (js ")") = false <->
  forallb (fun x => negb (existsb (char_eqb x) (js ")"))) args = true.
Proof.
  induction args as [|c args IH].
  - split; reflexivity.
  - cbn [includes forallb]. rewrite orb_false_iff, andb_true_iff, IH.
    change (js ")") with [41%N]. cbn [startsWith existsb].
    unfold char_eqb. rewrite (N.eqb_sym 41 c).
    destruct (c =? 41)%N; cbn [andb orb negb]; intuition congruence.
Qed.

Lemma call_tail_match (w args rest : jsstring) :
  forallb is_space w = true ->
  includes args (js ")") = false ->
  rmatch call_tail (w ++ js "(" ++ args ++ js ")" ++ rest) Some =
  Some (after_terminator rest).
Proof.
  intros Hw Ha. apply no_rparen_forallb in Ha.
  unfold call_tail. rewrite rmatch_Seq, rmatch_star_Space.
  apply star_chr_greedy. rewrite drop_while_app; [|exact Hw|reflexivity].
  rewrite rmatch_Seq, rmatch_Lit_app, rmatch_Seq.
  unfold NoneOf. rewrite rmatch_star_chr. apply star_chr_greedy.
  rewrite drop_while_app; [|exact Ha|reflexivity].
  rewrite rmatch_Seq, rmatch_Lit_app. apply rmatch_terminator.
Qed.

Lemma call_tail_inv (s x : jsstring) :
  rmatch call_tail s Some = Some x ->
  exists w args rest,
    forallb is_space w = true /\ includes args (js ")") = false /\
    s = w ++ js "(" ++ args ++ js ")" ++ rest /\ x = after_terminator rest.
Proof.
  unfold call_tail. rewrite rmatch_Seq, rmatch_star_Space. intros H.
  apply star_chr_inv in H. destruct H as (w & t1 & -> & Hw & H).
  rewrite rmatch_Seq in H. apply rmatch_Lit_inv in H.
  destruct H as (t2 & -> & H).
  unfold NoneOf in H. rewrite rmatch_Seq, rmatch_star_chr in H.
  apply star_chr_inv in H. destruct H as (args & t3 & -> & Ha & H).
  rewrite rmatch_Seq in H. apply rmatch_Lit_inv in H.
  destruct H as (rest & -> & H).
  rewrite rmatch_terminator in H. inversion H; subst.
  exists w, args, rest. repeat split; auto. now apply no_rparen_forallb.
Qed.

(** [call_tail] cannot start in the middle of a word. *)
Lemma call_tail_letter (c : char) (s : jsstring) :
  is_space c = false -> char_eqb 40%N c = false ->
  rmatch call_tail (c :: s) Some = None.
Proof.
  intros Hs Hp. unfold call_tail. rewrite rmatch_Seq, rmatch_star_Space.
  cbn [star_chr]. rewrite Hs. rewrite rmatch_Seq, rmatch_Lit.
  change (js "(") with [40%N]. cbn [startsWith]. now rewrite Hp.
Qed.

Lemma console_method_inv (s : jsstring) k x :
  rmatch console_method_re s k = Some x ->
  exists m s', In m console_methods /\ s = js m ++ s' /\ k s' = Some x.
Proof.
  unfold console_method_re. cbn [fold_right]. intros H.
  repeat (rewrite rmatch_Alt in H;
          match type of H with
          | match rmatch (Lit ?m) s k with _ => _ end = _ =>
              destruct (rmatch (Lit m) s k) eqn:E;
              [ inversion H; subst; apply rmatch_Lit_inv in E;
                destruct E as (s' & -> & E); exists m, s';
                split; [cbn; tauto|split; [reflexivity|exact E]]
              | clear E ]
          end).
  apply rmatch_Lit_inv in H. destruct H as (s' & -> & H).
  exists "timeEnd", s'. split; [cbn; tauto|split; [reflexivity|exact H]].
Qed.

(** One alternative of a list of literals that does not match. *)
Ltac alt_skip :=
  rewrite rmatch_Alt, rmatch_Lit;
  match goal with
  | |- context [startsWith ?a ?b] => change (startsWith a b) with false
  end;
  cbv iota.

(** The alternative that matches. *)
Ltac alt_take :=
  rewrite rmatch_Alt, rmatch_Lit_app.

Lemma console_method_match (m : String.string) (w args rest : jsstring) :
  In m console_methods ->
  forallb is_space w = true ->
  includes args (js ")") = false ->
  rmatch console_method_re (js m ++ w ++ js "(" ++ args ++ js ")" ++ rest)
         (fun s' => rmatch call_tail s' Some) =
  Some (after_terminator rest).
Proof.
  intros Hm Hw Ha. pose proof (call_tail_match w args rest Hw Ha) as Hk.
  remember (w ++ js "(" ++ args ++ js ")" ++ rest) as tail eqn:Ht.
  clear Ht Hw Ha.
  unfold console_method_re. cbn [fold_right].
  cbn [console_methods In] in Hm.
  destruct Hm as [<-|[<-|[<-|[<-|[<-|[<-|[<-|[<-|[<-|[]]]]]]]]]].
  - alt_take. now rewrite Hk.
  - alt_skip. alt_take. now rewrite Hk.
  - do 2 alt_skip. alt_take. now rewrite Hk.
  - do 3 alt_skip. alt_take. now rewrite Hk.
  - do 4 alt_skip. alt_take. now rewrite Hk.
  - do 5 alt_skip. alt_take. now rewrite Hk.
  - do 6 alt_skip. alt_take. now rewrite Hk.
  - do 7 alt_skip. alt_take. now rewrite Hk.
  - (* timeEnd: [time] is tried first and fails at the E *)
    do 7 alt_skip.
    rewrite rmatch_Alt.
    change (js "timeEnd" ++ tail) with (js "time" ++ 69%N :: js "nd" ++ tail).
    rewrite rmatch_Lit_app, call_tail_letter by reflexivity.
    change (js "time" ++ 69%N :: js "nd" ++ tail) with (js "timeEnd" ++ tail).
    rewrite rmatch_Lit_app. exact Hk.
Qed.

(** ** The search loop *)

(** A pattern that starts with a literal has no empty match. *)
Lemma literal_prefix_nonempty (l : String.string) (r : regex)
    (s rest : jsstring) :
  0 < length (js l) ->
  match_here (Seq (Lit l) r) s = Some rest -> length rest < length s.
Proof.
  unfold match_here. intros Hl H. rewrite rmatch_Seq in H.
  apply rmatch_Lit_inv in H. destruct H as (s1 & -> & H).
  apply match_here_suffix, is_suffix_length in H.
  rewrite length_app. lia.
Qed.

Lemma scanner_match_nonempty (r : regex) (ty : statement_type)
    (s rest : jsstring) :
  In (r, ty) patterns -> match_here r s = Some rest ->
  length rest < length s.
Proof.
  intros Hin H. cbn [patterns In] in Hin.
  destruct Hin as [E|[E|[E|[E|[]]]]]; inversion E; subst; clear E.
  - eapply literal_prefix_nonempty; [|exact H]. cbn. lia.
  - eapply literal_prefix_nonempty; [|exact H]. cbn. lia.
  - eapply literal_prefix_nonempty; [|exact H]. cbn. lia.
  - eapply literal_prefix_nonempty; [|exact H]. cbn. lia.
Qed.

Section ExecAll.
Variable r : regex.
Hypothesis nonempty :
  forall s rest, match_here r s = Some rest -> length rest < length s.

(** Every match of the loop lies in the text and is not empty. *)
Lemma exec_all_bounds (s : jsstring) :
  forall pos skip idx n,
  In (idx, n) (exec_all r pos skip s) ->
  pos + skip <= idx /\ 0 < n /\ idx + n <= pos + length s.
Proof.
  induction s as [|c s IH]; intros pos skip idx n Hin.
  - destruct skip; cbn [exec_all] in Hin; [|contradiction].
    destruct (match_here r []) eqn:E; [|contradiction].
    apply nonempty in E. simpl in E. lia.
  - destruct skip as [|skip]; cbn [exec_all] in Hin.
    + destruct (match_here r (c :: s)) as [rest|] eqn:E.
      * pose proof (nonempty _ _ E) as Hlt.
        pose proof (is_suffix_length _ _ (match_here_suffix _ _ _ E)) as Hle.
        destruct Hin as [Heq|Hin].
        -- assert (pos = idx) by congruence.
           assert (length (c :: s) - length rest = n) by congruence.
           lia.
        -- apply IH in Hin. cbn [length] in *. lia.
      * apply IH in Hin. cbn [length]. lia.
    + apply IH in Hin. cbn [length]. lia.
Qed.

(** Every match the loop reports is a match of the pattern. *)
Lemma exec_all_sound (s : jsstring) :
  forall pos skip idx n,
  In (idx, n) (exec_all r pos skip s) ->
  exists rest, match_here r (skipn (idx - pos) s) = Some rest /\
               n = length s - (idx - pos) - length rest.
Proof.
  induction s as [|c s IH]; intros pos skip idx n Hin.
  - destruct skip; cbn [exec_all] in Hin; [|contradiction].
    destruct (match_here r []) eqn:E; [|contradiction].
    apply nonempty in E. simpl in E. lia.
  - assert (Hstep : forall k, In (idx, n) (exec_all r (S pos) k s) ->
              exists rest,
                match_here r (skipn (idx - pos) (c :: s)) = Some rest /\
                n = length (c :: s) - (idx - pos) - length rest).
    { intros k Hk. pose proof (exec_all_bounds _ _ _ _ _ Hk) as Hb.
      apply IH in Hk. destruct Hk as (rest & Hm & Hn).
      exists rest. replace (idx - pos) with (S (idx - S pos)) by lia.
      split; [exact Hm|cbn [length]; lia]. }
    destruct skip as [|skip]; cbn [exec_all] in Hin; [|eauto].
    destruct (match_here r (c :: s)) as [rest|] eqn:E; [|eauto].
    destruct Hin as [Heq|Hin]; [|eauto].
    assert (pos = idx) by congruence.
    assert (length (c :: s) - length rest = n) by congruence.
    subst idx. rewrite Nat.sub_diag. exists rest.
    split; [exact E|]. lia.
Qed.

(** The loop misses no occurrence: a place where the pattern matches
    is the start of a reported match or inside one. *)
Lemma exec_all_complete (s : jsstring) :
  forall pos skip p,
  pos + skip <= p -> p <= pos + length s ->
  match_here r (skipn (p - pos) s) <> None ->
  exists idx n, In (idx, n) (exec_all r pos skip s) /\
                idx <= p < idx + n.
Proof.
  induction s as [|c s IH]; intros pos skip p Hlo Hhi Hm.
  - exfalso. rewrite skipn_nil in Hm.
    destruct (match_here r []) eqn:E; [|congruence].
    apply nonempty in E. simpl in E. lia.
  - cbn [length] in Hhi.
    assert (Hstep : forall k, S pos + k <= p ->
              exists idx n, In (idx, n) (exec_all r (S pos) k s) /\
                            idx <= p < idx + n).
    { intros k Hk. apply IH; [exact Hk|lia|].
      replace (p - pos) with (S (p - S pos)) in Hm by lia. exact Hm. }
    destruct skip as [|skip]; cbn [exec_all].
    + destruct (match_here r (c :: s)) as [rest|] eqn:E.
      * pose proof (nonempty _ _ E) as Hlt.
        destruct (Nat.lt_ge_cases p (pos + (length (c :: s) - length rest)))
          as [Hin|Hout].
        -- exists pos, (length (c :: s) - length rest).
           split; [left; reflexivity|lia].
        -- destruct (Hstep (length (c :: s) - length rest - 1))
             as (idx & n & Hi & Hr); [lia|].
           exists idx, n. split; [right; exact Hi|exact Hr].
      * assert (p <> pos).
        { intros ->. rewrite Nat.sub_diag in Hm. simpl in Hm. congruence. }
        destruct (Hstep 0) as (idx & n & Hi & Hr); [lia|]. eauto.
    + destruct (Hstep skip) as (idx & n & Hi & Hr); [lia|]. eauto.
Qed.
End ExecAll.

(** ** The sort *)

Section SortFacts.
Variable A : Type.
Variable cmp : A -> A -> Z.

Lemma sort_insert_perm (x : A) (l : list A) :
  Permutation (sort_insert cmp x l) (x :: l).
Proof.
  induction l as [|y l IH]; simpl; [reflexivity|].
  destruct (cmp x y <=? 0)%Z; [reflexivity|].
  rewrite IH. apply perm_swap.
Qed.

Lemma js_sort_perm (l : list A) : Permutation (js_sort cmp l) l.
Proof.
  induction l as [|x l IH]; simpl; [reflexivity|].
  rewrite sort_insert_perm. now constructor.
Qed.

(** The order the comparator stands for. *)
Variable R : A -> A -> Prop.
Hypothesis R_le : forall x y, (cmp x y <= 0)%Z -> R x y.
Hypothesis R_gt : forall x y, (0 < cmp x y)%Z -> R y x.
Hypothesis R_trans : forall x y z, R x y -> R y z -> R x z.

Lemma sort_insert_sorted (x : A) (l : list A) :
  StronglySorted R l -> StronglySorted R (sort_insert cmp x l).
Proof.
  induction 1 as [|y l Hs IH Hy]; simpl.
  - constructor; constructor.
  - destruct (cmp x y <=? 0)%Z eqn:E.
    + apply Z.leb_le in E. constructor; [constructor; assumption|].
      constructor; [apply R_le, E|].
      eapply Forall_impl; [|exact Hy]. intros z Hz.
      eapply R_trans; [apply R_le, E|exact Hz].
    + apply Z.leb_gt in E. constructor; [exact IH|].
      eapply Permutation_Forall;
        [symmetry; apply sort_insert_perm|].
      constructor; [apply R_gt, E|exact Hy].
Qed.

Lemma js_sort_sorted (l : list A) : StronglySorted R (js_sort cmp l).
Proof.
  induction l as [|x l IH]; simpl; [constructor|].
  apply sort_insert_sorted, IH.
Qed.
End SortFacts.

Lemma StronglySorted_snoc (A : Type) (R : A -> A -> Prop) (l : list A) (a : A) :
  StronglySorted R l -> Forall (fun x => R x a) l ->
  StronglySorted R (l ++ [a]).
Proof.
  induction 1 as [|y l Hs IH Hy]; intros Hf; simpl.
  - constructor; constructor.
  - inversion Hf; subst. constructor; [apply IH; assumption|].
    apply Forall_app. split; [exact Hy|]. constructor; [assumption|constructor].
Qed.

Lemma StronglySorted_rev (A : Type) (R : A -> A -> Prop) (l : list A) :
  StronglySorted R l -> StronglySorted (fun a b => R b a) (rev l).
Proof.
  induction 1 as [|y l Hs IH Hy]; simpl; [constructor|].
  apply StronglySorted_snoc; [exact IH|].
  apply Forall_rev. exact Hy.
Qed.

Lemma StronglySorted_map (A B : Type) (f : A -> B) (R : B -> B -> Prop)
    (l : list A) :
  StronglySorted (fun a b => R (f a) (f b)) l ->
  StronglySorted R (List.map f l).
Proof.
  induction 1 as [|y l Hs IH Hy]; simpl; constructor; [exact IH|].
  apply Forall_map. exact Hy.
Qed.

Lemma sorted_descending (l : list statement) :
  StronglySorted (fun a b => start b <= start a)
                 (js_sort by_start_descending l).
Proof.
  apply js_sort_sorted; unfold by_start_descending; intros; lia.
Qed.

Lemma sorted_ascending (l : list statement) :
  StronglySorted (fun a b => start a <= start b)
                 (js_sort by_start_ascending l).
Proof.
  apply js_sort_sorted; unfold by_start_ascending; intros; lia.
Qed.

(** ** The removal loop *)

Lemma remove_loop (l : list statement) :
  forall code n acc,
  exists code',
    fold_left remove_step l (code, n, acc) =
    (code', n + length l,
     acc ++ List.map (fun st => mkRemoved st (start st)) l).
Proof.
  induction l as [|st l IH]; intros code n acc.
  - exists code. simpl. now rewrite Nat.add_0_r, app_nil_r.
  - cbn [fold_left]. unfold remove_step at 2. unfold removeStatement.
    destruct (if isOnOwnLine _ then _ else _) as [b a].
    destruct (IH (b ++ a) (n + 1) (acc ++ [mkRemoved st (start st)]))
      as (code' & E).
    exists code'. rewrite E. cbn [length List.map].
    rewrite <- app_assoc. f_equal. f_equal. lia.
Qed.

(** ** The scanners *)

Lemma statement_of_match_fields (code : jsstring) (lines : list jsstring)
    (ty : statement_type) (m : nat * nat) :
  let st := statement_of_match code lines ty m in
  type st = ty /\ start st = fst m /\ end_ st = fst m + snd m /\
  text st = firstn (snd m) (skipn (fst m) code).
Proof.
  unfold statement_of_match. destruct (find_line lines (fst m) 0 0).
  cbn. auto.
Qed.

Lemma fallback_matches_in (code : jsstring) (st : statement) :
  In st (fallback_matches code) <->
  exists r ty m,
    In (r, ty) patterns /\ In m (exec_all r 0 0 code) /\
    st = statement_of_match code (split_lines code) ty m.
Proof.
  unfold fallback_matches. rewrite in_flat_map. split.
  - intros ([r ty] & Hp & Hin). apply in_map_iff in Hin.
    destruct Hin as (m & <- & Hm). exists r, ty, m. auto.
  - intros (r & ty & m & Hp & Hm & ->). exists (r, ty). split; [exact Hp|].
    apply in_map_iff. exists m. auto.
Qed.

Lemma fallbackRegexParse_in (code : jsstring) (st : statement) :
  In st (fallbackRegexParse code) <-> In st (fallback_matches code).
Proof.
  unfold fallbackRegexParse. split; apply Permutation_in.
  - apply js_sort_perm.
  - symmetry. apply js_sort_perm.
Qed.

Lemma fallbackRegexParse_offsets (code : jsstring) :
  Forall (offsets_valid code) (fallbackRegexParse code).
Proof.
  apply Forall_forall. intros st Hin.
  apply fallbackRegexParse_in, fallback_matches_in in Hin.
  destruct Hin as (r & ty & [idx n] & Hp & Hm & ->).
  apply exec_all_bounds in Hm;
    [|intros s rest; apply (scanner_match_nonempty r ty), Hp].
  destruct (statement_of_match_fields code (split_lines code) ty (idx, n))
    as (_ & Hs & He & _).
  unfold offsets_valid. rewrite Hs, He. cbn [fst snd]. lia.
Qed.

Lemma addDebugStatement_fields (n : node) (code : jsstring)
    (ty : statement_type) :
  let st := addDebugStatement n code ty in
  type st = ty /\ start st = node_start n /\
  node_end n <= end_ st /\
  end_ st <= node_end n + length (skipn (node_end n) code) /\
  text st = substring code (start st) (end_ st).
Proof.
  unfold addDebugStatement, substring_from.
  destruct (find_line (split_lines code) (node_start n) 0 0).
  cbn [type start end_ text].
  destruct (match_here semicolon_re (skipn (node_end n) code)) eqn:E.
  - apply match_here_suffix, is_suffix_length in E. repeat split; lia.
  - repeat split; lia.
Qed.

Lemma addDebugStatement_offsets (n : node) (code : jsstring)
    (ty : statement_type) :
  node_start n < node_end n <= length code ->
  offsets_valid code (addDebugStatement n code ty).
Proof.
  intros Hn. destruct (addDebugStatement_fields n code ty)
    as (_ & Hs & Hlo & Hhi & _).
  rewrite length_skipn in Hhi. unfold offsets_valid. lia.
Qed.

Lemma handleNode_offsets (n : node) (code : jsstring) :
  node_start n < node_end n <= length code ->
  Forall (offsets_valid code) (handleNode n code).
Proof.
  intros Hn. unfold handleNode.
  destruct (kind n) as [callee|].
  - destruct (isConsoleCall callee);
      [|destruct (isPrintCall callee);
        [|destruct (isSystemOutCall callee)]];
      try (constructor; [now apply addDebugStatement_offsets|]);
      constructor.
  - constructor; [now apply addDebugStatement_offsets|constructor].
Qed.

(** ** The filter *)

(** What the filter does with a console statement: it is kept out of
    the removal as soon as its text contains [console.] followed by a
    method whose flag is off, wherever in the text that is. *)
Lemma keep_statement_console (c : configuration) (st : statement) :
  type st = console ->
  keep_statement c st =
  negb (existsb (fun '(name, flag) => includes (text st) (js name) && negb flag)
          [("console.log", Config.removeConsoleLog c);
           ("console.warn", Config.removeConsoleWarn c);
           ("console.error", Config.removeConsoleError c);
           ("console.info", Config.removeConsoleInfo c);
           ("console.debug", Config.removeConsoleDebug c);
           ("console.trace", Config.removeConsoleTrace c)]).
Proof.
  intros Ht. unfold keep_statement. rewrite Ht. cbn [existsb].
  repeat match goal with
         | |- context [includes ?a ?b && negb ?f] =>
             destruct (includes a b && negb f); cbn [orb negb];
             [reflexivity|]
         end.
  reflexivity.
Qed.

(** The other kinds have one flag each. *)
Lemma keep_statement_single_flag (c : configuration) (st : statement) :
  (type st = debugger -> keep_statement c st = Config.removeDebugger c) /\
  (type st = print -> keep_statement c st = Config.removePrint c) /\
  (type st = system_out -> keep_statement c st = Config.removeSystemOut c).
Proof. unfold keep_statement. repeat split; intros ->; reflexivity. Qed.

(** ** The collapse of blank lines *)

Lemma rmatch_blank_group (s : jsstring) k :
  rmatch blank_group s k =
  match s with
  | c :: s' => if char_eqb LF c then star_chr is_space k s' else None
  | [] => None
  end.
Proof.
  unfold blank_group. rewrite rmatch_Seq. cbn [rmatch Lit1].
  destruct s as [|c s]; [reflexivity|].
  destruct (char_eqb LF c); [apply rmatch_star_Space|reflexivity].
Qed.

Lemma drop_while_head (p : char -> bool) (s : jsstring) :
  match drop_while p s with
  | c :: _ => p c = false
  | [] => True
  end.
Proof.
  induction s as [|c s IH]; simpl; [exact I|].
  destruct (p c) eqn:E; [exact IH|exact E].
Qed.

Lemma drop_while_length (p : char -> bool) (s : jsstring) :
  length (drop_while p s) <= length s.
Proof.
  induction s as [|c s IH]; simpl; [lia|].
  destruct (p c); simpl; lia.
Qed.

Lemma starts_with_LF_space (s : jsstring) :
  starts_with_LF s = true ->
  match s with c :: _ => is_space c = true | [] => False end.
Proof.
  destruct s as [|c s]; cbn [starts_with_LF]; [discriminate|].
  intros H. apply char_eqb_eq in H. subst c. reflexivity.
Qed.

Lemma starts_with_LF_drop_while (s : jsstring) :
  starts_with_LF (drop_while is_space s) = false.
Proof.
  pose proof (drop_while_head is_space s) as H.
  destruct (starts_with_LF (drop_while is_space s)) eqn:E; [|reflexivity].
  apply starts_with_LF_space in E.
  destruct (drop_while is_space s); [contradiction|congruence].
Qed.

Lemma star_chr_ext (p : char -> bool) k1 k2 (s : jsstring) :
  (forall t, k1 t = k2 t) -> star_chr p k1 s = star_chr p k2 s.
Proof.
  intros H. induction s as [|c s IH]; simpl; [apply H|].
  rewrite IH, H. reflexivity.
Qed.

(** The star of the group takes the whole run of white space after a
    line break, in one iteration. *)
Lemma star_blank_group :
  forall fuel t, length t <= fuel ->
  star_loop (rmatch blank_group) Some fuel t =
  Some (if starts_with_LF t then drop_while is_space t else t).
Proof.
  induction fuel as [|fuel IH]; intros t Hlen.
  - destruct t; [reflexivity|simpl in Hlen; lia].
  - cbn [star_loop]. rewrite rmatch_blank_group.
    destruct t as [|c t]; [reflexivity|]. cbn [starts_with_LF].
    destruct (char_eqb LF c) eqn:Ec; [|reflexivity].
    apply char_eqb_eq in Ec. subst c.
    rewrite (star_chr_greedy is_space _ t (drop_while is_space t));
      [reflexivity|].
    pose proof (drop_while_length is_space t) as Hd.
    cbn [length] in *.
    replace (length (drop_while is_space t) <? S (length t)) with true
      by (symmetry; apply Nat.ltb_lt; lia).
    rewrite IH by lia. now rewrite starts_with_LF_drop_while.
Qed.

(** Backtracking into a run of white space for a place where [m] line
    breaks are still to come. *)
Lemma star_chr_line_breaks (m : nat) (s : jsstring) :
  0 < m ->
  star_chr is_space
    (fun t => if starts_with_LF t
                 && (m <=? count_LF (take_while is_space t))
              then Some (drop_while is_space t) else None) s =
  if m <=? count_LF (take_while is_space s)
  then Some (drop_while is_space s) else None.
Proof.
  intros Hm. induction s as [|c s IH].
  - cbn. destruct m; [lia|reflexivity].
  - cbn [star_chr take_while drop_while]. destruct (is_space c) eqn:Es.
    + rewrite IH. unfold count_LF in *. cbn [filter starts_with_LF].
      destruct (char_eqb LF c) eqn:Ec; cbn [length andb take_while].
      * destruct (m <=? length (filter (char_eqb LF) (take_while is_space s)))
          eqn:E1; [|reflexivity].
        apply Nat.leb_le in E1.
        replace (m <=? S (length (filter (char_eqb LF)
                                    (take_while is_space s))))
          with true by (symmetry; apply Nat.leb_le; lia).
        reflexivity.
      * destruct (m <=? length (filter (char_eqb LF) (take_while is_space s)));
          reflexivity.
    + cbn [starts_with_LF]. unfold count_LF. cbn [filter length].
      replace (char_eqb LF c) with false.
      * destruct m; [lia|reflexivity].
      * symmetry. destruct (char_eqb LF c) eqn:Ec; [|reflexivity].
        apply char_eqb_eq in Ec. subst c. discriminate.
Qed.

(** The pattern [(\n\s* ){n,}] at the head of a text, for [n >= 1]: it
    matches when the text starts with a line break and the run of white
    space it starts holds [n] line breaks or more, and it takes the
    whole run. *)
Lemma at_least_blank_group (n : nat) :
  forall s,
  rmatch (AtLeast (S n) blank_group) s Some =
  if starts_with_LF s && (S n <=? count_LF (take_while is_space s))
  then Some (drop_while is_space s) else None.
Proof.
  induction n as [|n IH]; intros s; cbn [AtLeast];
    rewrite rmatch_Seq, rmatch_blank_group;
    (destruct s as [|c s]; [reflexivity|]); cbn [starts_with_LF];
    (destruct (char_eqb LF c) eqn:Ec; [|reflexivity]);
    apply char_eqb_eq in Ec; subst c;
    unfold count_LF; cbn [take_while drop_while filter];
    change (is_space LF) with true; change (char_eqb LF LF) with true;
    cbn [andb length filter].
  - change (char_eqb LF LF) with true. cbn [length Nat.leb].
    apply star_chr_greedy. rewrite rmatch_Star.
    rewrite star_blank_group by lia.
    now rewrite starts_with_LF_drop_while.
  - change (char_eqb LF LF) with true. cbn [length].
    rewrite (star_chr_ext is_space _
               (fun t => if starts_with_LF t
                            && (S n <=? count_LF (take_while is_space t))
                         then Some (drop_while is_space t) else None) s)
      by (intros t; apply (IH t)).
    rewrite star_chr_line_breaks by lia. reflexivity.
Qed.

Lemma blank_lines_re_match (maxLines : nat) (s : jsstring) :
  match_here (blank_lines_re maxLines) s =
  if starts_with_LF s
     && (maxLines + 1 <=? count_LF (take_while is_space s))
  then Some (drop_while is_space s) else None.
Proof.
  unfold match_here, blank_lines_re. rewrite Nat.add_1_r.
  apply at_least_blank_group.
Qed.

Lemma replace_all_skip (r : regex) (repl w s : jsstring) :
  replace_all r repl (length w) (w ++ s) = replace_all r repl 0 s.
Proof.
  induction w as [|c w IH]; [reflexivity|].
  cbn [length app replace_all]. exact IH.
Qed.

Lemma replace_all_copy (maxLines : nat) (repl a s : jsstring) :
  forallb (fun c => negb (char_eqb LF c)) a = true ->
  replace_all (blank_lines_re maxLines) repl 0 (a ++ s) =
  a ++ replace_all (blank_lines_re maxLines) repl 0 s.
Proof.
  induction a as [|c a IH]; intros Ha; [reflexivity|].
  cbn [forallb] in Ha. apply andb_prop in Ha. destruct Ha as [Hc Ha].
  cbn [app replace_all]. rewrite blank_lines_re_match.
  cbn [starts_with_LF]. apply negb_true_iff in Hc. rewrite Hc.
  cbn [andb]. now rewrite IH.
Qed.

Lemma take_while_line_breaks (n : nat) (b : jsstring) :
  match b with c :: _ => is_space c = false | [] => True end ->
  take_while is_space (repeat LF n ++ b) = repeat LF n /\
  drop_while is_space (repeat LF n ++ b) = b.
Proof.
  intros Hb. induction n as [|n [IH1 IH2]].
  - destruct b as [|c b]; [split; reflexivity|].
    cbn [repeat app take_while drop_while]. now rewrite Hb.
  - cbn [repeat app take_while drop_while]. change (is_space LF) with true.
    cbv iota. now rewrite IH1, IH2.
Qed.

Lemma count_LF_repeat (n : nat) : count_LF (repeat LF n) = n.
Proof.
  unfold count_LF. induction n as [|n IH]; [reflexivity|].
  cbn [repeat filter]. change (char_eqb LF LF) with true.
  cbn [length]. now rewrite IH.
Qed.

(** What the first step of [cleanWhitespace] does to [n] line breaks in
    a row between two pieces of text without line breaks, that is to
    [n - 1] blank lines: when [n] is above [maxLines] they become
    [maxLines] line breaks, that is [maxLines - 1] blank lines. *)
Lemma blank_run_collapse (maxLines n : nat) (a b : jsstring) :
  forallb (fun c => negb (char_eqb LF c)) a = true ->
  forallb (fun c => negb (char_eqb LF c)) b = true ->
  match b with c :: _ => is_space c = false | [] => True end ->
  maxLines + 1 <= n ->
  replace_all (blank_lines_re maxLines) (repeat_LF maxLines) 0
              (a ++ repeat LF n ++ b) =
  a ++ repeat LF maxLines ++ b.
Proof.
  intros Ha Hb Hhead Hn. rewrite replace_all_copy by exact Ha. f_equal.
  destruct n as [|n]; [lia|].
  destruct (take_while_line_breaks (S n) b Hhead) as [Ht Hd].
  change (repeat LF (S n) ++ b) with (LF :: (repeat LF n ++ b)) in *.
  cbn [replace_all]. rewrite blank_lines_re_match, Ht, Hd.
  change (LF :: repeat LF n) with (repeat LF (S n)).
  rewrite count_LF_repeat. cbn [starts_with_LF].
  change (char_eqb LF LF) with true. cbn [andb].
  replace (maxLines + 1 <=? S n) with true
    by (symmetry; apply Nat.leb_le; lia).
  unfold repeat_LF. f_equal.
  replace (length (LF :: repeat LF n ++ b) - length b) with (S n)
    by (cbn [length]; rewrite length_app, repeat_length; lia).
  rewrite <- (repeat_length LF n) at 1. rewrite replace_all_skip.
  rewrite <- (app_nil_r b) at 1. rewrite replace_all_copy by exact Hb.
  cbn [replace_all]. rewrite blank_lines_re_match. cbn.
  now rewrite app_nil_r.
Qed.

(** ** The removal of a statement in the middle of a line *)

Lemma star_chr_eos (s : jsstring) :
  star_chr is_space (fun t => rmatch Eos t Some) s =
  if forallb is_space s then Some [] else None.
Proof.
  induction s as [|c s IH]; [reflexivity|].
  cbn [star_chr forallb]. destruct (is_space c); [|reflexivity].
  rewrite IH. cbn [andb]. destruct (forallb is_space s); reflexivity.
Qed.

Lemma leading_re_match (s : jsstring) :
  match_here leading_re s =
  match s with
  | c :: w =>
      if existsb (char_eqb c) (js ",;") && forallb is_space w
      then Some [] else None
  | [] => None
  end.
Proof.
  unfold match_here, leading_re, OneOf. rewrite rmatch_Seq, rmatch_Chr.
  destruct s as [|c w]; [reflexivity|].
  destruct (existsb (char_eqb c) (js ",;")); [|reflexivity].
  rewrite rmatch_Seq, rmatch_star_Space, star_chr_eos. reflexivity.
Qed.

(** [cleanLeadingCommaOrSemicolon] removes a comma or a semicolon that
    ends the text before the statement, white space apart, whatever
    comes before it: also the semicolon that ends the statement
    before. *)
Lemma cleanLeadingCommaOrSemicolon_strips (pre w : jsstring) (c : char) :
  existsb (char_eqb c) (js ",;") = true ->
  forallb is_space w = true ->
  cleanLeadingCommaOrSemicolon (pre ++ c :: w) = pre.
Proof.
  intros Hc Hw. unfold cleanLeadingCommaOrSemicolon.
  assert (Hns : is_space c = false).
  { change (js ",;") with [44%N; 59%N] in Hc. cbn [existsb] in Hc.
    apply orb_prop in Hc. destruct Hc as [Hc|Hc].
    - apply char_eqb_eq in Hc. now subst c.
    - apply orb_prop in Hc. destruct Hc as [Hc|Hc]; [|discriminate].
      apply char_eqb_eq in Hc. now subst c. }
  induction pre as [|x pre IH].
  - cbn [app]. destruct w; cbn [replace_first];
      rewrite leading_re_match, Hc; cbn [forallb andb] in *;
      try rewrite Hw; reflexivity.
  - cbn [app replace_first]. rewrite leading_re_match.
    rewrite forallb_app. cbn [forallb]. rewrite Hns.
    rewrite andb_false_r, andb_false_r. cbn [andb]. now rewrite IH.
Qed.

Lemma split_lines_one_line (s : jsstring) :
  forallb (fun c => negb (char_eqb c LF)) s = true -> split_lines s = [s].
Proof.
  induction s as [|c s IH]; intros H; [reflexivity|].
  cbn [forallb] in H. apply andb_prop in H. destruct H as [Hc Hs].
  apply negb_true_iff in Hc. cbn [split_lines]. rewrite Hc, (IH Hs).
  reflexivity.
Qed.

(** On a text of one line, a statement with text on both sides is
    removed together with what the two cleanings take from the text
    before and after it. *)
Lemma removeStatement_mid_line (pre body post : jsstring) (st : statement) :
  forallb (fun c => negb (char_eqb c LF)) (pre ++ body ++ post) = true ->
  start st = length pre -> end_ st = length pre + length body ->
  is_blank pre = false -> is_blank post = false ->
  removeStatement (pre ++ body ++ post) st =
  (cleanLeadingCommaOrSemicolon pre ++ cleanTrailingCommaOrSemicolon post,
   true).
Proof.
  intros Hline Hs He Hpre Hpost.
  assert (Hb : substring (pre ++ body ++ post) 0 (start st) = pre).
  { unfold substring. rewrite Hs, length_app.
    rewrite Nat.min_0_l, Nat.max_0_l, Nat.min_0_l, Nat.sub_0_r.
    rewrite Nat.min_l by lia. cbn [skipn].
    now rewrite firstn_app, firstn_all, Nat.sub_diag, app_nil_r. }
  assert (Ha : substring_from (pre ++ body ++ post) (end_ st) = post).
  { unfold substring_from. rewrite He, app_assoc, skipn_app.
    rewrite length_app, Nat.sub_diag, skipn_all2 by (rewrite length_app; lia).
    reflexivity. }
  unfold removeStatement, analyzeStatementContext.
  rewrite (split_lines_one_line _ Hline). cbn [find_context_line].
  replace ((0 <=? start st) &&
           (start st <? 0 + length (pre ++ body ++ post) + 1)) with true
    by (symmetry; apply andb_true_iff; split;
        [apply Nat.leb_le; lia
        |apply Nat.ltb_lt; rewrite Hs, length_app; lia]).
  cbn [nth]. rewrite !Nat.sub_0_r, Hb, Ha, Hpre, Hpost.
  cbn [isOnOwnLine isAtLineStart isAtLineEnd andb]. reflexivity.
Qed.

Lemma drop_spaces_In (c : char) (s : jsstring) :
  In c s -> is_space c = false -> In c (drop_spaces s).
Proof.
  intros Hin Hc. induction s as [|x s IH]; [contradiction|].
  cbn [drop_spaces]. destruct (is_space x) eqn:Ex; [|exact Hin].
  destruct Hin as [->|Hin]; [congruence|auto].
Qed.

Lemma is_blank_false (c : char) (s : jsstring) :
  In c s -> is_space c = false -> is_blank s = false.
Proof.
  intros Hin Hc. unfold is_blank, trim.
  assert (H : In c (rev (drop_spaces (rev (drop_spaces s))))).
  { apply in_rev. rewrite rev_involutive.
    apply drop_spaces_In; [|exact Hc].
    apply in_rev. rewrite rev_involutive.
    apply drop_spaces_In; assumption. }
  destruct (rev (drop_spaces (rev (drop_spaces s)))); [contradiction|].
  reflexivity.
Qed.

(** So, on a text of one line, removing a statement that has text after
    it and a semicolon before it (the end of the statement before)
    removes that semicolon too. *)
Lemma removeStatement_takes_semicolon
    (pre w body post : jsstring) (st : statement) :
  forallb (fun c => negb (char_eqb c LF))
          ((pre ++ 59%N :: w) ++ body ++ post) = true ->
  forallb is_space w = true ->
  start st = length (pre ++ 59%N :: w) ->
  end_ st = length (pre ++ 59%N :: w) + length body ->
  is_blank post = false ->
  removeStatement ((pre ++ 59%N :: w) ++ body ++ post) st =
  (pre ++ cleanTrailingCommaOrSemicolon post, true).
Proof.
  intros Hline Hw Hs He Hpost.
  rewrite (removeStatement_mid_line _ _ _ st Hline Hs He); [|
    apply (is_blank_false 59%N);
      [apply in_or_app; right; left; reflexivity|reflexivity]
  |exact Hpost].
  rewrite cleanLeadingCommaOrSemicolon_strips; [reflexivity|reflexivity|].
  exact Hw.
Qed.
(** * The claims of the specification *)

(** C4. When no statement is left to remove, because the list is empty
    or because the configuration rejects every statement of it,
    [removeDebugStatements] returns the text it was given, unchanged and
    without any whitespace cleaning, with [removedCount = 0] and an
    empty [removedStatements]: a result, not an error. *)
Theorem removeDebugStatements_nothing_to_remove
    (this : cleaner) (code : jsstring) (statements : list statement) :
  filterStatementsByConfig (config this) statements = [] ->
  fst (removeDebugStatements this code statements) = mkResult code 0 [] /\
  fst (removeDebugStatements this code []) = mkResult code 0 [].
Proof.
  intros Hf. split; [|reflexivity].
  unfold removeDebugStatements.
  destruct (length statements =? 0); [reflexivity|].
  cbn [config]. rewrite Hf. reflexivity.
Qed.

Lemma removeDebugStatements_nothing_to_remove_witness :
  let code := js "  console.error('x');  " in
  let this := mkCleaner default_configuration [] in
  filterStatementsByConfig (config this) (fallbackRegexParse code) = [] /\
  fst (removeDebugStatements this code (fallbackRegexParse code))
    = mkResult code 0 [] /\
  fst (removeDebugStatements this code []) = mkResult code 0 [].
Proof.
  split; [vm_compute; reflexivity|].
  apply (removeDebugStatements_nothing_to_remove
           (mkCleaner default_configuration [])
           (js "  console.error('x');  ")
           (fallbackRegexParse (js "  console.error('x');  "))).
  vm_compute. reflexivity.
Defined.

(** C7. In every result of [removeDebugStatements], whatever the
    cleaner held before the call, [removedStatements] is in ascending
    order of [start]; its entries are statements of the list given to
    the call, exactly those the filter let through, each with the
    offsets it came with (those of the scan of the original text) and
    with [originalPosition] equal to its [start]; [removedCount] is
    their number. *)
Theorem removedStatements_ascending
    (this : cleaner) (code : jsstring) (statements : list statement) :
  let result := fst (removeDebugStatements this code statements) in
  StronglySorted (fun a b => start (removed a) <= start (removed b))
                 (removedStatements result) /\
  Forall (fun e => In (removed e) statements /\
                   originalPosition e = start (removed e))
         (removedStatements result) /\
  Permutation (List.map removed (removedStatements result))
              (filterStatementsByConfig (config this) statements) /\
  removedCount result = length (removedStatements result).
Proof.
  unfold removeDebugStatements.
  destruct (length statements =? 0) eqn:E0.
  - apply Nat.eqb_eq in E0. destruct statements; [|discriminate].
    cbn. repeat split; constructor.
  - cbn [config].
    set (filtered := filterStatementsByConfig (config this) statements).
    destruct (length filtered =? 0) eqn:E1.
    + apply Nat.eqb_eq in E1. destruct filtered; [|discriminate].
      cbn. repeat split; constructor.
    + cbn [this_removedStatements].
      destruct (remove_loop (js_sort by_start_descending filtered) code 0 [])
        as (code' & E).
      rewrite E. cbn [fst removedStatements removedCount app].
      set (sorted := js_sort by_start_descending filtered).
      set (mk := fun st => mkRemoved st (start st)).
      repeat split.
      * apply (StronglySorted_rev _ (fun a b =>
                 start (removed b) <= start (removed a))).
        apply StronglySorted_map. apply sorted_descending.
      * apply Forall_rev, Forall_map, Forall_forall. intros st Hin.
        split; [|reflexivity]. cbn [removed].
        apply (Permutation_in _ (js_sort_perm _ by_start_descending filtered))
          in Hin.
        apply filter_In in Hin. tauto.
      * rewrite <- Permutation_rev, map_map. cbn [mk removed].
        rewrite map_id. apply js_sort_perm.
      * now rewrite length_rev, length_map.
Qed.

(** C8. Every statement a scan returns has offsets inside the text, the
    start before the end: for the structural pass when the nodes of the
    parser lie in the text (each with its start before its end), for
    the lexical fallback on every text, whether it is called by
    [parseCode] after a parse error or directly. *)
Theorem scanner_offsets_valid (babel : parse_outcome) (code : jsstring) :
  (forall visited, babel = Parsed visited ->
     Forall (fun n => node_start n < node_end n <= length code) visited) ->
  (forall log statements,
     parseCode babel code = (log, Returns statements) ->
     Forall (offsets_valid code) statements) /\
  Forall (offsets_valid code) (fallbackRegexParse code).
Proof.
  intros Hnodes. split; [|apply fallbackRegexParse_offsets].
  intros log statements H. destruct babel as [visited|message]; cbn in H.
  - inversion H; subst. specialize (Hnodes visited eq_refl).
    induction Hnodes as [|n visited Hn _ IH]; cbn [flat_map]; [constructor|].
    apply Forall_app. split; [now apply handleNode_offsets|apply IH].
    reflexivity.
  - inversion H; subst. apply fallbackRegexParse_offsets.
Qed.

Lemma scanner_offsets_valid_witness :
  (forall visited, inline_parse = Parsed visited ->
     Forall (fun n => node_start n < node_end n <= length inline_code)
            visited) /\
  (forall log statements,
     parseCode inline_parse inline_code = (log, Returns statements) ->
     Forall (offsets_valid inline_code) statements) /\
  Forall (offsets_valid inline_code) (fallbackRegexParse inline_code).
Proof.
  assert (H : forall visited, inline_parse = Parsed visited ->
            Forall (fun n => node_start n < node_end n <= length inline_code)
                   visited).
  { intros visited E. inversion E; subst.
    constructor; [cbn; lia|constructor]. }
  split; [exact H|].
  exact (scanner_offsets_valid inline_parse inline_code H).
Defined.

(** C5, as the specification states it, fails on [console.log(f(x));]:
    the pattern stops at the first closing parenthesis, the one of
    [f(x)], and leaves [);], where the parenthesis that closes the call
    (the first one unmatched at depth 0) is the second, after which only
    the terminator is left. *)
Lemma console_pattern_ignores_nesting :
  match_here console_re (js "console.log(f(x));") = Some (js ");") /\
  option_map after_terminator (after_unmatched_close 0 (js "f(x));"))
    = Some [] /\
  List.map (fun st => (start st, end_ st))
           (fallbackRegexParse (js "console.log(f(x));")) = [(0, 16)].
Proof. vm_compute. auto. Qed.

(** C5, amended.  At any place of a text the console pattern matches
    exactly [console.], one of the nine methods, optional white space,
    an opening parenthesis, every character up to the first closing
    parenthesis whatever it is (line breaks and opening parentheses
    included, so without any count of the nesting), that parenthesis,
    and then all the white space, one optional semicolon and all the
    white space that follow. *)
Theorem console_pattern_ends_at_first_closing_parenthesis
    (s rest : jsstring) :
  match_here console_re s = Some rest <->
  exists m w args tail,
    In m console_methods /\ forallb is_space w = true /\
    includes args (js ")") = false /\
    s = js "console." ++ js m ++ w ++ js "(" ++ args ++ js ")" ++ tail /\
    rest = after_terminator tail.
Proof.
  unfold match_here, console_re. split.
  - intros H. rewrite rmatch_Seq in H. apply rmatch_Lit_inv in H.
    destruct H as (s1 & -> & H). rewrite rmatch_Seq in H.
    apply console_method_inv in H. destruct H as (m & s2 & Hm & -> & H).
    apply call_tail_inv in H.
    destruct H as (w & args & tail & Hw & Ha & -> & ->).
    exists m, w, args, tail. auto.
  - intros (m & w & args & tail & Hm & Hw & Ha & -> & ->).
    rewrite rmatch_Seq, rmatch_Lit_app, rmatch_Seq.
    now apply console_method_match.
Qed.

(** C6, as the specification states it, fails: on a text the parser
    rejects, here one with an unbalanced brace, [parseCode] does not end
    with the error; it returns the statement of the lexical scan. *)
Lemma parseCode_catches_parse_error :
  let code := js "function f() { console.log(1);" in
  let message := js "Unexpected token (1:30)" in
  snd (parseCode (ParseError message) code) <> Throws message /\
  exists st, snd (parseCode (ParseError message) code) = Returns [st] /\
             (type st, start st, end_ st) = (console, 15, 30).
Proof.
  split; [discriminate|]. eexists. split; vm_compute; reflexivity.
Qed.

(** C6, amended.  When the parser throws, [parseCode] catches the
    error, writes its message as a warning and returns the result of
    the lexical scan of the same text, which always returns; and the
    lexical scan misses no occurrence: a place where one of its four
    patterns matches is inside a statement of that type it returns,
    which is itself a match of the pattern. *)
Theorem parseCode_falls_back_to_lexical_scan
    (message code : jsstring) (r : regex) (ty : statement_type) (p : nat) :
  In (r, ty) patterns -> p <= length code ->
  match_here r (skipn p code) <> None ->
  parseCode (ParseError message) code =
    ([message], Returns (fallbackRegexParse code)) /\
  exists st, In st (fallbackRegexParse code) /\ type st = ty /\
             start st <= p < end_ st /\
             match_here r (skipn (start st) code)
               = Some (skipn (end_ st) code).
Proof.
  intros Hp Hlen Hm. split; [reflexivity|].
  assert (Hne : forall s rest, match_here r s = Some rest ->
                               length rest < length s).
  { intros s rest. apply (scanner_match_nonempty r ty), Hp. }
  destruct (exec_all_complete r Hne code 0 0 p) as (idx & n & Hin & Hr);
    [lia|lia|now rewrite Nat.sub_0_r|].
  exists (statement_of_match code (split_lines code) ty (idx, n)).
  destruct (statement_of_match_fields code (split_lines code) ty (idx, n))
    as (Ht & Hs & He & _).
  rewrite Ht, Hs, He. cbn [fst snd].
  split; [|split; [reflexivity|split; [exact Hr|]]].
  - apply fallbackRegexParse_in, fallback_matches_in.
    exists r, ty, (idx, n). auto.
  - pose proof (exec_all_bounds r Hne code 0 0 idx n Hin) as Hb.
    apply (exec_all_sound r Hne) in Hin. destruct Hin as (rest & E & Hn).
    rewrite Nat.sub_0_r in E, Hn. rewrite E. f_equal.
    pose proof (match_here_suffix _ _ _ E) as Hsuf.
    pose proof (is_suffix_length _ _ Hsuf) as Hle.
    pose proof (is_suffix_skipn _ _ Hsuf) as Hrest.
    rewrite length_skipn in Hle, Hrest. rewrite skipn_skipn in Hrest.
    transitivity (skipn (length code - idx - length rest + idx) code);
      [exact Hrest|]. f_equal. lia.
Qed.

Lemma parseCode_falls_back_to_lexical_scan_witness :
  In (console_re, console) patterns /\
  15 <= length (js "function f() { console.log(1);") /\
  match_here console_re (skipn 15 (js "function f() { console.log(1);"))
    <> None /\
  parseCode (ParseError (js "Unexpected token"))
            (js "function f() { console.log(1);") =
    ([js "Unexpected token"],
     Returns (fallbackRegexParse (js "function f() { console.log(1);"))) /\
  exists st,
    In st (fallbackRegexParse (js "function f() { console.log(1);")) /\
    type st = console /\ start st <= 15 < end_ st /\
    match_here console_re
      (skipn (start st) (js "function f() { console.log(1);"))
      = Some (skipn (end_ st) (js "function f() { console.log(1);")).
Proof.
  assert (H1 : In (console_re, console) patterns) by (left; reflexivity).
  assert (H2 : 15 <= length (js "function f() { console.log(1);"))
    by (vm_compute; lia).
  assert (H3 : match_here console_re
                 (skipn 15 (js "function f() { console.log(1);")) <> None)
    by (vm_compute; discriminate).
  split; [exact H1|]. split; [exact H2|]. split; [exact H3|].
  exact (parseCode_falls_back_to_lexical_scan
           (js "Unexpected token") (js "function f() { console.log(1);")
           console_re console 15 H1 H2 H3).
Defined.

(** C1.  The filter does not decide on the method of the statement but
    on whether its text contains [console.] followed by a method name.
    With the default settings ([removeConsoleLog] on,
    [removeConsoleError] off) the call [console.log('console.error');],
    found by either scan, is a console statement of method [log] and is
    filtered out of the removal; in a file with this call and a call of
    [console.error] nothing is removed. *)
Theorem filter_keeps_log_call_naming_error :
  Config.removeConsoleLog default_configuration = true /\
  Config.removeConsoleError default_configuration = false /\
  (exists st, fallbackRegexParse log_about_error = [st] /\
              type st = console /\ text st = log_about_error) /\
  parseCode (Parsed [mkNode (CallExpression console_log_callee) 0 28])
            log_about_error
    = ([], Returns (fallbackRegexParse log_about_error)) /\
  filterStatementsByConfig default_configuration
    (fallbackRegexParse log_about_error) = [] /\
  (let file := log_about_error ++ [LF] ++ js "console.error('x');" in
   fst (removeDebugStatements (mkCleaner default_configuration []) file
          (fallbackRegexParse file)) = mkResult file 0 []).
Proof.
  split; [reflexivity|]. split; [reflexivity|].
  split; [eexists; split; [vm_compute; reflexivity|split; reflexivity]|].
  split; [vm_compute; reflexivity|].
  split; vm_compute; reflexivity.
Qed.

(** C10.  A call of [console.time] (no setting names this method) whose
    text contains [console.error] is filtered out of the removal by the
    default settings: the same test on the text as in C1. *)
Theorem filter_keeps_time_call_naming_error :
  (exists st, fallbackRegexParse time_about_error = [st] /\
              type st = console /\ text st = time_about_error) /\
  filterStatementsByConfig default_configuration
    (fallbackRegexParse time_about_error) = [] /\
  fst (removeDebugStatements (mkCleaner default_configuration [])
         time_about_error (fallbackRegexParse time_about_error))
    = mkResult time_about_error 0 [].
Proof.
  split; [eexists; split; [vm_compute; reflexivity|split; reflexivity]|].
  split; vm_compute; reflexivity.
Qed.

(** C2.  On [const r = f(); console.log(r); return r;] the call is in
    the middle of its line, and [cleanLeadingCommaOrSemicolon] takes
    the semicolon and the space that end [const r = f();] away with it:
    the text becomes [const r = f() return r;] for the statement of the
    structural scan (offsets 15 to 30) and [const r = f()return r;] for
    the one of the lexical scan (offsets 15 to 31); [const r = f();] is
    no longer in it. *)
Theorem inline_removal_takes_previous_semicolon :
  let this := mkCleaner default_configuration [] in
  (exists st,
     parseCode inline_parse inline_code = ([], Returns [st]) /\
     (start st, end_ st, text st) = (15, 30, js "console.log(r);") /\
     let result := fst (removeDebugStatements this inline_code [st]) in
     cleanCode result = js "const r = f() return r;" ++ [LF] /\
     includes (cleanCode result) (js "const r = f();") = false /\
     includes (cleanCode result) (js "return r;") = true) /\
  (exists st,
     fallbackRegexParse inline_code = [st] /\
     (start st, end_ st, text st) = (15, 31, js "console.log(r); ") /\
     let result := fst (removeDebugStatements this inline_code [st]) in
     cleanCode result = js "const r = f()return r;" ++ [LF] /\
     includes (cleanCode result) (js "const r = f();") = false).
Proof.
  split; eexists; (split; [vm_compute; reflexivity|]);
    (split; [reflexivity|]); vm_compute; auto.
Qed.

(** C3.  With [maxEmptyLines = 2] a run of three blank lines between two
    lines becomes one blank line, not two: the pattern counts the line
    breaks of the run, four here, and puts two line breaks in their
    place.  A run of two blank lines, within the limit, is cut to one as
    well, and the white space that starts the next line goes with the
    run. *)
Theorem blank_lines_collapse_below_the_limit :
  Config.maxEmptyLines default_configuration = 2 /\
  split_lines (js "a" ++ [LF; LF; LF; LF] ++ js "b")
    = [js "a"; []; []; []; js "b"] /\
  cleanWhitespace default_configuration (js "a" ++ [LF; LF; LF; LF] ++ js "b")
    = js "a" ++ [LF; LF] ++ js "b" ++ [LF] /\
  split_lines (cleanWhitespace default_configuration
                 (js "a" ++ [LF; LF; LF; LF] ++ js "b"))
    = [js "a"; []; js "b"; []] /\
  cleanWhitespace default_configuration (js "a" ++ [LF; LF; LF] ++ js "b")
    = js "a" ++ [LF; LF] ++ js "b" ++ [LF] /\
  cleanWhitespace default_configuration
    (js "a" ++ [LF; LF; LF; LF] ++ js "    b")
    = js "a" ++ [LF; LF] ++ js "b" ++ [LF].
Proof. vm_compute. repeat split; reflexivity. Qed.



(** * Further properties of the code *)

(** ** Lines *)

Lemma take_drop_while (p : char -> bool) (s : jsstring) :
  take_while p s ++ drop_while p s = s.
Proof.
  induction s as [|c s IH]; [reflexivity|].
  cbn [take_while drop_while]. destruct (p c); [|reflexivity].
  cbn [app]. now rewrite IH.
Qed.

Lemma take_while_forallb (p : char -> bool) (s : jsstring) :
  forallb p (take_while p s) = true.
Proof.
  induction s as [|c s IH]; [reflexivity|].
  cbn [take_while]. destruct (p c) eqn:E; [|reflexivity].
  cbn [forallb]. now rewrite E, IH.
Qed.

Lemma take_while_all (p : char -> bool) (l s : jsstring) :
  forallb p l = true ->
  match s with c :: _ => p c = false | [] => True end ->
  take_while p (l ++ s) = l.
Proof.
  induction l as [|c l IH]; intros Hl Hs.
  - destruct s as [|c s]; [reflexivity|].
    cbn [app take_while]. now rewrite Hs.
  - cbn [forallb] in Hl. apply andb_prop in Hl. destruct Hl as [Hc Hl].
    cbn [app take_while]. rewrite Hc. now rewrite IH.
Qed.

Lemma forallb_firstn_skipn (p : char -> bool) (n : nat) (l : jsstring) :
  forallb p l = true ->
  forallb p (firstn n l) = true /\ forallb p (skipn n l) = true.
Proof.
  intros H. rewrite <- (firstn_skipn n l), forallb_app in H.
  now apply andb_prop in H.
Qed.

Lemma split_lines_nonempty (s : jsstring) : split_lines s <> [].
Proof.
  destruct s as [|c s]; [discriminate|]. cbn [split_lines].
  destruct (char_eqb c LF); [discriminate|].
  destruct (split_lines s); discriminate.
Qed.

Lemma split_lines_line (l : jsstring) :
  forallb not_LF l = true -> split_lines l = [l].
Proof. apply split_lines_one_line. Qed.

Lemma split_lines_app_LF (l s : jsstring) :
  forallb not_LF l = true ->
  split_lines (l ++ LF :: s) = l :: split_lines s.
Proof.
  induction l as [|c l IH]; intros Hl; [reflexivity|].
  cbn [forallb] in Hl. apply andb_prop in Hl. destruct Hl as [Hc Hl].
  unfold not_LF in Hc. apply negb_true_iff in Hc.
  cbn [app split_lines]. rewrite Hc, (IH Hl). reflexivity.
Qed.

Lemma count_LF_app (a b : jsstring) :
  count_LF (a ++ b) = count_LF a + count_LF b.
Proof. unfold count_LF. now rewrite filter_app, length_app. Qed.

Lemma count_LF_line (l : jsstring) :
  forallb not_LF l = true -> count_LF l = 0.
Proof.
  unfold count_LF. induction l as [|c l IH]; intros Hl; [reflexivity|].
  cbn [forallb] in Hl. apply andb_prop in Hl. destruct Hl as [Hc Hl].
  unfold not_LF in Hc. apply negb_true_iff in Hc.
  cbn [filter]. unfold char_eqb in *. rewrite N.eqb_sym, Hc. auto.
Qed.

Lemma length_split_lines (s : jsstring) :
  length (split_lines s) = S (count_LF s).
Proof.
  unfold count_LF. induction s as [|c s IH]; [reflexivity|].
  cbn [split_lines filter]. unfold char_eqb in *.
  rewrite (N.eqb_sym LF c). destruct (c =? LF)%N.
  - cbn [length]. now rewrite IH.
  - destruct (split_lines s); cbn [length] in *; [discriminate|exact IH].
Qed.

Lemma line_before_line (l : jsstring) :
  forallb not_LF l = true -> line_before l = l.
Proof. intros Hl. unfold line_before. now rewrite split_lines_line. Qed.

Lemma line_before_app_LF (l s : jsstring) :
  forallb not_LF l = true -> line_before (l ++ LF :: s) = line_before s.
Proof.
  intros Hl. unfold line_before. rewrite split_lines_app_LF by exact Hl.
  pose proof (split_lines_nonempty s) as Hne.
  destruct (split_lines s); [contradiction|reflexivity].
Qed.

Lemma drop_while_not_LF (s : jsstring) :
  drop_while not_LF s = [] \/ exists s', drop_while not_LF s = LF :: s'.
Proof.
  pose proof (drop_while_head not_LF s) as H.
  destruct (drop_while not_LF s) as [|c s']; [now left|right].
  unfold not_LF in H. apply negb_false_iff, char_eqb_eq in H. subst c.
  now exists s'.
Qed.

(** The loop of [analyzeStatementContext], for an offset inside the text
    ([off] is the offset, counted from the place [pos] where the lines
    start): the index of the line is the number of line breaks before
    the offset, the line starts after the last of them, and the line is
    made of the text around the offset up to the line breaks. *)
Lemma find_context_line_spec :
  forall n code, length code <= n ->
  forall off pos i, off <= length code ->
  find_context_line (split_lines code) (pos + off) pos i =
    (i + count_LF (firstn off code),
     pos + off - length (line_before (firstn off code))) /\
  nth (count_LF (firstn off code)) (split_lines code) [] =
    line_before (firstn off code) ++ line_after (skipn off code).
Proof.
  induction n as [|n IH]; intros code Hn off pos i Hoff.
  - destruct code; [|cbn in Hn; lia]. destruct off; [|cbn in Hoff; lia].
    change (firstn 0 (@nil char)) with (@nil char).
    change (count_LF []) with 0. change (line_before []) with (@nil char).
    cbn [split_lines find_context_line length nth].
    replace ((pos <=? pos + 0) && (pos + 0 <? pos + 0 + 1)) with true
      by (symmetry; apply andb_true_iff; split;
          [apply Nat.leb_le|apply Nat.ltb_lt]; lia).
    split; [f_equal; lia|reflexivity].
  - pose proof (take_drop_while not_LF code) as Hcode.
    pose proof (take_while_forallb not_LF code) as Hl.
    set (l := take_while not_LF code) in *.
    destruct (Nat.le_gt_cases off (length l)) as [Hin|Hout].
    + assert (Hf : firstn off code = firstn off l).
      { rewrite <- Hcode, firstn_app.
        replace (off - length l) with 0 by lia. cbn [firstn].
        now rewrite app_nil_r. }
      assert (Hfl : forallb not_LF (firstn off l) = true)
        by apply (forallb_firstn_skipn not_LF off l Hl).
      assert (Hs : split_lines code = l :: tl (split_lines code)).
      { rewrite <- Hcode.
        destruct (drop_while_not_LF code) as [E|[s' E]]; rewrite E.
        - now rewrite app_nil_r, split_lines_line.
        - now rewrite split_lines_app_LF. }
      rewrite Hf, count_LF_line, line_before_line by exact Hfl.
      rewrite Hs. cbn [find_context_line nth].
      replace ((pos <=? pos + off) && (pos + off <? pos + length l + 1))
        with true
        by (symmetry; apply andb_true_iff; split;
            [apply Nat.leb_le|apply Nat.ltb_lt]; lia).
      rewrite length_firstn, Nat.min_l by lia.
      split; [f_equal; lia|].
      unfold line_after. rewrite <- Hcode at 1.
      rewrite skipn_app. replace (off - length l) with 0 by lia.
      cbn [skipn]. rewrite take_while_all.
      * now rewrite firstn_skipn.
      * apply (forallb_firstn_skipn not_LF off l Hl).
      * apply drop_while_head.
    + destruct (drop_while_not_LF code) as [E|[code' E]].
      { exfalso. rewrite E, app_nil_r in Hcode.
        rewrite <- Hcode in Hoff. lia. }
      rewrite E in Hcode.
      assert (Hlen : length code = length l + S (length code')).
      { rewrite <- Hcode, length_app. reflexivity. }
      set (off' := off - length l - 1).
      assert (Hf : firstn off code = l ++ LF :: firstn off' code').
      { rewrite <- Hcode, firstn_app, firstn_all2 by lia.
        replace (off - length l) with (S off') by (unfold off'; lia).
        reflexivity. }
      assert (Hk : skipn off code = skipn off' code').
      { rewrite <- Hcode, skipn_app, skipn_all2 by lia.
        replace (off - length l) with (S off') by (unfold off'; lia).
        reflexivity. }
      destruct (IH code' ltac:(lia) off' (pos + length l + 1) (i + 1)
                  ltac:(unfold off'; lia)) as [IH1 IH2].
      rewrite Hf, Hk, count_LF_app, count_LF_line by exact Hl.
      rewrite line_before_app_LF by exact Hl.
      rewrite <- Hcode, split_lines_app_LF by exact Hl.
      cbn [find_context_line].
      replace ((pos <=? pos + off) && (pos + off <? pos + length l + 1))
        with false
        by (symmetry; apply andb_false_iff; right; apply Nat.ltb_ge; lia).
      replace (pos + off) with (pos + length l + 1 + off')
        by (unfold off'; lia).
      rewrite IH1.
      change (count_LF (LF :: firstn off' code'))
        with (S (count_LF (firstn off' code'))).
      cbn [Nat.add nth].
      split; [f_equal; lia|exact IH2].
Qed.

Lemma line_before_length (s : jsstring) :
  length (line_before s) <= length s.
Proof.
  unfold line_before. induction s as [|c s IH]; [cbn; lia|].
  cbn [split_lines]. destruct (char_eqb c LF).
  - pose proof (split_lines_nonempty s) as Hne.
    destruct (split_lines s) as [|l ls]; [contradiction|].
    cbn [last length] in *. lia.
  - destruct (split_lines s) as [|l ls]; [cbn; lia|].
    destruct ls as [|x ls]; cbn [last length] in *; lia.
Qed.

(** The loop of the two scans is the loop of the cleaner with the line
    numbers counted from 1, as long as the line is found. *)
Lemma find_line_context (lines : list jsstring) :
  forall start pos i,
  fst (find_context_line lines start pos (S i)) <> 0 ->
  find_line lines start pos i = find_context_line lines start pos (S i).
Proof.
  induction lines as [|l ls IH]; intros start pos i Hfound.
  - cbn in Hfound. contradiction.
  - cbn [find_line find_context_line] in *.
    replace (start <=? pos + length l) with (start <? pos + length l + 1)
      by (destruct (Nat.ltb_spec start (pos + length l + 1));
          destruct (Nat.leb_spec start (pos + length l)); auto; lia).
    destruct ((pos <=? start) && (start <? pos + length l + 1)).
    + f_equal. lia.
    + replace (i + 1) with (S i) by lia.
      replace (S i + 1) with (S (S i)) in * by lia. now apply IH.
Qed.

Lemma find_line_spec (code : jsstring) (off : nat) :
  off <= length code ->
  find_line (split_lines code) off 0 0 =
  (S (count_LF (firstn off code)),
   off - length (line_before (firstn off code))).
Proof.
  intros Hoff.
  destruct (find_context_line_spec (length code) code (Nat.le_refl _)
              off 0 1 Hoff) as [H _].
  cbn [Nat.add] in H. rewrite find_line_context; rewrite H; [reflexivity|].
  cbn [fst]. discriminate.
Qed.

Lemma substring_0 (s : jsstring) (n : nat) : substring s 0 n = firstn n s.
Proof.
  unfold substring. rewrite Nat.min_0_l, Nat.max_0_l, Nat.min_0_l, Nat.sub_0_r.
  cbn [skipn]. destruct (Nat.le_gt_cases n (length s)).
  - now rewrite Nat.min_l.
  - rewrite Nat.min_r by lia. now rewrite !firstn_all2 by lia.
Qed.

Lemma substring_ordered (s : jsstring) (a b : nat) :
  a <= b -> b <= length s -> substring s a b = firstn (b - a) (skipn a s).
Proof.
  intros Hab Hb. unfold substring.
  now rewrite (Nat.min_l a), (Nat.min_l b), Nat.max_r, Nat.min_l by lia.
Qed.

Lemma placed_at_intro (code : jsstring) (off : nat) (st : statement)
    (ln ls : nat) :
  off <= length code ->
  find_line (split_lines code) off 0 0 = (ln, ls) ->
  line st = ln -> column st = off - ls ->
  lineContent st = trim (nth (ln - 1) (split_lines code) []) ->
  placed_at code off st.
Proof.
  intros Hoff Hfind Hl Hc Ht. rewrite find_line_spec in Hfind by exact Hoff.
  injection Hfind as E1 E2. rewrite <- E1 in Hl, Ht. rewrite <- E2 in Hc.
  destruct (find_context_line_spec (length code) code (Nat.le_refl _)
              off 0 0 Hoff) as [_ Hnth].
  pose proof (line_before_length (firstn off code)) as Hlb.
  rewrite length_firstn in Hlb.
  unfold placed_at. rewrite Hl, Hc, Ht. cbn [Nat.sub].
  rewrite Nat.sub_0_r, Hnth. repeat split. lia.
Qed.

(** ** The records of the scans *)

Lemma statement_of_match_placed (code : jsstring) (ty : statement_type)
    (idx n : nat) :
  idx <= length code ->
  placed_at code idx (statement_of_match code (split_lines code) ty (idx, n)).
Proof.
  intros Hidx. unfold statement_of_match. cbn [fst snd].
  destruct (find_line (split_lines code) idx 0 0) as [ln ls] eqn:E.
  eapply placed_at_intro; [exact Hidx|exact E|reflexivity..].
Qed.

Lemma addDebugStatement_placed (n : node) (code : jsstring)
    (ty : statement_type) :
  node_start n <= length code ->
  placed_at code (node_start n) (addDebugStatement n code ty).
Proof.
  intros Hn. unfold addDebugStatement.
  destruct (find_line (split_lines code) (node_start n) 0 0) as [ln ls] eqn:E.
  eapply placed_at_intro; [exact Hn|exact E|reflexivity..].
Qed.

Lemma handleNode_in (n : node) (code : jsstring) (st : statement) :
  In st (handleNode n code) ->
  exists ty, st = addDebugStatement n code ty.
Proof.
  unfold handleNode. destruct (kind n) as [callee|].
  - destruct (isConsoleCall callee);
      [|destruct (isPrintCall callee);
        [|destruct (isSystemOutCall callee)]];
      cbn [In]; intros Hin; try contradiction;
      destruct Hin as [<-|[]]; eauto.
  - cbn [In]. intros [<-|[]]. eauto.
Qed.

Lemma parseCode_statements_placed
    (babel : parse_outcome) (code : jsstring)
    (log : list jsstring) (statements : list statement) :
  (forall visited, babel = Parsed visited ->
     Forall (fun n => node_start n <= length code) visited) ->
  parseCode babel code = (log, Returns statements) ->
  Forall (fun st => start st <= length code /\ placed_at code (start st) st)
         statements.
Proof.
  intros Hnodes H. apply Forall_forall. intros st Hin.
  destruct babel as [visited|message]; cbn in H; inversion H; subst; clear H.
  - apply in_flat_map in Hin. destruct Hin as (n & Hn & Hin).
    apply handleNode_in in Hin. destruct Hin as (ty & ->).
    pose proof (proj1 (Forall_forall _ _) (Hnodes visited eq_refl) n Hn) as Hs.
    destruct (addDebugStatement_fields n code ty) as (_ & -> & _).
    split; [exact Hs|]. now apply addDebugStatement_placed.
  - pose proof (proj1 (Forall_forall _ _) (fallbackRegexParse_offsets code)
                  st Hin) as (_ & Hlt & Hle).
    apply fallbackRegexParse_in, fallback_matches_in in Hin.
    destruct Hin as (r & ty & [idx n] & _ & _ & ->).
    destruct (statement_of_match_fields code (split_lines code) ty (idx, n))
      as (_ & Hs & He & _).
    cbn [fst snd] in *. rewrite Hs in *.
    split; [lia|]. apply statement_of_match_placed. lia.
Qed.

(** X1.  The line, the column and the line content a scan records for a
    statement are those of its start offset: the line is one more than
    the number of line breaks before the offset, the column the number
    of characters between the last of them and the offset, the content
    the whole line, trimmed.  This holds for the lexical scan on every
    text and for the structural one when the nodes start inside the
    text. *)
Theorem scanned_statements_placed
    (babel : parse_outcome) (code : jsstring)
    (log : list jsstring) (statements : list statement) :
  (forall visited, babel = Parsed visited ->
     Forall (fun n => node_start n <= length code) visited) ->
  parseCode babel code = (log, Returns statements) ->
  Forall (fun st => placed_at code (start st) st) statements.
Proof.
  intros Hnodes H.
  eapply Forall_impl; [|exact (parseCode_statements_placed _ _ _ _ Hnodes H)].
  intros st [_ Hp]. exact Hp.
Qed.

Lemma scanned_statements_placed_witness :
  (forall visited, inline_parse = Parsed visited ->
     Forall (fun n => node_start n <= length inline_code) visited) /\
  parseCode inline_parse inline_code
    = ([], Returns [addDebugStatement
                      (mkNode (CallExpression console_log_callee) 15 29)
                      inline_code console]) /\
  Forall (fun st => placed_at inline_code (start st) st)
         [addDebugStatement (mkNode (CallExpression console_log_callee) 15 29)
                            inline_code console].
Proof.
  assert (H1 : forall visited, inline_parse = Parsed visited ->
            Forall (fun n => node_start n <= length inline_code) visited).
  { intros visited E. inversion E; subst.
    constructor; [cbn; lia|constructor]. }
  assert (H2 : parseCode inline_parse inline_code
               = ([], Returns [addDebugStatement
                      (mkNode (CallExpression console_log_callee) 15 29)
                      inline_code console])) by reflexivity.
  split; [exact H1|]. split; [exact H2|].
  exact (scanned_statements_placed inline_parse inline_code [] _ H1 H2).
Defined.

(** X2.  The text a scan records for a statement is the piece of the
    scanned text between its two offsets, for both scans. *)
Theorem scanned_statements_text
    (babel : parse_outcome) (code : jsstring)
    (log : list jsstring) (statements : list statement) :
  parseCode babel code = (log, Returns statements) ->
  Forall (fun st => text st = substring code (start st) (end_ st)) statements.
Proof.
  intros H. apply Forall_forall. intros st Hin.
  destruct babel as [visited|message]; cbn in H; inversion H; subst; clear H.
  - apply in_flat_map in Hin. destruct Hin as (n & Hn & Hin).
    apply handleNode_in in Hin. destruct Hin as (ty & ->).
    now destruct (addDebugStatement_fields n code ty) as (_ & _ & _ & _ & Ht).
  - pose proof (proj1 (Forall_forall _ _) (fallbackRegexParse_offsets code)
                  st Hin) as (_ & Hlt & Hle).
    apply fallbackRegexParse_in, fallback_matches_in in Hin.
    destruct Hin as (r & ty & [idx n] & _ & _ & ->).
    destruct (statement_of_match_fields code (split_lines code) ty (idx, n))
      as (_ & Hs & He & Ht).
    cbn [fst snd] in *. rewrite Hs, He, Ht in *.
    rewrite substring_ordered by lia. f_equal. lia.
Qed.

Lemma scanned_statements_text_witness :
  parseCode (ParseError (js "Unexpected token")) inline_code
    = ([js "Unexpected token"], Returns (fallbackRegexParse inline_code)) /\
  Forall (fun st => text st = substring inline_code (start st) (end_ st))
         (fallbackRegexParse inline_code).
Proof.
  split; [reflexivity|].
  exact (scanned_statements_text (ParseError (js "Unexpected token"))
           inline_code [js "Unexpected token"]
           (fallbackRegexParse inline_code) eq_refl).
Defined.

Lemma star_chr_exclusive (p : char -> bool) k (s : jsstring) :
  (forall c t, p c = true -> k (c :: t) = None) ->
  star_chr p k s = k (drop_while p s).
Proof.
  intros Hk. induction s as [|c s IH]; [reflexivity|].
  cbn [star_chr drop_while]. destruct (p c) eqn:E; [|reflexivity].
  rewrite IH, (Hk c s E). now destruct (k (drop_while p s)).
Qed.

Lemma space_not_literal (c d : char) :
  is_space c = true -> is_space d = false -> char_eqb d c = false.
Proof.
  intros Hc Hd. destruct (char_eqb d c) eqn:E; [|reflexivity].
  apply char_eqb_eq in E. congruence.
Qed.

Lemma semicolon_re_match (s : jsstring) :
  match_here semicolon_re s =
  match drop_while is_space s with
  | c :: t => if char_eqb 59%N c then Some t else None
  | [] => None
  end.
Proof.
  unfold match_here, semicolon_re.
  rewrite rmatch_Seq, rmatch_star_Space, star_chr_exclusive.
  - rewrite rmatch_Lit. change (js ";") with [59%N].
    destruct (drop_while is_space s) as [|c t]; [reflexivity|].
    cbn [startsWith length skipn]. now rewrite andb_true_r.
  - intros c t Hc. rewrite rmatch_Lit. change (js ";") with [59%N].
    cbn [startsWith]. now rewrite (space_not_literal c 59%N Hc).
Qed.

(** X3.  The end offset of a structural statement is the end of its
    node, moved past the white space that follows and one semicolon
    when a semicolon comes next after that white space (line breaks
    count as white space); it is the end of the node in every other
    case, so nothing but that white space and semicolon is taken. *)
Theorem addDebugStatement_end
    (n : node) (code : jsstring) (ty : statement_type) (w rest : jsstring) :
  forallb is_space w = true ->
  match rest with c :: _ => is_space c = false | [] => True end ->
  skipn (node_end n) code = w ++ rest ->
  end_ (addDebugStatement n code ty) =
  node_end n + (if startsWith rest (js ";") then length w + 1 else 0).
Proof.
  intros Hw Hrest Hafter. unfold addDebugStatement, substring_from.
  destruct (find_line (split_lines code) (node_start n) 0 0).
  cbn [end_]. rewrite semicolon_re_match, Hafter.
  rewrite drop_while_app by assumption. change (js ";") with [59%N].
  destruct rest as [|c t]; cbn [startsWith]; [lia|].
  rewrite andb_true_r. destruct (char_eqb 59%N c); [|lia].
  rewrite length_app. cbn [length]. lia.
Qed.

Lemma addDebugStatement_end_witness :
  forallb is_space (js " ") = true /\
  is_space 59%N = false /\
  skipn 36 (js "debugger; console.log('with spaces') ;") = js " " ++ js ";" /\
  end_ (addDebugStatement (mkNode (CallExpression console_log_callee) 10 36)
          (js "debugger; console.log('with spaces') ;") console) = 36 + 2.
Proof.
  split; [reflexivity|]. split; [reflexivity|]. split; [reflexivity|].
  exact (addDebugStatement_end
           (mkNode (CallExpression console_log_callee) 10 36)
           (js "debugger; console.log('with spaces') ;") console
           (js " ") (js ";") eq_refl eq_refl eq_refl).
Defined.

(** The matches of the search loop follow each other without overlap. *)
Lemma exec_all_lower (r : regex) (s : jsstring) :
  forall pos skip m, In m (exec_all r pos skip s) -> pos + skip <= fst m.
Proof.
  induction s as [|c s IH]; intros pos skip m Hin.
  - destruct skip; cbn [exec_all] in Hin; [|contradiction].
    destruct (match_here r []); [|contradiction].
    destruct Hin as [<-|[]]. cbn. lia.
  - destruct skip as [|skip]; cbn [exec_all] in Hin.
    + destruct (match_here r (c :: s)).
      * destruct Hin as [<-|Hin]; [cbn; lia|]. apply IH in Hin. lia.
      * apply IH in Hin. lia.
    + apply IH in Hin. lia.
Qed.

Lemma exec_all_disjoint (r : regex) (s : jsstring) :
  forall pos skip,
  StronglySorted (fun m1 m2 => fst m1 + snd m1 <= fst m2)
                 (exec_all r pos skip s).
Proof.
  induction s as [|c s IH]; intros pos skip.
  - destruct skip; cbn [exec_all]; [|constructor].
    destruct (match_here r []); repeat constructor.
  - destruct skip as [|skip]; cbn [exec_all]; [|apply IH].
    destruct (match_here r (c :: s)) as [rest|]; [|apply IH].
    constructor; [apply IH|]. apply Forall_forall. intros m Hin.
    apply exec_all_lower in Hin. cbn [fst snd]. lia.
Qed.

Lemma StronglySorted_In_cases (A : Type) (R : A -> A -> Prop)
    (l : list A) (x y : A) :
  StronglySorted R l -> In x l -> In y l -> x = y \/ R x y \/ R y x.
Proof.
  induction 1 as [|a l Hs IH Ha]; intros Hx Hy; [contradiction|].
  destruct Hx as [<-|Hx], Hy as [<-|Hy]; auto.
  - right; left. exact (proj1 (Forall_forall _ _) Ha _ Hy).
  - right; right. exact (proj1 (Forall_forall _ _) Ha _ Hx).
Qed.

Lemma patterns_by_type (r1 r2 : regex) (ty : statement_type) :
  In (r1, ty) patterns -> In (r2, ty) patterns -> r1 = r2.
Proof.
  cbn [patterns In]. intros H1 H2.
  destruct H1 as [E1|[E1|[E1|[E1|[]]]]]; inversion E1; subst;
    destruct H2 as [E2|[E2|[E2|[E2|[]]]]]; inversion E2; subst;
    reflexivity.
Qed.

(** X4.  The statements of the lexical scan come in ascending order of
    their start offset, and two of them of the same type never share a
    character: either they are the same statement or one ends before
    the other starts. *)
Theorem fallbackRegexParse_ordered (code : jsstring) :
  StronglySorted (fun a b => start a <= start b) (fallbackRegexParse code) /\
  forall a b,
    In a (fallbackRegexParse code) -> In b (fallbackRegexParse code) ->
    type a = type b ->
    a = b \/ end_ a <= start b \/ end_ b <= start a.
Proof.
  split; [apply sorted_ascending|].
  intros a b Ha Hb Hty.
  apply fallbackRegexParse_in, fallback_matches_in in Ha, Hb.
  destruct Ha as (r1 & ty1 & m1 & Hp1 & Hm1 & ->).
  destruct Hb as (r2 & ty2 & m2 & Hp2 & Hm2 & ->).
  destruct (statement_of_match_fields code (split_lines code) ty1 m1)
    as (Ht1 & Hs1 & He1 & _).
  destruct (statement_of_match_fields code (split_lines code) ty2 m2)
    as (Ht2 & Hs2 & He2 & _).
  rewrite Ht1, Ht2 in Hty. subst ty2.
  rewrite (patterns_by_type r2 r1 ty1 Hp2 Hp1) in Hm2.
  rewrite Hs1, Hs2, He1, He2.
  destruct (StronglySorted_In_cases _ _ _ m1 m2
              (exec_all_disjoint r1 code 0 0) Hm1 Hm2) as [->|[H|H]]; auto.
Qed.

Lemma includes_suffix (l t s : jsstring) :
  is_suffix t s -> startsWith t l = true -> includes s l = true.
Proof.
  intros [pre ->] Hl. induction pre as [|c pre IH]; cbn [app includes].
  - destruct t; cbn [includes]; now rewrite Hl.
  - rewrite IH. apply orb_true_r.
Qed.

Lemma exec_all_nil (r : regex) (s : jsstring) :
  (forall t, is_suffix t s -> match_here r t = None) ->
  forall pos skip, exec_all r pos skip s = [].
Proof.
  induction s as [|c s IH]; intros Hnone pos skip.
  - destruct skip; cbn [exec_all]; [|reflexivity].
    now rewrite (Hnone [] (is_suffix_refl [])).
  - assert (Hs : forall t, is_suffix t s -> match_here r t = None).
    { intros t Ht. apply Hnone, is_suffix_cons, Ht. }
    destruct skip; cbn [exec_all]; [|now apply IH].
    rewrite (Hnone _ (is_suffix_refl _)). now apply IH.
Qed.

Lemma keyword_needed (l : String.string) (r : regex) (code : jsstring) :
  includes code (js l) = false ->
  exec_all (Seq (Lit l) r) 0 0 code = [].
Proof.
  intros Hno. apply exec_all_nil. intros t Ht.
  unfold match_here. rewrite rmatch_Seq, rmatch_Lit.
  destruct (startsWith t (js l)) eqn:E; [|reflexivity].
  rewrite (includes_suffix _ _ _ Ht E) in Hno. discriminate.
Qed.

(** X5.  The lexical scan reports nothing in a text that contains none
    of [console.], [print], [System.out.println] and [debugger]. *)
Theorem fallbackRegexParse_needs_keyword (code : jsstring) :
  includes code (js "console.") = false ->
  includes code (js "print") = false ->
  includes code (js "System.out.println") = false ->
  includes code (js "debugger") = false ->
  fallbackRegexParse code = [].
Proof.
  intros H1 H2 H3 H4. unfold fallbackRegexParse, fallback_matches.
  cbn [patterns flat_map].
  unfold console_re, print_re, system_out_re, debugger_re.
  rewrite !keyword_needed by assumption. reflexivity.
Qed.

Lemma fallbackRegexParse_needs_keyword_witness :
  includes (js "const x = f(1); // log") (js "console.") = false /\
  includes (js "const x = f(1); // log") (js "print") = false /\
  includes (js "const x = f(1); // log") (js "System.out.println") = false /\
  includes (js "const x = f(1); // log") (js "debugger") = false /\
  fallbackRegexParse (js "const x = f(1); // log") = [].
Proof.
  repeat (split; [reflexivity|]).
  exact (fallbackRegexParse_needs_keyword (js "const x = f(1); // log")
           eq_refl eq_refl eq_refl eq_refl).
Defined.

Lemma call_pattern_match (l : String.string) (s rest : jsstring) :
  match_here (Seq (Lit l) call_tail) s = Some rest <->
  exists w args tail,
    forallb is_space w = true /\ includes args (js ")") = false /\
    s = js l ++ w ++ js "(" ++ args ++ js ")" ++ tail /\
    rest = after_terminator tail.
Proof.
  unfold match_here. rewrite rmatch_Seq. split.
  - intros H. apply rmatch_Lit_inv in H. destruct H as (s1 & -> & H).
    apply call_tail_inv in H.
    destruct H as (w & args & tail & Hw & Ha & -> & ->).
    exists w, args, tail. auto.
  - intros (w & args & tail & Hw & Ha & -> & ->).
    rewrite rmatch_Lit_app. now apply call_tail_match.
Qed.

(** X6.  What the three other patterns of the lexical scan match at a
    place of the text: [print], respectively [System.out.println],
    then optional white space, an opening parenthesis, everything up
    to the first closing parenthesis, and the terminator (white space,
    an optional semicolon, white space); and for the last one the
    letters [debugger], whatever comes before or after them, and the
    terminator. *)
Theorem other_patterns_match (s rest : jsstring) :
  (match_here print_re s = Some rest <->
   exists w args tail,
     forallb is_space w = true /\ includes args (js ")") = false /\
     s = js "print" ++ w ++ js "(" ++ args ++ js ")" ++ tail /\
     rest = after_terminator tail) /\
  (match_here system_out_re s = Some rest <->
   exists w args tail,
     forallb is_space w = true /\ includes args (js ")") = false /\
     s = js "System.out.println" ++ w ++ js "(" ++ args ++ js ")" ++ tail /\
     rest = after_terminator tail) /\
  (match_here debugger_re s = Some rest <->
   exists tail, s = js "debugger" ++ tail /\ rest = after_terminator tail).
Proof.
  split; [apply call_pattern_match|]. split; [apply call_pattern_match|].
  unfold match_here, debugger_re. rewrite rmatch_Seq. split.
  - intros H. apply rmatch_Lit_inv in H. destruct H as (tail & -> & H).
    rewrite rmatch_terminator in H. inversion H. now exists tail.
  - intros (tail & -> & ->). rewrite rmatch_Lit_app. apply rmatch_terminator.
Qed.

(** ** The results of the cleaner *)

Lemma removeDebugStatements_removed
    (this : cleaner) (code : jsstring) (statements : list statement) :
  removedStatements (fst (removeDebugStatements this code statements)) =
  rev (List.map (fun st => mkRemoved st (start st))
         (js_sort by_start_descending
            (filterStatementsByConfig (config this) statements))).
Proof.
  unfold removeDebugStatements.
  destruct (length statements =? 0) eqn:E0.
  - apply Nat.eqb_eq in E0. destruct statements; [reflexivity|discriminate].
  - cbn [config].
    destruct (length (filterStatementsByConfig (config this) statements) =? 0)
      eqn:E1.
    + apply Nat.eqb_eq in E1.
      destruct (filterStatementsByConfig (config this) statements);
        [reflexivity|discriminate].
    + cbn [this_removedStatements].
      destruct (remove_loop
                  (js_sort by_start_descending
                     (filterStatementsByConfig (config this) statements))
                  code 0 []) as (code' & E).
      rewrite E. reflexivity.
Qed.

Lemma removeDebugStatements_config
    (this : cleaner) (code : jsstring) (statements : list statement) :
  config (snd (removeDebugStatements this code statements)) = config this.
Proof.
  unfold removeDebugStatements.
  destruct (length statements =? 0); [reflexivity|]. cbn [config].
  destruct (length (filterStatementsByConfig (config this) statements) =? 0);
    [reflexivity|].
  destruct (fold_left remove_step _ _) as [[c n] acc]. reflexivity.
Qed.

Lemma removeDebugStatements_ignores_field
    (c : configuration) (old : list removed_statement)
    (code : jsstring) (statements : list statement) :
  fst (removeDebugStatements (mkCleaner c old) code statements) =
  fst (removeDebugStatements (mkCleaner c []) code statements).
Proof.
  unfold removeDebugStatements.
  destruct (length statements =? 0); reflexivity.
Qed.

Lemma filter_of_type (c : configuration) (ty : statement_type)
    (statements : list statement) :
  filterStatementsByConfig c (of_type ty statements) =
  filter (fun st => statement_type_eqb (type st) ty && keep_statement c st)
         statements.
Proof.
  unfold filterStatementsByConfig, of_type.
  induction statements as [|st l IH]; [reflexivity|].
  cbn [filter]. destruct (statement_type_eqb (type st) ty); cbn [filter andb];
    [destruct (keep_statement c st)|]; now rewrite IH.
Qed.

Lemma removed_permutation
    (this : cleaner) (code : jsstring) (statements : list statement) :
  Permutation
    (List.map removed
       (removedStatements (fst (removeDebugStatements this code statements))))
    (filterStatementsByConfig (config this) statements).
Proof.
  rewrite removeDebugStatements_removed, <- Permutation_rev, map_map.
  cbn [removed]. rewrite map_id. apply js_sort_perm.
Qed.

Lemma removeDebugStatements_count
    (this : cleaner) (code : jsstring) (statements : list statement) :
  removedCount (fst (removeDebugStatements this code statements)) =
  length (removedStatements (fst (removeDebugStatements this code statements))).
Proof.
  unfold removeDebugStatements.
  destruct (length statements =? 0); [reflexivity|]. cbn [config].
  destruct (length (filterStatementsByConfig (config this) statements) =? 0);
    [reflexivity|].
  cbn [this_removedStatements].
  destruct (remove_loop
              (js_sort by_start_descending
                 (filterStatementsByConfig (config this) statements))
              code 0 []) as (code' & E).
  rewrite E. cbn [fst removedCount removedStatements app].
  now rewrite length_rev, length_map.
Qed.

(** X7.  What the four removers of one type report: the list
    [removedStatements] of each holds exactly the statements of its
    type that the configuration lets through, each once, and no
    statement of another type, and [removedCount] is their number;
    [removeConsoleLogsOnly] reports the console statements of every
    method, not those of [log] alone.  (This is about the report of
    the call, not about its text.) *)
Theorem removers_of_one_type
    (this : cleaner) (code : jsstring) (statements : list statement) :
  let reported f :=
    List.map removed (removedStatements (fst (f this code statements))) in
  let counted f := removedCount (fst (f this code statements)) in
  let kept ty :=
    filter (fun st => statement_type_eqb (type st) ty
                      && keep_statement (config this) st) statements in
  (Permutation (reported removeConsoleLogsOnly) (kept console) /\
   counted removeConsoleLogsOnly = length (kept console)) /\
  (Permutation (reported removePrintStatementsOnly) (kept print) /\
   counted removePrintStatementsOnly = length (kept print)) /\
  (Permutation (reported removeDebuggerStatementsOnly) (kept debugger) /\
   counted removeDebuggerStatementsOnly = length (kept debugger)) /\
  (Permutation (reported removeSystemOutStatementsOnly) (kept system_out) /\
   counted removeSystemOutStatementsOnly = length (kept system_out)).
Proof.
  cbv zeta.
  assert (H : forall ty,
            Permutation
              (List.map removed
                 (removedStatements
                    (fst (removeDebugStatements this code
                            (of_type ty statements)))))
              (filter (fun st => statement_type_eqb (type st) ty
                                 && keep_statement (config this) st)
                      statements) /\
            removedCount
              (fst (removeDebugStatements this code (of_type ty statements)))
            = length (filter (fun st => statement_type_eqb (type st) ty
                                        && keep_statement (config this) st)
                             statements)).
  { intros ty. rewrite <- filter_of_type.
    pose proof (removed_permutation this code (of_type ty statements)) as Hp.
    split; [exact Hp|].
    rewrite removeDebugStatements_count, <- (Permutation_length Hp).
    now rewrite length_map. }
  unfold removeConsoleLogsOnly, removePrintStatementsOnly,
    removeDebuggerStatementsOnly, removeSystemOutStatementsOnly.
  repeat split; apply H.
Qed.

(** X8.  A cleaner can be used again: whatever call was made on it
    before, the settings are the same afterwards and the next call
    returns what a new cleaner with these settings returns; nothing of
    the earlier call is left in the result. *)
Theorem cleaner_reuse
    (this : cleaner) (code1 code2 : jsstring)
    (statements1 statements2 : list statement) :
  let after := snd (removeDebugStatements this code1 statements1) in
  config after = config this /\
  fst (removeDebugStatements after code2 statements2) =
  fst (removeDebugStatements (mkCleaner (config this) []) code2 statements2).
Proof.
  cbv zeta.
  pose proof (removeDebugStatements_config this code1 statements1) as Hc.
  split; [exact Hc|].
  destruct (snd (removeDebugStatements this code1 statements1))
    as [c old]. cbn [config] in Hc. subst c.
  apply removeDebugStatements_ignores_field.
Qed.

(** ** Removal only deletes *)

Lemma is_prefix_refl (s : jsstring) : is_prefix s s.
Proof. exists []. now rewrite app_nil_r. Qed.

Lemma join_split_lines (s : jsstring) : join_lines (split_lines s) = s.
Proof.
  induction s as [|c s IH]; [reflexivity|].
  cbn [split_lines]. pose proof (split_lines_nonempty s) as Hne.
  destruct (char_eqb c LF) eqn:E.
  - apply char_eqb_eq in E. subst c.
    destruct (split_lines s) as [|l ls]; [contradiction|].
    cbn [join_lines app]. now rewrite <- IH.
  - destruct (split_lines s) as [|l ls]; [contradiction|].
    rewrite <- IH. destruct ls; reflexivity.
Qed.

Lemma join_lines_snoc (p : list jsstring) (x : jsstring) :
  p <> [] -> join_lines (p ++ [x]) = join_lines p ++ LF :: x.
Proof.
  induction p as [|l p IH]; intros Hne; [contradiction|].
  destruct p as [|l' p]; [reflexivity|].
  change ((l :: l' :: p) ++ [x]) with (l :: (l' :: p) ++ [x]).
  change (join_lines (l :: (l' :: p) ++ [x]))
    with (l ++ LF :: join_lines ((l' :: p) ++ [x])).
  rewrite IH by discriminate.
  change (join_lines (l :: l' :: p)) with (l ++ LF :: join_lines (l' :: p)).
  now rewrite <- app_assoc.
Qed.

Lemma removeEntireLine_cut (before after : jsstring)
    (context : statement_context) :
  is_prefix (fst (removeEntireLine before after context)) before /\
  is_suffix (snd (removeEntireLine before after context)) after.
Proof.
  unfold removeEntireLine. cbn [fst snd]. split.
  - pose proof (split_lines_nonempty before) as Hne.
    pose proof (join_split_lines before) as Hj.
    destruct (0 <? length (split_lines before)); [|apply is_prefix_refl].
    destruct (is_blank (last (split_lines before) []));
      [|apply is_prefix_refl].
    remember (removelast (split_lines before)) as popped eqn:Ep.
    remember (last (split_lines before) []) as lastline eqn:El.
    assert (Hl : split_lines before = popped ++ [lastline])
      by (subst popped lastline; apply app_removelast_last; exact Hne).
    rewrite Hl in Hj. clear Hl Ep El.
    destruct popped as [|l p].
    + exists before. reflexivity.
    + rewrite join_lines_snoc in Hj by discriminate.
      exists lastline. change (0 <? length (l :: p)) with true. cbv iota.
      rewrite <- Hj. now rewrite <- app_assoc.
  - destruct (startsWith after [LF]) eqn:E1.
    + apply startsWith_inv in E1. exists [LF]. exact E1.
    + destruct (startsWith after [CR; LF]) eqn:E2.
      * apply startsWith_inv in E2. exists [CR; LF]. exact E2.
      * apply is_suffix_refl.
Qed.

Lemma cleanLeadingCommaOrSemicolon_prefix (before : jsstring) :
  is_prefix (cleanLeadingCommaOrSemicolon before) before.
Proof.
  unfold cleanLeadingCommaOrSemicolon.
  induction before as [|c s IH]; cbn [replace_first];
    rewrite leading_re_match.
  - exists []. reflexivity.
  - destruct (existsb (char_eqb c) (js ",;") && forallb is_space s).
    + exists (c :: s). reflexivity.
    + destruct IH as [suf Hs]. exists suf. cbn [app]. now rewrite <- Hs.
Qed.

Lemma cleanTrailingCommaOrSemicolon_suffix (after : jsstring) :
  is_suffix (cleanTrailingCommaOrSemicolon after) after.
Proof.
  unfold cleanTrailingCommaOrSemicolon, replace_at_start.
  destruct (match_here trailing_re after) eqn:E.
  - cbn [app]. now apply match_here_suffix in E.
  - apply is_suffix_refl.
Qed.

(** X9.  Removing a statement never writes anything: the new text is a
    beginning of the text before the statement followed by an end of
    the text after it, whatever the offsets are, and the removal is
    always reported as done. *)
Theorem removeStatement_only_deletes (code : jsstring) (st : statement) :
  exists b a,
    removeStatement code st = (b ++ a, true) /\
    is_prefix b (firstn (start st) code) /\
    is_suffix a (skipn (end_ st) code).
Proof.
  unfold removeStatement, substring_from. rewrite substring_0.
  set (context := analyzeStatementContext code st).
  set (before := firstn (start st) code).
  set (after := skipn (end_ st) code).
  destruct (isOnOwnLine context).
  - pose proof (removeEntireLine_cut before after context) as [Hb Ha].
    destruct (removeEntireLine before after context) as [b a].
    exists b, a. auto.
  - destruct (isAtLineStart context); [|destruct (isAtLineEnd context)].
    + exists before, (cleanTrailingCommaOrSemicolon after).
      split; [reflexivity|]. split; [apply is_prefix_refl|].
      apply cleanTrailingCommaOrSemicolon_suffix.
    + exists (cleanLeadingCommaOrSemicolon before), after.
      split; [reflexivity|].
      split; [apply cleanLeadingCommaOrSemicolon_prefix|].
      apply is_suffix_refl.
    + exists (cleanLeadingCommaOrSemicolon before),
             (cleanTrailingCommaOrSemicolon after).
      split; [reflexivity|].
      split; [apply cleanLeadingCommaOrSemicolon_prefix|].
      apply cleanTrailingCommaOrSemicolon_suffix.
Qed.

Lemma subsequence_refl (s : jsstring) : subsequence s s.
Proof. induction s; constructor; assumption. Qed.

Lemma subsequence_trans (a b c : jsstring) :
  subsequence a b -> subsequence b c -> subsequence a c.
Proof.
  intros Hab Hbc. revert a Hab.
  induction Hbc as [|x b c Hbc IH|x b c Hbc IH]; intros a Hab.
  - exact Hab.
  - constructor. now apply IH.
  - inversion Hab; subst.
    + apply sub_skip. now apply IH.
    + apply sub_keep. now apply IH.
Qed.

Lemma subsequence_nil (s : jsstring) : subsequence [] s.
Proof. induction s; constructor; assumption. Qed.

Lemma subsequence_app (a a' b b' : jsstring) :
  subsequence a a' -> subsequence b b' -> subsequence (a ++ b) (a' ++ b').
Proof.
  intros Ha Hb. induction Ha; cbn [app].
  - exact Hb.
  - now apply sub_skip.
  - now apply sub_keep.
Qed.

Lemma subsequence_prefix (a b : jsstring) : is_prefix a b -> subsequence a b.
Proof.
  intros [suf ->]. rewrite <- (app_nil_r a) at 1.
  apply subsequence_app; [apply subsequence_refl|apply subsequence_nil].
Qed.

Lemma subsequence_suffix (a b : jsstring) : is_suffix a b -> subsequence a b.
Proof.
  intros [pre ->]. change a with ([] ++ a) at 1.
  apply subsequence_app; [apply subsequence_nil|apply subsequence_refl].
Qed.

Lemma subsequence_length (a b : jsstring) :
  subsequence a b -> length a <= length b.
Proof. induction 1; cbn [length]; lia. Qed.

Lemma removeStatement_subsequence (code : jsstring) (st : statement) :
  start st <= end_ st -> subsequence (fst (removeStatement code st)) code.
Proof.
  intros Hse.
  assert (Hcut : forall b a,
            is_prefix b (firstn (start st) code) ->
            is_suffix a (skipn (end_ st) code) ->
            subsequence (b ++ a) code).
  { intros b a Hb Ha. rewrite <- (firstn_skipn (start st) code) at 1.
    apply subsequence_app; [now apply subsequence_prefix|].
    apply subsequence_suffix. eapply is_suffix_trans; [exact Ha|].
    exists (firstn (end_ st - start st) (skipn (start st) code)).
    replace (skipn (end_ st) code)
      with (skipn (end_ st - start st) (skipn (start st) code))
      by (rewrite skipn_skipn; f_equal; lia).
    now rewrite firstn_skipn. }
  unfold removeStatement, substring_from. rewrite substring_0.
  set (context := analyzeStatementContext code st).
  destruct (isOnOwnLine context).
  - pose proof (removeEntireLine_cut (firstn (start st) code)
                  (skipn (end_ st) code) context) as [Hb Ha].
    destruct (removeEntireLine _ _ context) as [b a]. now apply Hcut.
  - destruct (isAtLineStart context); [|destruct (isAtLineEnd context)];
      cbn [fst]; apply Hcut;
      first [apply is_prefix_refl
            |apply cleanLeadingCommaOrSemicolon_prefix
            |apply is_suffix_refl
            |apply cleanTrailingCommaOrSemicolon_suffix].
Qed.

Lemma remove_loop_subsequence (l : list statement) :
  Forall (fun st => start st <= end_ st) l ->
  forall code n acc,
  subsequence (fst (fst (fold_left remove_step l (code, n, acc)))) code.
Proof.
  induction 1 as [|st l Hst Hl IH]; intros code n acc.
  - apply subsequence_refl.
  - cbn [fold_left]. unfold remove_step at 2.
    pose proof (removeStatement_subsequence code st Hst) as Hstep.
    destruct (removeStatement code st) as [code1 flag]. cbn [fst] in Hstep.
    destruct flag; (eapply subsequence_trans; [apply IH|exact Hstep]).
Qed.

Lemma removeDebugStatements_subsequence
    (this : cleaner) (code : jsstring) (statements : list statement) :
  Config.cleanWhitespace (config this) = false ->
  Forall (fun st => start st <= end_ st) statements ->
  subsequence (cleanCode (fst (removeDebugStatements this code statements)))
              code.
Proof.
  intros Hws Hst. unfold removeDebugStatements.
  destruct (length statements =? 0); [apply subsequence_refl|].
  cbn [config].
  destruct (length (filterStatementsByConfig (config this) statements) =? 0);
    [apply subsequence_refl|].
  rewrite Hws.
  assert (Hsorted : Forall (fun st => start st <= end_ st)
            (js_sort by_start_descending
               (filterStatementsByConfig (config this) statements))).
  { eapply Permutation_Forall; [symmetry; apply js_sort_perm|].
    apply Forall_forall. intros st Hin. apply filter_In in Hin.
    exact (proj1 (Forall_forall _ _) Hst st (proj1 Hin)). }
  pose proof (remove_loop_subsequence _ Hsorted code 0
                (this_removedStatements (mkCleaner (config this) [])))
    as Hloop.
  destruct (fold_left remove_step _ _) as [[c n] acc]. exact Hloop.
Qed.

(** X10.  Without the whitespace cleaning, and for statements whose
    start is not after their end, [removeDebugStatements] only deletes:
    the clean text is the text with some characters taken out, none
    added, none moved; in particular it is never longer. *)
Theorem removeDebugStatements_only_deletes
    (this : cleaner) (code : jsstring) (statements : list statement) :
  Config.cleanWhitespace (config this) = false ->
  Forall (fun st => start st <= end_ st) statements ->
  let clean := cleanCode (fst (removeDebugStatements this code statements)) in
  subsequence clean code /\ length clean <= length code.
Proof.
  intros Hws Hst. cbv zeta.
  pose proof (removeDebugStatements_subsequence this code statements Hws Hst)
    as H.
  split; [exact H|apply subsequence_length, H].
Qed.

Lemma removeDebugStatements_only_deletes_witness :
  Config.cleanWhitespace
    (config (mkCleaner (Config.mkConfiguration true true false true true true
                          true true true 2 false) [])) = false /\
  Forall (fun st => start st <= end_ st) (fallbackRegexParse inline_code) /\
  (let clean :=
     cleanCode (fst (removeDebugStatements
                       (mkCleaner (Config.mkConfiguration true true false true
                                     true true true true true 2 false) [])
                       inline_code (fallbackRegexParse inline_code))) in
   subsequence clean inline_code /\ length clean <= length inline_code).
Proof.
  assert (H2 : Forall (fun st => start st <= end_ st)
                 (fallbackRegexParse inline_code)).
  { eapply Forall_impl; [|apply fallbackRegexParse_offsets].
    intros st (_ & Hlt & _). lia. }
  split; [reflexivity|]. split; [exact H2|].
  exact (removeDebugStatements_only_deletes
           (mkCleaner (Config.mkConfiguration true true false true true true
                         true true true 2 false) [])
           inline_code (fallbackRegexParse inline_code) eq_refl H2).
Defined.

(** ** The place of a statement, as the cleaner finds it *)

Lemma split_lines_app (a s : jsstring) :
  split_lines (a ++ LF :: s) = split_lines a ++ split_lines s.
Proof.
  induction a as [|c a IH]; [reflexivity|].
  cbn [app split_lines]. rewrite IH.
  pose proof (split_lines_nonempty a) as Hne.
  destruct (char_eqb c LF); [reflexivity|].
  destruct (split_lines a) as [|l ls]; [contradiction|reflexivity].
Qed.

Lemma line_before_app (a s : jsstring) :
  line_before (a ++ LF :: s) = line_before s.
Proof.
  unfold line_before. rewrite split_lines_app.
  pose proof (split_lines_nonempty s) as Hne.
  destruct (split_lines s) as [|l ls] using rev_ind; [contradiction|].
  now rewrite app_assoc, !last_last.
Qed.

Lemma drop_spaces_all (s : jsstring) :
  forallb is_space s = true -> drop_spaces s = [].
Proof.
  induction s as [|c s IH]; intros H; [reflexivity|].
  cbn [forallb] in H. apply andb_prop in H. destruct H as [Hc Hs].
  cbn [drop_spaces]. rewrite Hc. auto.
Qed.

Lemma is_blank_spaces (s : jsstring) :
  forallb is_space s = true -> is_blank s = true.
Proof.
  intros H. unfold is_blank, trim. now rewrite (drop_spaces_all s H).
Qed.

(** What [analyzeStatementContext] finds for a statement that starts
    inside the text: the line holds the text around the start up to the
    line breaks, [beforeInLine] is the part before the start, and
    [afterInLine] is what the line has after [end - lineStart]. *)
Lemma analyzeStatementContext_spec (code : jsstring) (st : statement) :
  start st <= length code ->
  let b := line_before (firstn (start st) code) in
  let l := b ++ line_after (skipn (start st) code) in
  let context := analyzeStatementContext code st in
  lineNumber context = count_LF (firstn (start st) code) /\
  lineStart context = start st - length b /\
  context_line context = l /\
  beforeInLine context = b /\
  afterInLine context = skipn (end_ st - (start st - length b)) l /\
  isAtLineStart context = is_blank b /\
  isAtLineEnd context =
    is_blank (skipn (end_ st - (start st - length b)) l) /\
  isOnOwnLine context =
    is_blank b && is_blank (skipn (end_ st - (start st - length b)) l).
Proof.
  intros Hs. cbv zeta. unfold analyzeStatementContext.
  destruct (find_context_line_spec (length code) code (Nat.le_refl _)
              (start st) 0 0 Hs) as [Hfind Hnth].
  cbn [Nat.add] in Hfind. rewrite Hfind, Hnth.
  pose proof (line_before_length (firstn (start st) code)) as Hlb.
  rewrite length_firstn in Hlb.
  cbn [lineNumber lineStart context_line beforeInLine afterInLine
       isAtLineStart isAtLineEnd isOnOwnLine].
  unfold substring_from. rewrite substring_0.
  replace (start st - (start st - length (line_before (firstn (start st) code))))
    with (length (line_before (firstn (start st) code)) + 0) by lia.
  rewrite firstn_app_2. cbn [firstn]. rewrite app_nil_r.
  repeat split; reflexivity.
Qed.

(** For a statement that the scans placed, the cleaner finds the same
    line, the same column and the same line content. *)
Lemma context_of_placed (code : jsstring) (st : statement) :
  start st <= length code -> placed_at code (start st) st ->
  let context := analyzeStatementContext code st in
  S (lineNumber context) = line st /\
  length (beforeInLine context) = column st /\
  trim (context_line context) = lineContent st.
Proof.
  intros Hs (Hl & Hc & Ht). cbv zeta.
  destruct (analyzeStatementContext_spec code st Hs)
    as (E1 & _ & E3 & E4 & _).
  now rewrite E1, E3, E4, Hl, Hc, Ht.
Qed.

(** ** The removal of a statement on its own line *)

Lemma line_before_line_start (p indent : jsstring) :
  p = [] \/ (exists p', p = p' ++ [LF]) ->
  forallb not_LF indent = true ->
  line_before (p ++ indent) = indent.
Proof.
  intros [->|(p' & ->)] Hi.
  - now apply line_before_line.
  - rewrite <- app_assoc. cbn [app]. rewrite line_before_app.
    now apply line_before_line.
Qed.

Lemma skipn_line_after_blank (body after : jsstring) :
  is_blank (line_after after) = true ->
  is_blank (skipn (length body) (line_after (body ++ after))) = true.
Proof.
  intros Ha. unfold line_after in *.
  induction body as [|c body IH]; [exact Ha|].
  cbn [app take_while length]. destruct (not_LF c); [|reflexivity].
  cbn [skipn]. exact IH.
Qed.

Lemma removeEntireLine_before (p indent : jsstring) (after : jsstring)
    (context : statement_context) :
  p = [] \/ (exists p', p = p' ++ [LF]) ->
  forallb not_LF indent = true -> forallb is_space indent = true ->
  fst (removeEntireLine (p ++ indent) after context) = p.
Proof.
  intros Hp Hl Hi. unfold removeEntireLine. cbn [fst].
  pose proof (split_lines_nonempty (p ++ indent)) as Hne.
  destruct (split_lines (p ++ indent)) as [|l0 ls0] eqn:E; [contradiction|].
  change (0 <? length (l0 :: ls0)) with true. cbv iota. rewrite <- E.
  destruct Hp as [->|(p' & ->)].
  - cbn [app]. rewrite (split_lines_line indent Hl).
    cbn [last removelast]. now rewrite (is_blank_spaces indent Hi).
  - rewrite <- app_assoc. cbn [app]. rewrite split_lines_app.
    rewrite (split_lines_line indent Hl).
    rewrite last_last, removelast_last, (is_blank_spaces indent Hi).
    rewrite join_split_lines, length_split_lines.
    reflexivity.
Qed.

(** A statement with nothing but blanks before it on its line, and
    nothing but blanks in that line after its end: the text before
    loses the blanks of the line, and the text after loses one line
    break (a line feed, or a carriage return and a line feed) when it
    starts with one. *)
Lemma removeStatement_alone (p indent body after : jsstring)
    (st : statement) :
  p = [] \/ (exists p', p = p' ++ [LF]) ->
  forallb not_LF indent = true -> forallb is_space indent = true ->
  start st = length (p ++ indent) ->
  end_ st = start st + length body ->
  is_blank (skipn (length body) (line_after (body ++ after))) = true ->
  removeStatement (p ++ indent ++ body ++ after) st =
  (p ++ (if startsWith after [LF] then skipn 1 after
         else if startsWith after [CR; LF] then skipn 2 after
         else after), true).
Proof.
  intros Hp Hl Hi Hs He Ha.
  set (code := p ++ indent ++ body ++ after).
  assert (Hlen : start st <= length code).
  { unfold code. rewrite Hs, !length_app. lia. }
  assert (Hb : firstn (start st) code = p ++ indent).
  { unfold code. rewrite Hs, app_assoc.
    now rewrite firstn_app, firstn_all, Nat.sub_diag, app_nil_r. }
  assert (Hr : skipn (start st) code = body ++ after).
  { unfold code. rewrite Hs, app_assoc.
    rewrite skipn_app, skipn_all, Nat.sub_diag. reflexivity. }
  assert (Haft : skipn (end_ st) code = after).
  { unfold code. rewrite He, Hs, !app_assoc, <- !length_app.
    rewrite skipn_app, skipn_all, Nat.sub_diag. reflexivity. }
  destruct (analyzeStatementContext_spec code st Hlen)
    as (_ & _ & _ & _ & _ & _ & _ & Hown).
  rewrite Hb, Hr, (line_before_line_start p indent Hp Hl) in Hown.
  replace (end_ st - (start st - length indent))
    with (length indent + length body) in Hown
    by (rewrite He, Hs, length_app; lia).
  rewrite skipn_app, skipn_all2, Nat.add_comm, Nat.add_sub in Hown by lia.
  cbn [app] in Hown.
  rewrite (is_blank_spaces indent Hi), Ha in Hown.
  unfold removeStatement, substring_from. rewrite substring_0.
  fold code. rewrite Hown, Hb, Haft.
  pose proof (removeEntireLine_before p indent after
                (analyzeStatementContext code st) Hp Hl Hi) as Hfst.
  destruct (removeEntireLine (p ++ indent) after
              (analyzeStatementContext code st)) as [b a] eqn:E.
  cbn [fst] in Hfst. subst b.
  unfold removeEntireLine in E. injection E as _ E. rewrite <- E.
  reflexivity.
Qed.

Lemma removeStatement_own_line (p indent body after : jsstring)
    (st : statement) :
  p = [] \/ (exists p', p = p' ++ [LF]) ->
  forallb not_LF indent = true -> forallb is_space indent = true ->
  start st = length (p ++ indent) ->
  end_ st = start st + length body ->
  is_blank (line_after after) = true ->
  removeStatement (p ++ indent ++ body ++ after) st =
  (p ++ (if startsWith after [LF] then skipn 1 after
         else if startsWith after [CR; LF] then skipn 2 after
         else after), true).
Proof.
  intros Hp Hl Hi Hs He Ha. apply removeStatement_alone; try assumption.
  now apply skipn_line_after_blank.
Qed.

(** X11.  A statement alone on its line, with at most blanks before it,
    goes with its whole line: the blanks before it and the line break
    after it (a line feed, or a carriage return and a line feed) are
    removed too, and the rest of the text is kept as it is; on the last
    line of a text without a final line break only the line content
    goes.  The statement may span several lines. *)
Theorem own_line_removed_whole (p indent body rest : jsstring)
    (st : statement) :
  p = [] \/ (exists p', p = p' ++ [LF]) ->
  forallb not_LF indent = true -> forallb is_space indent = true ->
  start st = length (p ++ indent) ->
  end_ st = start st + length body ->
  removeStatement (p ++ indent ++ body ++ LF :: rest) st = (p ++ rest, true) /\
  removeStatement (p ++ indent ++ body ++ CR :: LF :: rest) st
    = (p ++ rest, true) /\
  removeStatement (p ++ indent ++ body) st = (p, true).
Proof.
  intros Hp Hl Hi Hs He. repeat split.
  - now rewrite (removeStatement_own_line p indent body (LF :: rest) st).
  - now rewrite (removeStatement_own_line p indent body (CR :: LF :: rest) st).
  - pose proof (removeStatement_own_line p indent body [] st Hp Hl Hi Hs He
                  eq_refl) as H.
    cbn [startsWith char_eqb] in H. now rewrite !app_nil_r in H.
Qed.

Lemma own_line_removed_whole_witness :
  (js "x = 1;" ++ [LF] = [] \/
   (exists p', js "x = 1;" ++ [LF] = p' ++ [LF])) /\
  forallb not_LF (js "  ") = true /\
  forallb is_space (js "  ") = true /\
  start (mkStatement debugger 2 2 9 18 (js "debugger;") (js "debugger;"))
    = length ((js "x = 1;" ++ [LF]) ++ js "  ") /\
  end_ (mkStatement debugger 2 2 9 18 (js "debugger;") (js "debugger;"))
    = start (mkStatement debugger 2 2 9 18 (js "debugger;") (js "debugger;"))
      + length (js "debugger;") /\
  removeStatement
    ((js "x = 1;" ++ [LF]) ++ js "  " ++ js "debugger;" ++ LF :: js "y = 2;")
    (mkStatement debugger 2 2 9 18 (js "debugger;") (js "debugger;"))
  = ((js "x = 1;" ++ [LF]) ++ js "y = 2;", true).
Proof.
  assert (Hp : js "x = 1;" ++ [LF] = [] \/
               (exists p', js "x = 1;" ++ [LF] = p' ++ [LF]))
    by (right; exists (js "x = 1;"); reflexivity).
  split; [exact Hp|]. repeat (split; [reflexivity|]).
  exact (proj1 (own_line_removed_whole (js "x = 1;" ++ [LF]) (js "  ")
                  (js "debugger;") (js "y = 2;")
                  (mkStatement debugger 2 2 9 18 (js "debugger;")
                     (js "debugger;"))
                  Hp eq_refl eq_refl eq_refl eq_refl)).
Defined.

(** X12.  Blanks between the statement and the end of its line keep the
    line: the statement is still taken as one on its own line and the
    blanks before it are removed, but the blanks after it and the line
    break stay, so a line of blanks is left where the statement was.
    A lone carriage return before the line feed is the one exception
    (it goes with the line break). *)
Theorem own_line_with_trailing_blanks
    (p indent body trail rest : jsstring) (c : char) (st : statement) :
  p = [] \/ (exists p', p = p' ++ [LF]) ->
  forallb not_LF indent = true -> forallb is_space indent = true ->
  start st = length (p ++ indent) ->
  end_ st = start st + length body ->
  forallb not_LF (c :: trail) = true ->
  forallb is_space (c :: trail) = true ->
  c <> CR \/ trail <> [] ->
  removeStatement (p ++ indent ++ body ++ (c :: trail) ++ LF :: rest) st =
  (p ++ (c :: trail) ++ LF :: rest, true).
Proof.
  intros Hp Hl Hi Hs He Hnl Hsp Hc.
  rewrite (removeStatement_own_line p indent body
             ((c :: trail) ++ LF :: rest) st Hp Hl Hi Hs He).
  - f_equal. f_equal. cbn [app startsWith].
    cbn [forallb] in Hnl. apply andb_prop in Hnl. destruct Hnl as [Hc1 Ht].
    unfold not_LF in Hc1. apply negb_true_iff in Hc1.
    unfold char_eqb in *. rewrite N.eqb_sym, Hc1. cbn [andb].
    destruct (CR =? c)%N eqn:E; [|reflexivity].
    apply N.eqb_eq in E. destruct Hc as [Hc|Hc]; [congruence|].
    destruct trail as [|d trail]; [contradiction|].
    cbn [forallb] in Ht. apply andb_prop in Ht. destruct Ht as [Hd _].
    unfold not_LF, char_eqb in Hd. apply negb_true_iff in Hd.
    cbn [app andb]. now rewrite N.eqb_sym, Hd.
  - unfold line_after. rewrite take_while_all.
    + now apply is_blank_spaces.
    + exact Hnl.
    + reflexivity.
Qed.

Lemma own_line_with_trailing_blanks_witness :
  (@nil char = [] \/ (exists p', @nil char = p' ++ [LF])) /\
  forallb not_LF (js "  ") = true /\
  forallb is_space (js "  ") = true /\
  start (mkStatement debugger 1 2 2 11 (js "debugger;") (js "debugger;"))
    = length ([] ++ js "  ") /\
  end_ (mkStatement debugger 1 2 2 11 (js "debugger;") (js "debugger;"))
    = start (mkStatement debugger 1 2 2 11 (js "debugger;") (js "debugger;"))
      + length (js "debugger;") /\
  forallb not_LF (32%N :: []) = true /\
  forallb is_space (32%N :: []) = true /\
  (32%N <> CR \/ @nil char <> []) /\
  removeStatement
    ([] ++ js "  " ++ js "debugger;" ++ (32%N :: []) ++ LF :: js "y = 2;")
    (mkStatement debugger 1 2 2 11 (js "debugger;") (js "debugger;"))
  = ([] ++ (32%N :: []) ++ LF :: js "y = 2;", true).
Proof.
  assert (Hp : @nil char = [] \/ (exists p', @nil char = p' ++ [LF]))
    by (left; reflexivity).
  assert (Hc : 32%N <> CR \/ @nil char <> []) by (left; discriminate).
  split; [exact Hp|]. do 6 (split; [reflexivity|]). split; [exact Hc|].
  exact (own_line_with_trailing_blanks [] (js "  ") (js "debugger;") []
           (js "y = 2;") 32%N
           (mkStatement debugger 1 2 2 11 (js "debugger;") (js "debugger;"))
           Hp eq_refl eq_refl eq_refl eq_refl eq_refl eq_refl Hc).
Defined.

(** ** The two cleanings of hanging punctuation *)

Lemma trailing_re_match (s : jsstring) :
  match_here trailing_re s =
  match drop_while is_space s with
  | c :: t => if char_eqb 44%N c then Some t else None
  | [] => None
  end.
Proof.
  unfold match_here, trailing_re.
  rewrite rmatch_Seq, rmatch_star_Space, star_chr_exclusive.
  - rewrite rmatch_Lit. change (js ",") with [44%N].
    destruct (drop_while is_space s) as [|c t]; [reflexivity|].
    cbn [startsWith length skipn]. now rewrite andb_true_r.
  - intros c t Hc. rewrite rmatch_Lit. change (js ",") with [44%N].
    cbn [startsWith]. now rewrite (space_not_literal c 44%N Hc).
Qed.

Lemma punctuation_not_space (c : char) :
  existsb (char_eqb c) (js ",;") = true -> is_space c = false.
Proof.
  intros Hc. change (js ",;") with [44%N; 59%N] in Hc. cbn [existsb] in Hc.
  apply orb_prop in Hc. destruct Hc as [Hc|Hc].
  - apply char_eqb_eq in Hc. now subst c.
  - apply orb_prop in Hc. destruct Hc as [Hc|Hc]; [|discriminate].
    apply char_eqb_eq in Hc. now subst c.
Qed.

Lemma cleanLeadingCommaOrSemicolon_blank (w : jsstring) :
  forallb is_space w = true -> cleanLeadingCommaOrSemicolon w = w.
Proof.
  unfold cleanLeadingCommaOrSemicolon.
  induction w as [|c w IH]; intros Hw; [reflexivity|].
  cbn [forallb] in Hw. apply andb_prop in Hw. destruct Hw as [Hc Hw].
  cbn [replace_first]. rewrite leading_re_match.
  destruct (existsb (char_eqb c) (js ",;")) eqn:E.
  - apply punctuation_not_space in E. congruence.
  - cbn [andb]. now rewrite IH.
Qed.

(** X13.  [cleanTrailingCommaOrSemicolon] takes a comma only: when the
    first character after the white space that opens the text is a
    comma, that white space and the comma are removed; in every other
    case (a semicolon too) the text is returned as it is. *)
Theorem cleanTrailingCommaOrSemicolon_comma_only (w rest : jsstring) :
  forallb is_space w = true ->
  match rest with c :: _ => is_space c = false | [] => True end ->
  cleanTrailingCommaOrSemicolon (w ++ rest) =
  if startsWith rest (js ",") then skipn 1 rest else w ++ rest.
Proof.
  intros Hw Hrest. unfold cleanTrailingCommaOrSemicolon, replace_at_start.
  rewrite trailing_re_match, drop_while_app by assumption.
  change (js ",") with [44%N].
  destruct rest as [|c t]; [reflexivity|].
  cbn [startsWith skipn]. rewrite andb_true_r.
  destruct (char_eqb 44%N c); reflexivity.
Qed.

Lemma cleanTrailingCommaOrSemicolon_comma_only_witness :
  forallb is_space (js " ") = true /\
  is_space 59%N = false /\
  cleanTrailingCommaOrSemicolon (js " " ++ js "; next()") =
  (if startsWith (js "; next()") (js ",") then skipn 1 (js "; next()")
   else js " " ++ js "; next()").
Proof.
  split; [reflexivity|]. split; [reflexivity|].
  exact (cleanTrailingCommaOrSemicolon_comma_only (js " ") (js "; next()")
           eq_refl eq_refl).
Defined.

(** X14.  [cleanLeadingCommaOrSemicolon] looks at the last character of
    the text that is not white space: a comma or a semicolon there is
    removed with the white space after it, and nothing else changes;
    any other character, or a text of white space only, leaves the
    text as it is. *)
Theorem cleanLeadingCommaOrSemicolon_last_character
    (pre w : jsstring) (z : char) :
  forallb is_space w = true -> is_space z = false ->
  cleanLeadingCommaOrSemicolon (pre ++ z :: w) =
    (if existsb (char_eqb z) (js ",;") then pre else pre ++ z :: w) /\
  cleanLeadingCommaOrSemicolon w = w.
Proof.
  intros Hw Hz. split; [|now apply cleanLeadingCommaOrSemicolon_blank].
  destruct (existsb (char_eqb z) (js ",;")) eqn:E.
  - now apply cleanLeadingCommaOrSemicolon_strips.
  - unfold cleanLeadingCommaOrSemicolon.
    induction pre as [|x pre IH].
    + cbn [app replace_first]. rewrite leading_re_match, E. cbn [andb].
      f_equal. now apply cleanLeadingCommaOrSemicolon_blank.
    + cbn [app replace_first]. rewrite leading_re_match.
      rewrite forallb_app. cbn [forallb]. rewrite Hz.
      rewrite andb_false_r, andb_false_r. cbn [andb]. now rewrite IH.
Qed.

Lemma cleanLeadingCommaOrSemicolon_last_character_witness :
  forallb is_space (js " ") = true /\
  is_space 59%N = false /\
  cleanLeadingCommaOrSemicolon (js "a()" ++ 59%N :: js " ") =
    (if existsb (char_eqb 59%N) (js ",;") then js "a()"
     else js "a()" ++ 59%N :: js " ") /\
  cleanLeadingCommaOrSemicolon (js " ") = js " ".
Proof.
  split; [reflexivity|]. split; [reflexivity|].
  exact (cleanLeadingCommaOrSemicolon_last_character (js "a()") (js " ") 59%N
           eq_refl eq_refl).
Defined.

(** ** The cleaning of white space *)

Lemma star_chr_end (p : char -> bool) (s : jsstring) :
  star_chr p (fun t => rmatch Eos t Some) s =
  if forallb p s then Some [] else None.
Proof.
  induction s as [|c s IH]; [reflexivity|].
  cbn [star_chr forallb]. destruct (p c); [|reflexivity].
  rewrite IH. cbn [andb]. destruct (forallb p s); reflexivity.
Qed.

Lemma final_newlines_re_match (s : jsstring) :
  match_here final_newlines_re s =
  if forallb (char_eqb LF) s then Some [] else None.
Proof.
  unfold match_here, final_newlines_re, Lit1.
  rewrite rmatch_Seq, rmatch_star_chr. apply star_chr_end.
Qed.

Lemma forallb_LF_repeat (s : jsstring) :
  forallb (char_eqb LF) s = true -> s = repeat LF (length s).
Proof.
  induction s as [|c s IH]; intros H; [reflexivity|].
  cbn [forallb] in H. apply andb_prop in H. destruct H as [Hc Hs].
  apply char_eqb_eq in Hc. subst c. cbn [length repeat]. now rewrite <- IH.
Qed.

(** The last step of [cleanWhitespace]: the line breaks that end the
    text are replaced by one. *)
Lemma final_newline_spec (s : jsstring) :
  exists body j,
    s = body ++ repeat LF j /\
    replace_first final_newlines_re [LF] s = body ++ [LF] /\
    last body 0%N <> LF.
Proof.
  induction s as [|c s IH].
  - exists [], 0. repeat split. discriminate.
  - cbn [replace_first]. rewrite final_newlines_re_match.
    destruct (forallb (char_eqb LF) (c :: s)) eqn:E.
    + exists [], (length (c :: s)). repeat split.
      * now apply forallb_LF_repeat.
      * discriminate.
    + destruct IH as (body & j & Hs & Hr & Hl).
      exists (c :: body), j. rewrite Hr. repeat split.
      * cbn [app]. now rewrite <- Hs.
      * destruct body as [|b body]; [|exact Hl].
        cbn [last]. intros ->. cbn [app] in Hs. subst s.
        cbn [forallb] in E. change (char_eqb LF LF) with true in E.
        cbn [andb] in E.
        assert (H : forallb (char_eqb LF) (repeat LF j) = true)
          by (clear; induction j; [reflexivity|exact IHj]).
        congruence.
Qed.

(** X15.  The text [cleanWhitespace] returns ends with exactly one line
    break, whatever the text and the settings: it is never empty (the
    empty text gives a line break alone), and the character before the
    last line break, if any, is not a line break. *)
Theorem cleanWhitespace_final_line_break
    (c : configuration) (code : jsstring) :
  exists body,
    cleanWhitespace c code = body ++ [LF] /\ last body 0%N <> LF.
Proof.
  unfold cleanWhitespace.
  destruct (final_newline_spec
              (replace_all trailing_blanks_re [] 0
                 (replace_all (blank_lines_re (Config.maxEmptyLines c))
                    (repeat_LF (Config.maxEmptyLines c)) 0 code)))
    as (body & j & _ & Hr & Hl).
  exists body. now split.
Qed.

Lemma rmatch_Eol (s : jsstring) :
  rmatch Eol s Some = if at_eol s then Some s else None.
Proof. destruct s as [|c s]; reflexivity. Qed.

Lemma blank_char_not_terminator (c : char) :
  blank_char c = true -> is_line_terminator c = false.
Proof.
  unfold blank_char. intros H. apply orb_prop in H.
  destruct H as [H|H]; apply N.eqb_eq in H; subst c; reflexivity.
Qed.

Lemma trailing_blanks_re_match (s : jsstring) :
  match_here trailing_blanks_re s =
  match s with
  | c :: s' =>
      if blank_char c && at_eol (drop_while blank_char s')
      then Some (drop_while blank_char s') else None
  | [] => None
  end.
Proof.
  unfold match_here, trailing_blanks_re, Plus.
  change (fun c : char => ((c =? 32) || (c =? 9))%N) with blank_char.
  rewrite !rmatch_Seq, rmatch_Chr. destruct s as [|c s]; [reflexivity|].
  destruct (blank_char c); [|reflexivity]. cbn [andb].
  rewrite rmatch_star_chr, star_chr_exclusive.
  - apply rmatch_Eol.
  - intros x t Hx. cbn [rmatch].
    now rewrite (blank_char_not_terminator x Hx).
Qed.

Lemma take_drop_while_length (p : char -> bool) (s : jsstring) :
  length s - length (drop_while p s) = length (take_while p s).
Proof.
  rewrite <- (take_drop_while p s) at 1. rewrite length_app. lia.
Qed.

(** The second step of [cleanWhitespace], place by place: a run of
    blanks that reaches the end of its line is left out, any other
    character is copied. *)
Lemma trailing_blanks_step (c : char) (s : jsstring) :
  replace_all trailing_blanks_re [] 0 (c :: s) =
  if blank_char c && at_eol (drop_while blank_char s)
  then replace_all trailing_blanks_re [] 0 (drop_while blank_char s)
  else c :: replace_all trailing_blanks_re [] 0 s.
Proof.
  cbn [replace_all]. rewrite trailing_blanks_re_match.
  destruct (blank_char c && at_eol (drop_while blank_char s));
    [|reflexivity].
  cbn [app].
  replace (length (c :: s) - length (drop_while blank_char s))
    with (S (length (take_while blank_char s)))
    by (rewrite <- take_drop_while_length;
        pose proof (drop_while_length blank_char s); cbn [length]; lia).
  rewrite <- (take_drop_while blank_char s) at 2.
  apply replace_all_skip.
Qed.

Lemma trailing_blanks_at_eol (s : jsstring) :
  at_eol (replace_all trailing_blanks_re [] 0 s) =
  at_eol (drop_while blank_char s).
Proof.
  assert (Hd : forall d, at_eol d = true ->
            at_eol (replace_all trailing_blanks_re [] 0 d) = true).
  { intros [|t d] Ht; [reflexivity|]. rewrite trailing_blanks_step.
    cbn [at_eol] in Ht.
    destruct (blank_char t) eqn:E; [|exact Ht].
    apply blank_char_not_terminator in E. congruence. }
  destruct s as [|x s]; [reflexivity|].
  rewrite trailing_blanks_step. cbn [drop_while].
  destruct (blank_char x) eqn:Ex; [|reflexivity]. cbn [andb].
  destruct (at_eol (drop_while blank_char s)) eqn:E.
  - now apply Hd.
  - cbn [at_eol]. now apply blank_char_not_terminator.
Qed.

Lemma trailing_blanks_removed :
  forall n s, length s <= n ->
  trailing_blank_free (replace_all trailing_blanks_re [] 0 s) = true.
Proof.
  induction n as [|n IH]; intros s Hn.
  - destruct s; [reflexivity|cbn [length] in Hn; lia].
  - destruct s as [|c s]; [reflexivity|]. rewrite trailing_blanks_step.
    destruct (blank_char c && at_eol (drop_while blank_char s)) eqn:E.
    + apply IH. pose proof (drop_while_length blank_char s).
      cbn [length] in Hn. lia.
    + cbn [trailing_blank_free]. rewrite trailing_blanks_at_eol, E.
      cbn [negb andb]. apply IH. cbn [length] in Hn. lia.
Qed.

Lemma at_eol_line_breaks (body : jsstring) (j : nat) :
  at_eol (body ++ [LF]) = at_eol (body ++ repeat LF j).
Proof.
  destruct body as [|c body]; [|reflexivity].
  destruct j; reflexivity.
Qed.

Lemma trailing_blank_free_end (body : jsstring) (j : nat) :
  trailing_blank_free (body ++ repeat LF j) = true ->
  trailing_blank_free (body ++ [LF]) = true.
Proof.
  induction body as [|c body IH]; intros H; [reflexivity|].
  cbn [app trailing_blank_free] in *. apply andb_prop in H.
  destruct H as [H1 H2]. rewrite (at_eol_line_breaks body j), H1.
  now apply IH.
Qed.

(** X16.  In the text [cleanWhitespace] returns, no line ends with a
    space or a tab: no space or tab stands before a line terminator or
    at the end of the text. *)
Theorem cleanWhitespace_no_trailing_blanks
    (c : configuration) (code : jsstring) :
  trailing_blank_free (cleanWhitespace c code) = true.
Proof.
  unfold cleanWhitespace.
  set (s := replace_all (blank_lines_re (Config.maxEmptyLines c))
              (repeat_LF (Config.maxEmptyLines c)) 0 code).
  pose proof (trailing_blanks_removed (length s) s (Nat.le_refl _)) as H.
  destruct (final_newline_spec (replace_all trailing_blanks_re [] 0 s))
    as (body & j & Hs & Hr & _).
  rewrite Hr. rewrite Hs in H. now apply trailing_blank_free_end in H.
Qed.

Lemma count_LF_cons (c : char) (s : jsstring) :
  count_LF (c :: s) = (if char_eqb LF c then 1 else 0) + count_LF s.
Proof. unfold count_LF. cbn [filter]. now destruct (char_eqb LF c). Qed.

Lemma take_while_app_all (p : char -> bool) (w b : jsstring) :
  forallb p w = true -> take_while p (w ++ b) = w ++ take_while p b.
Proof.
  induction w as [|c w IH]; intros H; [reflexivity|].
  cbn [forallb] in H. apply andb_prop in H. destruct H as [Hc Hw].
  cbn [app take_while]. now rewrite Hc, IH.
Qed.

Lemma runs_bounded_head (k : nat) (s : jsstring) :
  runs_bounded k s = true -> count_LF (take_while is_space s) <= k.
Proof.
  destruct s as [|c s]; [cbn; lia|]. cbn [runs_bounded]. intros H.
  apply andb_prop in H. now apply Nat.leb_le.
Qed.

Lemma runs_bounded_drop_while (k : nat) (p : char -> bool) (s : jsstring) :
  runs_bounded k s = true -> runs_bounded k (drop_while p s) = true.
Proof.
  induction s as [|c s IH]; intros H; [reflexivity|].
  cbn [drop_while]. destruct (p c); [|exact H].
  cbn [runs_bounded] in H. apply andb_prop in H. now apply IH.
Qed.

Lemma runs_bounded_line_breaks (k j : nat) (b : jsstring) :
  j <= k ->
  match b with c :: _ => is_space c = false | [] => True end ->
  runs_bounded k b = true ->
  runs_bounded k (repeat LF j ++ b) = true.
Proof.
  intros Hj Hb Hr. induction j as [|j IH]; [exact Hr|].
  change (repeat LF (S j) ++ b) with (LF :: (repeat LF j ++ b)).
  cbn [runs_bounded].
  change (LF :: (repeat LF j ++ b)) with (repeat LF (S j) ++ b).
  rewrite (proj1 (take_while_line_breaks (S j) b Hb)), count_LF_repeat.
  rewrite IH by lia.
  replace (S j <=? k) with true by (symmetry; apply Nat.leb_le; lia).
  reflexivity.
Qed.

(** What a bound on the runs says: a piece of the text that is white
    space only holds no more line breaks than the bound. *)
Lemma runs_bounded_spec (k : nat) (a w b : jsstring) :
  runs_bounded k (a ++ w ++ b) = true ->
  forallb is_space w = true -> count_LF w <= k.
Proof.
  intros H Hw. induction a as [|x a IH].
  - cbn [app] in H. apply runs_bounded_head in H.
    rewrite (take_while_app_all is_space w b Hw), count_LF_app in H. lia.
  - cbn [app runs_bounded] in H. apply andb_prop in H. now apply IH.
Qed.

(** The first step of [cleanWhitespace], place by place: at a line break
    that starts a run of white space with more than [k] line breaks the
    whole run becomes [k] line breaks, any other character is copied. *)
Lemma blank_lines_step (k : nat) (c : char) (s : jsstring) :
  replace_all (blank_lines_re k) (repeat_LF k) 0 (c :: s) =
  if starts_with_LF (c :: s)
     && (k + 1 <=? count_LF (take_while is_space (c :: s)))
  then repeat LF k ++
       replace_all (blank_lines_re k) (repeat_LF k) 0
                   (drop_while is_space s)
  else c :: replace_all (blank_lines_re k) (repeat_LF k) 0 s.
Proof.
  cbn [replace_all]. rewrite blank_lines_re_match.
  destruct (starts_with_LF (c :: s)
            && (k + 1 <=? count_LF (take_while is_space (c :: s)))) eqn:E;
    [|reflexivity].
  apply andb_prop in E. destruct E as [Ec _]. cbn [starts_with_LF] in Ec.
  apply char_eqb_eq in Ec. subst c. cbn [drop_while].
  change (is_space LF) with true. cbv iota. unfold repeat_LF. f_equal.
  replace (length (LF :: s) - length (drop_while is_space s))
    with (S (length (take_while is_space s)))
    by (rewrite <- take_drop_while_length;
        pose proof (drop_while_length is_space s); cbn [length]; lia).
  rewrite <- (take_drop_while is_space s) at 2.
  apply replace_all_skip.
Qed.

Lemma blank_lines_nil (k : nat) :
  replace_all (blank_lines_re k) (repeat_LF k) 0 [] = [].
Proof. cbn [replace_all]. now rewrite blank_lines_re_match. Qed.

Lemma blank_lines_head (k : nat) (d : jsstring) :
  match d with c :: _ => is_space c = false | [] => True end ->
  match replace_all (blank_lines_re k) (repeat_LF k) 0 d with
  | c :: _ => is_space c = false
  | [] => True
  end.
Proof.
  destruct d as [|c d]; [intros _; now rewrite blank_lines_nil|].
  intros Hc.
  rewrite blank_lines_step. cbn [starts_with_LF].
  replace (char_eqb LF c) with false; [exact Hc|].
  symmetry. destruct (char_eqb LF c) eqn:E; [|reflexivity].
  apply char_eqb_eq in E. now subst c.
Qed.

Lemma blank_lines_bounded (k : nat) :
  forall n s, length s <= n ->
  runs_bounded k (replace_all (blank_lines_re k) (repeat_LF k) 0 s) = true /\
  count_LF (take_while is_space
              (replace_all (blank_lines_re k) (repeat_LF k) 0 s))
    <= count_LF (take_while is_space s).
Proof.
  induction n as [|n IH]; intros s Hn.
  - destruct s; [|cbn [length] in Hn; lia].
    rewrite blank_lines_nil. split; [reflexivity|cbn; lia].
  - destruct s as [|c s];
      [rewrite blank_lines_nil; split; [reflexivity|cbn; lia]|].
    cbn [length] in Hn. rewrite blank_lines_step.
    destruct (starts_with_LF (c :: s)
              && (k + 1 <=? count_LF (take_while is_space (c :: s)))) eqn:E.
    + apply andb_prop in E. destruct E as [_ E]. apply Nat.leb_le in E.
      pose proof (drop_while_length is_space s) as Hd.
      destruct (IH (drop_while is_space s)) as [IH1 _]; [lia|].
      pose proof (blank_lines_head k _ (drop_while_head is_space s)) as Hh.
      split.
      * now apply runs_bounded_line_breaks.
      * rewrite (proj1 (take_while_line_breaks k _ Hh)), count_LF_repeat.
        lia.
    + destruct (IH s) as [IH1 IH2]; [lia|].
      assert (Hle : count_LF (take_while is_space
                      (c :: replace_all (blank_lines_re k) (repeat_LF k) 0 s))
                    <= count_LF (take_while is_space (c :: s))).
      { cbn [take_while]. destruct (is_space c); [|lia].
        rewrite !count_LF_cons. lia. }
      split; [|exact Hle].
      cbn [runs_bounded]. rewrite IH1, andb_true_r. apply Nat.leb_le.
      apply andb_false_iff in E. destruct E as [E|E].
      * cbn [starts_with_LF] in E.
        apply runs_bounded_head in IH1.
        cbn [take_while]. destruct (is_space c); [|cbn; lia].
        rewrite count_LF_cons, E. lia.
      * apply Nat.leb_gt in E. lia.
Qed.

Lemma blank_char_space (c : char) : blank_char c = true -> is_space c = true.
Proof.
  unfold blank_char. intros H. apply orb_prop in H.
  destruct H as [H|H]; apply N.eqb_eq in H; subst c; reflexivity.
Qed.

Lemma count_LF_drop_blanks (s : jsstring) :
  count_LF (take_while is_space (drop_while blank_char s)) =
  count_LF (take_while is_space s).
Proof.
  induction s as [|c s IH]; [reflexivity|].
  cbn [drop_while]. destruct (blank_char c) eqn:E; [|reflexivity].
  rewrite IH. unfold blank_char in E. apply orb_prop in E.
  destruct E as [E|E]; apply N.eqb_eq in E; subst c; reflexivity.
Qed.

Lemma trailing_blanks_count :
  forall n s, length s <= n ->
  count_LF (take_while is_space (replace_all trailing_blanks_re [] 0 s))
    <= count_LF (take_while is_space s).
Proof.
  induction n as [|n IH]; intros s Hn.
  - destruct s; [cbn; lia|cbn [length] in Hn; lia].
  - destruct s as [|c s]; [cbn; lia|]. cbn [length] in Hn.
    rewrite trailing_blanks_step.
    destruct (blank_char c && at_eol (drop_while blank_char s)) eqn:E.
    + pose proof (drop_while_length blank_char s) as Hd.
      assert (H := IH (drop_while blank_char s) ltac:(lia)).
      rewrite count_LF_drop_blanks in H.
      apply andb_prop in E. destruct E as [E _].
      cbn [take_while]. rewrite (blank_char_space c E), count_LF_cons. lia.
    + assert (H := IH s ltac:(lia)). cbn [take_while].
      destruct (is_space c); [rewrite !count_LF_cons|]; lia.
Qed.

Lemma trailing_blanks_bounded (k : nat) :
  forall n s, length s <= n ->
  runs_bounded k s = true ->
  runs_bounded k (replace_all trailing_blanks_re [] 0 s) = true.
Proof.
  induction n as [|n IH]; intros s Hn Hr.
  - destruct s; [reflexivity|cbn [length] in Hn; lia].
  - destruct s as [|c s]; [reflexivity|]. cbn [length] in Hn.
    pose proof (trailing_blanks_count (S (length s)) (c :: s)
                  (Nat.le_refl _)) as Hc.
    pose proof (runs_bounded_head k _ Hr) as Hh.
    rewrite trailing_blanks_step in *.
    cbn [runs_bounded] in Hr. apply andb_prop in Hr. destruct Hr as [_ Hr].
    destruct (blank_char c && at_eol (drop_while blank_char s)).
    + pose proof (drop_while_length blank_char s) as Hd.
      apply IH; [lia|]. now apply runs_bounded_drop_while.
    + cbn [runs_bounded]. rewrite (IH s) by (lia || assumption).
      rewrite andb_true_r. apply Nat.leb_le. lia.
Qed.

Lemma count_LF_final_line_break (a b : jsstring) :
  count_LF (take_while is_space (a ++ [LF]))
    <= count_LF (take_while is_space (a ++ b)) + 1.
Proof.
  induction a as [|c a IH]; [cbn; lia|].
  cbn [app take_while]. destruct (is_space c); [|cbn; lia].
  rewrite !count_LF_cons. lia.
Qed.

Lemma final_line_break_bounded (k : nat) (body b : jsstring) :
  runs_bounded k (body ++ b) = true ->
  runs_bounded (k + 1) (body ++ [LF]) = true.
Proof.
  induction body as [|c body IH]; intros H.
  - rewrite Nat.add_1_r. reflexivity.
  - pose proof (runs_bounded_head k _ H) as Hh.
    pose proof (count_LF_final_line_break (c :: body) b) as Hc.
    cbn [app runs_bounded] in H. apply andb_prop in H. destruct H as [_ H].
    change ((c :: body) ++ [LF]) with (c :: (body ++ [LF])) in *.
    cbn [runs_bounded]. rewrite (IH H), andb_true_r.
    apply Nat.leb_le. lia.
Qed.

Lemma cleanWhitespace_runs (c : configuration) (code : jsstring) :
  runs_bounded (Config.maxEmptyLines c + 1) (cleanWhitespace c code) = true.
Proof.
  unfold cleanWhitespace.
  set (k := Config.maxEmptyLines c).
  set (s := replace_all (blank_lines_re k) (repeat_LF k) 0 code).
  destruct (blank_lines_bounded k (length code) code (Nat.le_refl _))
    as [H1 _]. fold s in H1.
  pose proof (trailing_blanks_bounded k (length s) s (Nat.le_refl _) H1)
    as H2.
  destruct (final_newline_spec (replace_all trailing_blanks_re [] 0 s))
    as (body & j & Hs & Hr & _).
  rewrite Hr. rewrite Hs in H2. now apply final_line_break_bounded in H2.
Qed.

(** X17.  In the text [cleanWhitespace] returns, no stretch of white
    space holds more than [maxEmptyLines + 1] line breaks, whatever the
    text was. *)
Theorem cleanWhitespace_line_breaks_bounded
    (c : configuration) (code a w b : jsstring) :
  cleanWhitespace c code = a ++ w ++ b ->
  forallb is_space w = true ->
  count_LF w <= Config.maxEmptyLines c + 1.
Proof.
  intros E Hw. apply (runs_bounded_spec _ a w b); [|exact Hw].
  rewrite <- E. apply cleanWhitespace_runs.
Qed.

Lemma cleanWhitespace_line_breaks_bounded_witness :
  cleanWhitespace default_configuration (js "x" ++ repeat LF 5 ++ js "y")
    = js "x" ++ [LF; LF] ++ (js "y" ++ [LF]) /\
  forallb is_space [LF; LF] = true /\
  count_LF [LF; LF] <= Config.maxEmptyLines default_configuration + 1.
Proof.
  split; [reflexivity|]. split; [reflexivity|].
  exact (cleanWhitespace_line_breaks_bounded default_configuration
           (js "x" ++ repeat LF 5 ++ js "y") (js "x") [LF; LF]
           (js "y" ++ [LF]) eq_refl eq_refl).
Defined.

Lemma runs_bounded_0 (s : jsstring) :
  runs_bounded 0 s = true -> forallb not_LF s = true.
Proof.
  induction s as [|c s IH]; intros H; [reflexivity|].
  pose proof (runs_bounded_head 0 _ H) as Hh.
  cbn [runs_bounded] in H. apply andb_prop in H. destruct H as [_ H].
  cbn [forallb]. rewrite (IH H), andb_true_r.
  unfold not_LF. destruct (char_eqb c LF) eqn:E; [|reflexivity].
  apply char_eqb_eq in E. subst c. cbn [take_while] in Hh.
  change (is_space LF) with true in Hh. cbv iota in Hh.
  rewrite count_LF_cons in Hh. change (char_eqb LF LF) with true in Hh.
  cbv iota in Hh. lia.
Qed.

Lemma forallb_drop_while (p q : char -> bool) (s : jsstring) :
  forallb p s = true -> forallb p (drop_while q s) = true.
Proof.
  induction s as [|c s IH]; intros H; [reflexivity|].
  cbn [drop_while]. destruct (q c); [|exact H].
  cbn [forallb] in H. apply andb_prop in H. now apply IH.
Qed.

Lemma trailing_blanks_forallb (p : char -> bool) :
  forall n s, length s <= n ->
  forallb p s = true ->
  forallb p (replace_all trailing_blanks_re [] 0 s) = true.
Proof.
  induction n as [|n IH]; intros s Hn Hp.
  - destruct s; [reflexivity|cbn [length] in Hn; lia].
  - destruct s as [|c s]; [reflexivity|]. cbn [length] in Hn.
    rewrite trailing_blanks_step.
    cbn [forallb] in Hp. apply andb_prop in Hp. destruct Hp as [Hc Hp].
    destruct (blank_char c && at_eol (drop_while blank_char s)).
    + pose proof (drop_while_length blank_char s) as Hd.
      apply IH; [lia|]. now apply forallb_drop_while.
    + cbn [forallb]. rewrite Hc. apply IH; [lia|exact Hp].
Qed.

Lemma repeat_LF_spaces (k : nat) : forallb is_space (repeat LF k) = true.
Proof. induction k as [|k IH]; [reflexivity|exact IH]. Qed.

Lemma replace_all_deletes (r : regex) (s : jsstring) :
  forall skip, subsequence (replace_all r [] skip s) s.
Proof.
  induction s as [|c s IH]; intros skip.
  - destruct skip; cbn [replace_all app]; [|constructor].
    destruct (match_here r []); [|constructor].
    destruct (length (@nil char) - length j); constructor.
  - destruct skip as [|n]; cbn [replace_all app].
    + destruct (match_here r (c :: s)) as [rest|].
      * destruct (length (c :: s) - length rest).
        -- apply sub_keep, IH.
        -- apply sub_skip, IH.
      * apply sub_keep, IH.
    + apply sub_skip, IH.
Qed.

Lemma filter_spaces (w : jsstring) :
  forallb is_space w = true -> filter not_space w = [].
Proof.
  induction w as [|c w IH]; intros H; [reflexivity|].
  cbn [forallb] in H. apply andb_prop in H. destruct H as [Hc Hw].
  cbn [filter]. unfold not_space at 1. rewrite Hc. now apply IH.
Qed.

Lemma filter_drop_spaces (p : char -> bool) (s : jsstring) :
  (forall c, p c = true -> is_space c = true) ->
  filter not_space (drop_while p s) = filter not_space s.
Proof.
  intros Hp.
  transitivity (filter not_space (take_while p s ++ drop_while p s));
    [|now rewrite take_drop_while].
  rewrite filter_app, (filter_spaces (take_while p s)); [reflexivity|].
  pose proof (take_while_forallb p s) as H.
  induction (take_while p s) as [|c w IH]; [reflexivity|].
  cbn [forallb] in *. apply andb_prop in H. destruct H as [Hc Hw].
  now rewrite (Hp c Hc), IH.
Qed.

Lemma blank_lines_filter (k : nat) :
  forall n s, length s <= n ->
  filter not_space (replace_all (blank_lines_re k) (repeat_LF k) 0 s) =
  filter not_space s.
Proof.
  induction n as [|n IH]; intros s Hn.
  - destruct s; [|cbn [length] in Hn; lia]. now rewrite blank_lines_nil.
  - destruct s as [|c s]; [now rewrite blank_lines_nil|].
    cbn [length] in Hn. rewrite blank_lines_step.
    destruct (starts_with_LF (c :: s)
              && (k + 1 <=? count_LF (take_while is_space (c :: s)))) eqn:E.
    + apply andb_prop in E. destruct E as [Ec _].
      cbn [starts_with_LF] in Ec. apply char_eqb_eq in Ec. subst c.
      pose proof (drop_while_length is_space s) as Hd.
      rewrite filter_app, (filter_spaces _ (repeat_LF_spaces k)).
      cbn [app]. rewrite IH by lia.
      rewrite (filter_drop_spaces is_space s) by auto. reflexivity.
    + cbn [filter]. now rewrite IH by lia.
Qed.

Lemma trailing_blanks_filter :
  forall n s, length s <= n ->
  filter not_space (replace_all trailing_blanks_re [] 0 s) =
  filter not_space s.
Proof.
  induction n as [|n IH]; intros s Hn.
  - destruct s; [reflexivity|cbn [length] in Hn; lia].
  - destruct s as [|c s]; [reflexivity|]. cbn [length] in Hn.
    rewrite trailing_blanks_step.
    destruct (blank_char c && at_eol (drop_while blank_char s)) eqn:E.
    + apply andb_prop in E. destruct E as [Ec _].
      pose proof (drop_while_length blank_char s) as Hd.
      rewrite IH by lia.
      rewrite (filter_drop_spaces blank_char s) by apply blank_char_space.
      cbn [filter]. unfold not_space at 2.
      now rewrite (blank_char_space c Ec).
    + cbn [filter]. now rewrite IH by lia.
Qed.

(** [cleanWhitespace] changes white space only. *)
Lemma cleanWhitespace_filter (c : configuration) (code : jsstring) :
  filter not_space (cleanWhitespace c code) = filter not_space code.
Proof.
  unfold cleanWhitespace.
  set (k := Config.maxEmptyLines c).
  set (s := replace_all (blank_lines_re k) (repeat_LF k) 0 code).
  pose proof (blank_lines_filter k (length code) code (Nat.le_refl _)) as H1.
  fold s in H1.
  pose proof (trailing_blanks_filter (length s) s (Nat.le_refl _)) as H2.
  destruct (final_newline_spec (replace_all trailing_blanks_re [] 0 s))
    as (body & j & Hs & Hr & _).
  rewrite Hr, <- H1, <- H2, Hs, !filter_app.
  rewrite (filter_spaces _ (repeat_LF_spaces j)). reflexivity.
Qed.

(** X18.  With [maxEmptyLines] set to 0, [cleanWhitespace] joins the
    lines of the text: what it returns is the text with white space
    taken out and nothing else (every other character stays, in its
    order), among it every line feed, followed by one line feed; so
    the result is one line. *)
Theorem cleanWhitespace_zero_joins_lines
    (c : configuration) (code : jsstring) :
  Config.maxEmptyLines c = 0 ->
  exists body,
    cleanWhitespace c code = body ++ [LF] /\
    forallb not_LF body = true /\
    subsequence body code /\
    filter not_space body = filter not_space code.
Proof.
  intros Hk.
  pose proof (cleanWhitespace_filter c code) as Hf. revert Hf.
  unfold cleanWhitespace. rewrite Hk.
  set (s := replace_all (blank_lines_re 0) (repeat_LF 0) 0 code).
  intros Hf.
  destruct (blank_lines_bounded 0 (length code) code (Nat.le_refl _))
    as [H1 _]. fold s in H1. apply runs_bounded_0 in H1.
  pose proof (trailing_blanks_forallb not_LF (length s) s (Nat.le_refl _) H1)
    as H2.
  assert (Hsub : subsequence (replace_all trailing_blanks_re [] 0 s) code).
  { eapply subsequence_trans; [apply replace_all_deletes|].
    apply (replace_all_deletes (blank_lines_re 0) code 0). }
  destruct (final_newline_spec (replace_all trailing_blanks_re [] 0 s))
    as (body & j & Hs & Hr & _).
  exists body. split; [exact Hr|]. split; [|split].
  - rewrite Hs, forallb_app in H2. now apply andb_prop in H2.
  - eapply subsequence_trans; [|exact Hsub].
    apply subsequence_prefix. exists (repeat LF j). exact Hs.
  - rewrite Hr, filter_app in Hf. cbn [filter] in Hf.
    change (not_space LF) with false in Hf. cbv iota in Hf.
    now rewrite app_nil_r in Hf.
Qed.

Lemma cleanWhitespace_zero_joins_lines_witness :
  Config.maxEmptyLines
    (Config.mkConfiguration true true false true true true true true true
       0 true) = 0 /\
  exists body,
    cleanWhitespace
      (Config.mkConfiguration true true false true true true true true true
         0 true)
      (js "a();" ++ LF :: js "b();") = body ++ [LF] /\
    forallb not_LF body = true /\
    subsequence body (js "a();" ++ LF :: js "b();") /\
    filter not_space body = filter not_space (js "a();" ++ LF :: js "b();").
Proof.
  split; [reflexivity|].
  exact (cleanWhitespace_zero_joins_lines
           (Config.mkConfiguration true true false true true true true true
              true 0 true)
           (js "a();" ++ LF :: js "b();") eq_refl).
Defined.

(** ** The report and the preview *)

Lemma push_by_type_fold (l : list removed_statement) :
  forall byType,
  let bucket ty :=
    filter (fun r => statement_type_eqb (type (removed r)) ty) l in
  fold_left push_by_type l byType =
  mkByType (by_console byType ++ bucket console)
           (by_print byType ++ bucket print)
           (by_debugger byType ++ bucket debugger)
           (by_system_out byType ++ bucket system_out).
Proof.
  cbv zeta. induction l as [|r l IH]; intros byType.
  - cbn [fold_left filter]. rewrite !app_nil_r. now destruct byType.
  - cbn [fold_left filter]. rewrite IH. unfold push_by_type.
    destruct (type (removed r));
      cbn [statement_type_eqb by_console by_print by_debugger by_system_out];
      rewrite <- ?app_assoc; reflexivity.
Qed.

Lemma buckets_length (l : list removed_statement) :
  let bucket ty :=
    filter (fun r => statement_type_eqb (type (removed r)) ty) l in
  length l = length (bucket console) + length (bucket print)
             + length (bucket debugger) + length (bucket system_out).
Proof.
  cbv zeta. induction l as [|r l IH]; [reflexivity|].
  cbn [filter]. destruct (type (removed r));
    cbn [statement_type_eqb length]; lia.
Qed.

(** X19.  The report sorts the removed statements by type without
    losing or doubling one: each of its four lists holds the removed
    statements of its type, in the order of the result (by place in the
    text), and for the result of a removal the four lengths add up to
    the count of removed statements. *)
Theorem report_statements_by_type
    (this : cleaner) (code : jsstring) (statements : list statement) :
  let result := fst (removeDebugStatements this code statements) in
  let report := generateCleanupReport code result in
  let bucket ty :=
    filter (fun r => statement_type_eqb (type (removed r)) ty)
           (removedStatements result) in
  by_console (statementsByType report) = bucket console /\
  by_print (statementsByType report) = bucket print /\
  by_debugger (statementsByType report) = bucket debugger /\
  by_system_out (statementsByType report) = bucket system_out /\
  report_removedCount report =
    length (by_console (statementsByType report))
    + length (by_print (statementsByType report))
    + length (by_debugger (statementsByType report))
    + length (by_system_out (statementsByType report)).
Proof.
  cbv zeta. unfold generateCleanupReport, getStatementsByType.
  cbn [statementsByType report_removedCount].
  rewrite push_by_type_fold.
  cbn [by_console by_print by_debugger by_system_out app].
  repeat split.
  rewrite removeDebugStatements_count. apply buckets_length.
Qed.

Lemma subsequence_count_LF (a b : jsstring) :
  subsequence a b -> count_LF a <= count_LF b.
Proof.
  induction 1 as [|c a b H IH|c a b H IH]; [lia| |];
    rewrite ?count_LF_cons; lia.
Qed.

(** X20.  The line counts of the report are the numbers of line breaks
    plus one, and [linesReduced] is the number of line breaks the
    cleaning took out; without the whitespace cleaning, and for
    statements whose start is not after their end, it is never
    negative. *)
Theorem report_lines_reduced
    (this : cleaner) (code : jsstring) (statements : list statement) :
  Config.cleanWhitespace (config this) = false ->
  Forall (fun st => start st <= end_ st) statements ->
  let result := fst (removeDebugStatements this code statements) in
  let report := generateCleanupReport code result in
  originalLines report = count_LF code + 1 /\
  cleanedLines report = count_LF (cleanCode result) + 1 /\
  linesReduced report =
    (Z.of_nat (count_LF code) - Z.of_nat (count_LF (cleanCode result)))%Z /\
  (0 <= linesReduced report)%Z.
Proof.
  intros Hws Hst. cbv zeta.
  pose proof (subsequence_count_LF _ _
                (removeDebugStatements_subsequence this code statements
                   Hws Hst)) as Hle.
  unfold generateCleanupReport.
  cbn [originalLines cleanedLines linesReduced].
  rewrite !length_split_lines. repeat split; lia.
Qed.

Lemma report_lines_reduced_witness :
  Config.cleanWhitespace
    (config (mkCleaner (Config.mkConfiguration true true false true true true
                          true true true 2 false) [])) = false /\
  Forall (fun st => start st <= end_ st) (fallbackRegexParse inline_code) /\
  (let result :=
     fst (removeDebugStatements
            (mkCleaner (Config.mkConfiguration true true false true true true
                          true true true 2 false) [])
            inline_code (fallbackRegexParse inline_code)) in
   let report := generateCleanupReport inline_code result in
   originalLines report = count_LF inline_code + 1 /\
   cleanedLines report = count_LF (cleanCode result) + 1 /\
   linesReduced report =
     (Z.of_nat (count_LF inline_code)
      - Z.of_nat (count_LF (cleanCode result)))%Z /\
   (0 <= linesReduced report)%Z).
Proof.
  assert (H2 : Forall (fun st => start st <= end_ st)
                 (fallbackRegexParse inline_code)).
  { eapply Forall_impl; [|apply fallbackRegexParse_offsets].
    intros st (_ & Hlt & _). lia. }
  split; [reflexivity|]. split; [exact H2|].
  exact (report_lines_reduced
           (mkCleaner (Config.mkConfiguration true true false true true true
                         true true true 2 false) [])
           inline_code (fallbackRegexParse inline_code) eq_refl H2).
Defined.

Lemma filter_map_commute (A B : Type) (f : A -> B) (p : B -> bool)
    (l : list A) :
  filter p (List.map f l) = List.map f (filter (fun x => p (f x)) l).
Proof.
  induction l as [|x l IH]; [reflexivity|].
  cbn [List.map filter]. destruct (p (f x)); cbn [List.map]; now rewrite IH.
Qed.

(** The sort is stable: the elements of a class whose members compare
    as equal keep the order they had. *)
Lemma sort_insert_stable (A : Type) (cmp : A -> A -> Z) (p : A -> bool)
    (x : A) (l : list A) :
  (forall a b, p a = true -> p b = true -> (cmp a b <= 0)%Z) ->
  filter p (sort_insert cmp x l) = filter p (x :: l).
Proof.
  intros Hp. induction l as [|y l IH]; [reflexivity|].
  cbn [sort_insert]. destruct (cmp x y <=? 0)%Z eqn:E; [reflexivity|].
  apply Z.leb_gt in E. cbn [filter] in *. rewrite IH.
  destruct (p x) eqn:Ex; [|reflexivity].
  destruct (p y) eqn:Ey; [|reflexivity].
  pose proof (Hp x y Ex Ey). lia.
Qed.

Lemma js_sort_stable (A : Type) (cmp : A -> A -> Z) (p : A -> bool)
    (l : list A) :
  (forall a b, p a = true -> p b = true -> (cmp a b <= 0)%Z) ->
  filter p (js_sort cmp l) = filter p l.
Proof.
  intros Hp. induction l as [|x l IH]; [reflexivity|].
  cbn [js_sort fold_right]. fold (js_sort cmp l).
  rewrite (sort_insert_stable A cmp p x _ Hp). cbn [filter].
  now rewrite IH.
Qed.

(** X21.  The preview lists every statement it is given, whether the
    settings would let it be removed or not, ordered by line; the
    statements of one line come in the order they were given. *)
Theorem previewChanges_order (code : jsstring) (statements : list statement) :
  let changes := previewChanges code statements in
  StronglySorted (fun a b => change_line a <= change_line b) changes /\
  length changes = length statements /\
  forall n,
    List.map (fun ch => (change_type ch, change_text ch))
             (filter (fun ch => change_line ch =? n) changes) =
    List.map (fun st => (type st, text st))
             (filter (fun st => line st =? n) statements).
Proof.
  cbv zeta. unfold previewChanges. repeat split.
  - apply js_sort_sorted.
    + intros x y H. unfold by_line_ascending in H. lia.
    + intros x y H. unfold by_line_ascending in H. lia.
    + intros x y z. lia.
  - rewrite (Permutation_length (js_sort_perm _ _ _)). apply length_map.
  - intros n. rewrite js_sort_stable.
    + rewrite filter_map_commute, map_map. cbn [change_line change_type
        change_text]. reflexivity.
    + intros a b Ha Hb. apply Nat.eqb_eq in Ha, Hb.
      unfold by_line_ascending. lia.
Qed.

(** X22.  The cleaner finds a scanned statement where the scan placed
    it: the line of [analyzeStatementContext] is the line of the
    statement (counted from 0 there, from 1 in the statement), the text
    before the statement in that line is as long as the column, and
    the line, trimmed, is the recorded line content. *)
Theorem cleaner_finds_scanned_line
    (babel : parse_outcome) (code : jsstring)
    (log : list jsstring) (statements : list statement) :
  (forall visited, babel = Parsed visited ->
     Forall (fun n => node_start n <= length code) visited) ->
  parseCode babel code = (log, Returns statements) ->
  Forall (fun st =>
            let context := analyzeStatementContext code st in
            S (lineNumber context) = line st /\
            length (beforeInLine context) = column st /\
            trim (context_line context) = lineContent st)
         statements.
Proof.
  intros Hnodes H.
  eapply Forall_impl; [|exact (parseCode_statements_placed _ _ _ _ Hnodes H)].
  intros st [Hs Hp]. now apply context_of_placed.
Qed.

Lemma cleaner_finds_scanned_line_witness :
  (forall visited, ParseError (js "Unexpected token") = Parsed visited ->
     Forall (fun n => node_start n <= length print_around_log) visited) /\
  parseCode (ParseError (js "Unexpected token")) print_around_log
    = ([js "Unexpected token"],
       Returns (fallbackRegexParse print_around_log)) /\
  Forall (fun st =>
            let context := analyzeStatementContext print_around_log st in
            S (lineNumber context) = line st /\
            length (beforeInLine context) = column st /\
            trim (context_line context) = lineContent st)
         (fallbackRegexParse print_around_log).
Proof.
  assert (H1 : forall visited,
            ParseError (js "Unexpected token") = Parsed visited ->
            Forall (fun n => node_start n <= length print_around_log) visited)
    by (intros visited E; discriminate E).
  split; [exact H1|]. split; [reflexivity|].
  exact (cleaner_finds_scanned_line (ParseError (js "Unexpected token"))
           print_around_log [js "Unexpected token"]
           (fallbackRegexParse print_around_log) H1 eq_refl).
Defined.

(** ** Statements on lines of their own *)

Lemma sort_insert_last (A : Type) (cmp : A -> A -> Z) (x : A) (l : list A) :
  Forall (fun y => (0 < cmp x y)%Z) l -> sort_insert cmp x l = l ++ [x].
Proof.
  induction 1 as [|y l Hy Hl IH]; [reflexivity|].
  cbn [sort_insert app]. replace (cmp x y <=? 0)%Z with false
    by (symmetry; apply Z.leb_gt; exact Hy).
  now rewrite IH.
Qed.

Lemma js_sort_descending_rev (l : list statement) :
  StronglySorted (fun a b => start a < start b) l ->
  js_sort by_start_descending l = rev l.
Proof.
  induction 1 as [|x l Hs IH Hx]; [reflexivity|].
  cbn [js_sort fold_right]. fold (js_sort by_start_descending l).
  rewrite IH. cbn [rev]. apply sort_insert_last.
  apply Forall_forall. intros y Hy. apply in_rev in Hy.
  pose proof (proj1 (Forall_forall _ _) Hx y Hy) as Hlt. cbn beta in Hlt.
  unfold by_start_descending. lia.
Qed.

Lemma own_lines_starts (pieces : list own_line) :
  forall off statements,
  own_lines off pieces statements ->
  Forall (fun st => off <= start st) statements /\
  StronglySorted (fun a b => start a < start b) statements.
Proof.
  induction pieces as [|p ps IH]; intros off [|st sts] H;
    cbn [own_lines] in H; try contradiction.
  - split; constructor.
  - destruct H as (_ & _ & _ & Hnl & Hs & He & H).
    destruct (IH _ _ H) as [Hoff Hsorted].
    assert (Hlen : 0 < length (line_break p))
      by (destruct Hnl as [->| ->]; cbn; lia).
    split.
    + constructor; [lia|].
      eapply Forall_impl; [|exact Hoff]. cbn beta. intros a Ha. lia.
    + constructor; [exact Hsorted|].
      eapply Forall_impl; [|exact Hoff]. cbn beta. intros a Ha. lia.
Qed.

Lemma own_lines_length (pieces : list own_line) :
  forall off statements,
  own_lines off pieces statements -> length statements = length pieces.
Proof.
  induction pieces as [|p ps IH]; intros off [|st sts] H;
    cbn [own_lines] in H; try contradiction; [reflexivity|].
  destruct H as (_ & _ & _ & _ & _ & _ & H). cbn [length].
  now rewrite (IH _ _ H).
Qed.

Lemma line_start_app (pre k : jsstring) :
  pre = [] \/ (exists p', pre = p' ++ [LF]) ->
  k = [] \/ (exists k', k = k' ++ [LF]) ->
  pre ++ k = [] \/ (exists p', pre ++ k = p' ++ [LF]).
Proof.
  intros Hpre [->|(k' & ->)].
  - now rewrite app_nil_r.
  - right. exists (pre ++ k'). now rewrite app_assoc.
Qed.

(** The loop of [removeDebugStatements] on such a text, from the last
    statement to the first: each turn takes the line of its statement
    and leaves the offsets of the statements before it as they are. *)
Lemma remove_loop_own_lines (pieces : list own_line) (tail : jsstring) :
  forall pre statements n acc,
  pre = [] \/ (exists p', pre = p' ++ [LF]) ->
  own_lines (length pre) pieces statements ->
  fst (fst (fold_left remove_step (rev statements)
              (pre ++ full_text pieces tail, n, acc))) =
  pre ++ kept_text pieces tail.
Proof.
  induction pieces as [|p ps IH]; intros pre [|st sts] n acc Hpre H;
    cbn [own_lines] in H; try contradiction; [reflexivity|].
  destruct H as (Hk & Hi1 & Hi2 & Hnl & Hs & He & H).
  cbn [rev full_text kept_text]. rewrite fold_left_app. cbn [fold_left].
  set (pre' := pre ++ kept p ++ indent p ++ body p ++ line_break p).
  assert (Hlen : length pre' = end_ st + length (line_break p))
    by (unfold pre'; rewrite He, Hs, !length_app; lia).
  assert (Hpre' : pre' = [] \/ (exists p', pre' = p' ++ [LF])).
  { right. unfold pre'. destruct Hnl as [->| ->].
    - exists (pre ++ kept p ++ indent p ++ body p).
      now rewrite <- !app_assoc.
    - exists (pre ++ kept p ++ indent p ++ body p ++ [CR]).
      now rewrite <- !app_assoc. }
  rewrite <- Hlen in H.
  pose proof (IH pre' sts n acc Hpre' H) as Hrest.
  replace (pre ++ kept p ++ indent p ++ body p ++ line_break p
           ++ full_text ps tail)
    with (pre' ++ full_text ps tail)
    by (unfold pre'; now rewrite <- !app_assoc).
  destruct (fold_left remove_step (rev sts) (pre' ++ full_text ps tail, n, acc))
    as [[code1 n1] acc1].
  cbn [fst] in Hrest. subst code1. unfold remove_step.
  replace (pre' ++ kept_text ps tail)
    with ((pre ++ kept p) ++ indent p ++ body p
          ++ (line_break p ++ kept_text ps tail))
    by (unfold pre'; now rewrite <- !app_assoc).
  rewrite (removeStatement_own_line (pre ++ kept p) (indent p) (body p)
             (line_break p ++ kept_text ps tail) st).
  - cbn [fst]. rewrite <- app_assoc. f_equal. f_equal.
    destruct Hnl as [->| ->]; reflexivity.
  - now apply line_start_app.
  - exact Hi1.
  - exact Hi2.
  - rewrite Hs, !length_app. lia.
  - exact He.
  - destruct Hnl as [->| ->]; reflexivity.
Qed.

Lemma filter_all (A : Type) (p : A -> bool) (l : list A) :
  Forall (fun x => p x = true) l -> filter p l = l.
Proof.
  induction 1 as [|x l Hx Hl IH]; [reflexivity|].
  cbn [filter]. now rewrite Hx, IH.
Qed.

(** X23.  Statements that stand on lines of their own, with at most
    blanks before them and the line break right after them, are removed
    with their lines and nothing else changes: the clean text is the
    text without these lines, and every statement is counted.  (The
    statements are those the settings let through; the whitespace
    cleaning, when it is on, is applied to that text.) *)
Theorem own_line_statements_removed
    (this : cleaner) (pieces : list own_line) (tail : jsstring)
    (statements : list statement) :
  own_lines 0 pieces statements ->
  Forall (fun st => keep_statement (config this) st = true) statements ->
  let result :=
    fst (removeDebugStatements this (full_text pieces tail) statements) in
  cleanCode result =
    (if Config.cleanWhitespace (config this) && negb (length statements =? 0)
     then cleanWhitespace (config this) (kept_text pieces tail)
     else kept_text pieces tail) /\
  removedCount result = length statements.
Proof.
  intros Hown Hkeep. cbv zeta.
  split; [|rewrite removeDebugStatements_count, removeDebugStatements_removed;
           rewrite length_rev, length_map;
           rewrite (Permutation_length (js_sort_perm _ _ _));
           unfold filterStatementsByConfig; now rewrite filter_all].
  unfold removeDebugStatements.
  destruct (length statements =? 0) eqn:E0.
  - apply Nat.eqb_eq in E0. destruct statements; [|discriminate].
    destruct pieces; [|contradiction]. rewrite andb_false_r. reflexivity.
  - cbn [config]. unfold filterStatementsByConfig.
    rewrite (filter_all _ _ _ Hkeep), E0.
    rewrite (js_sort_descending_rev statements)
      by (apply (own_lines_starts pieces 0), Hown).
    pose proof (remove_loop_own_lines pieces tail [] statements 0
                  (this_removedStatements (mkCleaner (config this) []))
                  (or_introl eq_refl) Hown) as Hloop.
    cbn [app] in Hloop.
    destruct (fold_left remove_step (rev statements) _) as [[c n] acc].
    cbn [fst] in Hloop. subst c. cbn [fst cleanCode negb].
    now rewrite andb_true_r.
Qed.

Lemma own_line_statements_removed_witness :
  own_lines 0 two_own_lines two_statements /\
  Forall (fun st => keep_statement
                      (config (mkCleaner default_configuration [])) st = true)
         two_statements /\
  (let result :=
     fst (removeDebugStatements (mkCleaner default_configuration [])
            (full_text two_own_lines (js "b();")) two_statements) in
   cleanCode result =
     (if Config.cleanWhitespace (config (mkCleaner default_configuration []))
         && negb (length two_statements =? 0)
      then cleanWhitespace (config (mkCleaner default_configuration []))
             (kept_text two_own_lines (js "b();"))
      else kept_text two_own_lines (js "b();")) /\
   removedCount result = length two_statements).
Proof.
  assert (H1 : own_lines 0 two_own_lines two_statements).
  { cbn [own_lines two_own_lines two_statements].
    split; [right; exists (js "a();"); reflexivity|].
    do 2 (split; [reflexivity|]). split; [left; reflexivity|].
    do 2 (split; [reflexivity|]).
    split; [left; reflexivity|].
    do 2 (split; [reflexivity|]). split; [right; reflexivity|].
    do 2 (split; [reflexivity|]). exact I. }
  assert (H2 : Forall (fun st => keep_statement
                         (config (mkCleaner default_configuration [])) st
                       = true) two_statements)
    by (repeat constructor).
  split; [exact H1|]. split; [exact H2|].
  exact (own_line_statements_removed (mkCleaner default_configuration [])
           two_own_lines (js "b();") two_statements H1 H2).
Defined.

(** ** The end of the statements of the lexical scan *)

Lemma after_terminator_head (t : jsstring) :
  match after_terminator t with
  | c :: _ => is_space c = false
  | [] => True
  end.
Proof.
  unfold after_terminator. rewrite (drop_spaces_drop_while (drop_semicolon _)).
  apply drop_while_head.
Qed.

Lemma patterns_rest (r : regex) (ty : statement_type) (s rest : jsstring) :
  In (r, ty) patterns -> match_here r s = Some rest ->
  exists tail, rest = after_terminator tail.
Proof.
  cbn [patterns In]. unfold match_here.
  intros [E|[E|[E|[E|[]]]]] H; inversion E; subst; clear E.
  - unfold console_re in H. rewrite rmatch_Seq in H.
    apply rmatch_Lit_inv in H. destruct H as (s1 & -> & H).
    rewrite rmatch_Seq in H. apply console_method_inv in H.
    destruct H as (m & s2 & _ & -> & H). apply call_tail_inv in H.
    destruct H as (w & args & tail & _ & _ & _ & ->). now exists tail.
  - apply call_pattern_match in H.
    destruct H as (w & args & tail & _ & _ & _ & ->). now exists tail.
  - apply call_pattern_match in H.
    destruct H as (w & args & tail & _ & _ & _ & ->). now exists tail.
  - unfold debugger_re in H. rewrite rmatch_Seq in H.
    apply rmatch_Lit_inv in H. destruct H as (tail & -> & H).
    rewrite rmatch_terminator in H. inversion H. now exists tail.
Qed.

(** X24.  A statement of the lexical scan ends after all the white
    space that follows it, line breaks and the indentation of the next
    line included: the text after its end is empty or starts with a
    character that is not white space. *)
Theorem fallbackRegexParse_takes_white_space (code : jsstring) :
  Forall (fun st =>
            match skipn (end_ st) code with
            | c :: _ => is_space c = false
            | [] => True
            end)
         (fallbackRegexParse code).
Proof.
  apply Forall_forall. intros st Hin.
  apply fallbackRegexParse_in, fallback_matches_in in Hin.
  destruct Hin as (r & ty & [idx n] & Hp & Hm & ->).
  destruct (statement_of_match_fields code (split_lines code) ty (idx, n))
    as (_ & _ & He & _).
  rewrite He. cbn [fst snd].
  pose proof (exec_all_bounds r
                (fun s rest => scanner_match_nonempty r ty s rest Hp)
                code 0 0 idx n Hm) as Hb.
  apply exec_all_sound in Hm;
    [|intros s rest; apply (scanner_match_nonempty r ty), Hp].
  destruct Hm as (rest & Hmatch & Hn).
  rewrite Nat.sub_0_r in Hmatch, Hn.
  destruct (patterns_rest r ty _ _ Hp Hmatch) as (tail & Hrest).
  pose proof (match_here_suffix _ _ _ Hmatch) as Hsuf.
  pose proof (is_suffix_length _ _ Hsuf) as Hlen.
  apply is_suffix_skipn in Hsuf. rewrite length_skipn in Hsuf, Hlen.
  rewrite skipn_skipn in Hsuf.
  replace (idx + n) with (length code - idx - length rest + idx) by lia.
  rewrite <- Hsuf, Hrest. apply after_terminator_head.
Qed.

Lemma skipn_line_after_break (m rest : jsstring) :
  In LF m -> skipn (length m) (line_after (m ++ rest)) = [].
Proof.
  unfold line_after. induction m as [|c m IH]; intros Hin; [contradiction|].
  cbn [app take_while length]. unfold not_LF at 1.
  destruct (char_eqb c LF) eqn:E; cbn [negb]; [reflexivity|].
  cbn [skipn]. apply IH. destruct Hin as [->|Hin]; [|exact Hin].
  now rewrite char_eqb_refl in E.
Qed.

(** X25.  So, when such a statement starts its line and reaches over a
    line break (as those of the lexical scan do when white space
    follows them), its removal takes the blanks before it and all of
    it: the blank lines after it and the indentation of the next line
    of text go with it, and that line starts where the removed line
    started. *)
Theorem removal_takes_next_indentation
    (p indent m rest : jsstring) (st : statement) :
  p = [] \/ (exists p', p = p' ++ [LF]) ->
  forallb not_LF indent = true -> forallb is_space indent = true ->
  start st = length (p ++ indent) ->
  end_ st = start st + length m ->
  In LF m ->
  match rest with c :: _ => is_space c = false | [] => True end ->
  removeStatement (p ++ indent ++ m ++ rest) st = (p ++ rest, true).
Proof.
  intros Hp Hl Hi Hs He Hm Hrest.
  rewrite (removeStatement_alone p indent m rest st Hp Hl Hi Hs He)
    by now rewrite skipn_line_after_break.
  destruct rest as [|c rest]; [reflexivity|].
  cbn [startsWith]. unfold char_eqb.
  destruct (N.eqb_spec LF c) as [<-|_]; [discriminate|].
  destruct (N.eqb_spec CR c) as [<-|_]; [discriminate|].
  reflexivity.
Qed.

Lemma removal_takes_next_indentation_witness :
  (@nil char = [] \/ (exists p', @nil char = p' ++ [LF])) /\
  forallb not_LF (js "  ") = true /\
  forallb is_space (js "  ") = true /\
  start (mkStatement console 1 2 2 20
           (js "console.log(1);" ++ LF :: js "  ") (js "console.log(1);"))
    = length ([] ++ js "  ") /\
  end_ (mkStatement console 1 2 2 20
          (js "console.log(1);" ++ LF :: js "  ") (js "console.log(1);"))
    = start (mkStatement console 1 2 2 20
               (js "console.log(1);" ++ LF :: js "  ")
               (js "console.log(1);"))
      + length (js "console.log(1);" ++ LF :: js "  ") /\
  In LF (js "console.log(1);" ++ LF :: js "  ") /\
  is_space 102%N = false /\
  removeStatement
    ([] ++ js "  " ++ (js "console.log(1);" ++ LF :: js "  ") ++ js "foo();")
    (mkStatement console 1 2 2 20
       (js "console.log(1);" ++ LF :: js "  ") (js "console.log(1);"))
  = ([] ++ js "foo();", true).
Proof.
  assert (Hp : @nil char = [] \/ (exists p', @nil char = p' ++ [LF]))
    by (left; reflexivity).
  assert (Hin : In LF (js "console.log(1);" ++ LF :: js "  "))
    by apply in_elt.
  split; [exact Hp|]. do 4 (split; [reflexivity|]). split; [exact Hin|].
  split; [reflexivity|].
  exact (removal_takes_next_indentation [] (js "  ")
           (js "console.log(1);" ++ LF :: js "  ") (js "foo();")
           (mkStatement console 1 2 2 20
              (js "console.log(1);" ++ LF :: js "  ") (js "console.log(1);"))
           Hp eq_refl eq_refl eq_refl eq_refl Hin eq_refl).
Defined.

(** ** The removers of the parser *)

Lemma keep_default_no_error (st : statement) :
  type st = console ->
  keep_statement default_configuration st = true ->
  includes (text st) (js "console.error") = false.
Proof.
  intros Hty. unfold keep_statement. rewrite Hty.
  cbn [default_configuration Config.removeConsoleLog Config.removeConsoleWarn
       Config.removeConsoleError negb].
  rewrite !andb_false_r, andb_true_r.
  destruct (includes (text st) (js "console.error")); [discriminate|].
  reflexivity.
Qed.

Lemma keep_default_error (st : statement) :
  type st = console ->
  includes (text st) (js "console.error") = true ->
  keep_statement default_configuration st = false.
Proof.
  intros Hty Herr. unfold keep_statement. rewrite Hty, Herr.
  cbn [default_configuration Config.removeConsoleLog Config.removeConsoleWarn
       Config.removeConsoleError negb].
  now rewrite !andb_false_r.
Qed.

Lemma filter_none (A : Type) (p : A -> bool) (l : list A) :
  Forall (fun x => p x = false) l -> filter p l = [].
Proof.
  induction 1 as [|x l Hx Hl IH]; [reflexivity|].
  cbn [filter]. now rewrite Hx.
Qed.

Lemma nothing_to_remove (this : cleaner) (code : jsstring)
    (statements : list statement) :
  filterStatementsByConfig (config this) statements = [] ->
  fst (removeDebugStatements this code statements) = mkResult code 0 [].
Proof.
  intros Hf. unfold removeDebugStatements.
  destruct (length statements =? 0); [reflexivity|].
  cbn [config]. now rewrite Hf.
Qed.

(** X26.  The removers of the parser build their cleaner without
    settings, so they work with the defaults whatever the user has
    set.  None of the four reports as removed a console statement
    whose text holds [console.error]; a call given only such
    statements returns the text as it is, with a count of 0; and every
    debugger statement given is reported as removed by
    [removeDebugStatements] and [removeDebuggerStatementsOnly].  (The
    first and the last part are about the report of the call, not
    about its text.) *)
Theorem parser_removers_use_defaults
    (code : jsstring) (statements : list statement) (st : statement) :
  let reported (f : jsstring -> list statement -> clean_result) :=
    List.map removed (removedStatements (f code statements)) in
  (In st (reported DebugStatementParser.removeDebugStatements) \/
   In st (reported DebugStatementParser.removeConsoleLogsOnly) \/
   In st (reported DebugStatementParser.removePrintStatementsOnly) \/
   In st (reported DebugStatementParser.removeDebuggerStatementsOnly) ->
   type st = console -> includes (text st) (js "console.error") = false) /\
  (Forall (fun s => type s = console /\
                    includes (text s) (js "console.error") = true)
          statements ->
   DebugStatementParser.removeDebugStatements code statements
     = mkResult code 0 [] /\
   DebugStatementParser.removeConsoleLogsOnly code statements
     = mkResult code 0 []) /\
  (In st statements -> type st = debugger ->
   In st (reported DebugStatementParser.removeDebugStatements) /\
   In st (reported DebugStatementParser.removeDebuggerStatementsOnly)).
Proof.
  cbv zeta.
  unfold DebugStatementParser.removeDebugStatements,
    DebugStatementParser.removeConsoleLogsOnly,
    DebugStatementParser.removePrintStatementsOnly,
    DebugStatementParser.removeDebuggerStatementsOnly,
    removeConsoleLogsOnly, removePrintStatementsOnly,
    removeDebuggerStatementsOnly.
  split; [|split].
  - intros [Hin|[Hin|[Hin|Hin]]] Hty;
      apply (Permutation_in _ (removed_permutation _ _ _)) in Hin;
      cbn [config] in Hin; apply filter_In in Hin;
      now apply keep_default_no_error.
  - intros Hall.
    assert (Hnone : forall l,
              Forall (fun s => type s = console /\
                        includes (text s) (js "console.error") = true) l ->
              filterStatementsByConfig default_configuration l = []).
    { intros l Hl. apply filter_none.
      eapply Forall_impl; [|exact Hl].
      intros s [Hty Herr]. now apply keep_default_error. }
    split; apply nothing_to_remove; cbn [config]; apply Hnone;
      [exact Hall|].
    apply Forall_forall. intros s Hs. apply filter_In in Hs.
    exact (proj1 (Forall_forall _ _) Hall s (proj1 Hs)).
  - intros Hin Hty.
    assert (Hk : keep_statement default_configuration st = true)
      by (unfold keep_statement; now rewrite Hty).
    split;
      apply (Permutation_in _ (Permutation_sym (removed_permutation _ _ _)));
      cbn [config]; apply filter_In; (split; [|exact Hk]);
      [exact Hin|].
    apply filter_In. split; [exact Hin|]. now rewrite Hty.
Qed.

(** ** The removal of a statement that shares its line *)

(** X27.  A statement that shares its line with other text ([pre]
    before it in the line, [post] after it, one of them at least not
    blank) is cut out of the line and the line stays: the text before
    is cleaned of a hanging comma or semicolon when [pre] is not blank,
    the text after of a hanging comma when [post] is not blank, and
    nothing else of the text changes. *)
Theorem removeStatement_shares_line
    (p pre body post rest : jsstring) (st : statement) :
  p = [] \/ (exists p', p = p' ++ [LF]) ->
  forallb not_LF (pre ++ body ++ post) = true ->
  match rest with c :: _ => c = LF | [] => True end ->
  start st = length (p ++ pre) ->
  end_ st = start st + length body ->
  is_blank pre && is_blank post = false ->
  removeStatement (p ++ pre ++ body ++ post ++ rest) st =
  ((if is_blank pre then p ++ pre
    else cleanLeadingCommaOrSemicolon (p ++ pre))
   ++ (if is_blank post then post ++ rest
       else cleanTrailingCommaOrSemicolon (post ++ rest)), true).
Proof.
  intros Hp Hline Hrest Hs He Hshare.
  rewrite !forallb_app in Hline. apply andb_prop in Hline.
  destruct Hline as [Hpre Hline]. apply andb_prop in Hline.
  destruct Hline as [Hbody Hpost].
  set (code := p ++ pre ++ body ++ post ++ rest).
  assert (Hlen : start st <= length code).
  { unfold code. rewrite Hs, !length_app. lia. }
  assert (Hb : firstn (start st) code = p ++ pre).
  { unfold code. rewrite Hs, app_assoc.
    now rewrite firstn_app, firstn_all, Nat.sub_diag, app_nil_r. }
  assert (Hr : skipn (start st) code = body ++ post ++ rest).
  { unfold code. rewrite Hs, app_assoc.
    rewrite skipn_app, skipn_all, Nat.sub_diag. reflexivity. }
  assert (Haft : skipn (end_ st) code = post ++ rest).
  { unfold code. rewrite He, Hs, <- length_app.
    rewrite (app_assoc p pre), (app_assoc (p ++ pre) body).
    rewrite skipn_app, skipn_all, Nat.sub_diag. reflexivity. }
  assert (Hla : line_after (body ++ post ++ rest) = body ++ post).
  { unfold line_after. rewrite app_assoc. apply take_while_all.
    - rewrite forallb_app, Hbody, Hpost. reflexivity.
    - destruct rest as [|c rest]; [exact I|]. now subst c. }
  destruct (analyzeStatementContext_spec code st Hlen)
    as (_ & _ & _ & _ & _ & Hstart & Hend & Hown).
  assert (Haf : skipn (end_ st - (start st - length pre))
                  (pre ++ body ++ post) = post).
  { replace (end_ st - (start st - length pre))
      with (length (pre ++ body))
      by (rewrite He, Hs, !length_app; lia).
    rewrite app_assoc, skipn_app, skipn_all, Nat.sub_diag. reflexivity. }
  rewrite Hb, (line_before_line_start p pre Hp Hpre) in Hstart.
  rewrite Hb, Hr, (line_before_line_start p pre Hp Hpre), Hla, Haf
    in Hend, Hown.
  unfold removeStatement, substring_from. rewrite substring_0.
  fold code. rewrite Hown, Hstart, Hend, Hshare, Hb, Haft.
  destruct (is_blank pre), (is_blank post); try discriminate; reflexivity.
Qed.

Lemma removeStatement_shares_line_witness :
  (@nil char = [] \/ (exists p', @nil char = p' ++ [LF])) /\
  forallb not_LF (js "a(); " ++ js "debugger;" ++ js " b();") = true /\
  LF = LF /\
  start (mkStatement debugger 1 5 5 14 (js "debugger;") (js "debugger;"))
    = length ([] ++ js "a(); ") /\
  end_ (mkStatement debugger 1 5 5 14 (js "debugger;") (js "debugger;"))
    = start (mkStatement debugger 1 5 5 14 (js "debugger;") (js "debugger;"))
      + length (js "debugger;") /\
  is_blank (js "a(); ") && is_blank (js " b();") = false /\
  removeStatement
    ([] ++ js "a(); " ++ js "debugger;" ++ js " b();" ++ LF :: js "c();")
    (mkStatement debugger 1 5 5 14 (js "debugger;") (js "debugger;"))
  = ((if is_blank (js "a(); ") then [] ++ js "a(); "
      else cleanLeadingCommaOrSemicolon ([] ++ js "a(); "))
     ++ (if is_blank (js " b();") then js " b();" ++ LF :: js "c();"
         else cleanTrailingCommaOrSemicolon (js " b();" ++ LF :: js "c();")),
     true).
Proof.
  assert (Hp : @nil char = [] \/ (exists p', @nil char = p' ++ [LF]))
    by (left; reflexivity).
  split; [exact Hp|]. do 5 (split; [reflexivity|]).
  exact (removeStatement_shares_line [] (js "a(); ") (js "debugger;")
           (js " b();") (LF :: js "c();")
           (mkStatement debugger 1 5 5 14 (js "debugger;") (js "debugger;"))
           Hp eq_refl eq_refl eq_refl eq_refl eq_refl).
Defined.

(** ** The words of a text and the cleaning of white space *)

Lemma words_space (c : char) (s : jsstring) :
  is_space c = true -> words (c :: s) = words s.
Proof. intros H. cbn [words]. now rewrite H. Qed.

Lemma words_cons (c : char) (s : jsstring) :
  is_space c = false ->
  words (c :: s) =
  if head_space s then [c] :: words s
  else match words s with
       | w :: ws => (c :: w) :: ws
       | [] => [[c]]
       end.
Proof. intros H. cbn [words]. now rewrite H. Qed.

Lemma words_congr (c : char) (x y : jsstring) :
  words x = words y -> head_space x = head_space y ->
  words (c :: x) = words (c :: y).
Proof.
  intros Hw Hh. destruct (is_space c) eqn:E.
  - now rewrite !words_space.
  - now rewrite !words_cons, Hw, Hh.
Qed.

Lemma head_space_spaces (w : jsstring) :
  forallb is_space w = true -> head_space w = true.
Proof.
  destruct w as [|c w]; [reflexivity|]. cbn [forallb head_space].
  intros H. now apply andb_prop in H.
Qed.

Lemma words_app_space (w s : jsstring) :
  forallb is_space w = true -> words (w ++ s) = words s.
Proof.
  induction w as [|c w IH]; intros H; [reflexivity|].
  cbn [forallb] in H. apply andb_prop in H. destruct H as [Hc Hw].
  cbn [app]. rewrite words_space by exact Hc. now apply IH.
Qed.

Lemma words_app_space_r (a w : jsstring) :
  forallb is_space w = true -> words (a ++ w) = words a.
Proof.
  intros Hw. induction a as [|c a IH].
  - cbn [app]. rewrite <- (app_nil_r w). now rewrite words_app_space.
  - cbn [app]. apply words_congr; [exact IH|].
    destruct a as [|d a]; [|reflexivity].
    cbn [app]. now apply head_space_spaces.
Qed.




Lemma blank_lines_words (k : nat) :
  1 <= k ->
  forall n s, length s <= n ->
  words (replace_all (blank_lines_re k) (repeat_LF k) 0 s) = words s /\
  head_space (replace_all (blank_lines_re k) (repeat_LF k) 0 s)
    = head_space s.
Proof.
  intros Hk. induction n as [|n IH]; intros s Hn.
  - destruct s; [|cbn [length] in Hn; lia].
    now rewrite blank_lines_nil.
  - destruct s as [|c s]; [now rewrite blank_lines_nil|].
    cbn [length] in Hn. rewrite blank_lines_step.
    destruct (starts_with_LF (c :: s)
              && (k + 1 <=? count_LF (take_while is_space (c :: s)))) eqn:E.
    + apply andb_prop in E. destruct E as [Ec _].
      cbn [starts_with_LF] in Ec. apply char_eqb_eq in Ec. subst c.
      pose proof (drop_while_length is_space s) as Hd.
      destruct (IH (drop_while is_space s)) as [IH1 _]; [lia|].
      split.
      * rewrite words_app_space by apply repeat_LF_spaces.
        rewrite IH1, words_space by reflexivity.
        rewrite <- (take_drop_while is_space s) at 2.
        now rewrite words_app_space by apply take_while_forallb.
      * destruct k as [|k]; [lia|]. reflexivity.
    + destruct (IH s) as [IH1 IH2]; [lia|].
      split; [now apply words_congr|reflexivity].
Qed.

Lemma blank_spaces (s : jsstring) :
  forallb blank_char s = true -> forallb is_space s = true.
Proof.
  induction s as [|c s IH]; intros H; [reflexivity|].
  cbn [forallb] in *. apply andb_prop in H. destruct H as [Hc Hs].
  now rewrite (blank_char_space c Hc), IH.
Qed.

Lemma at_eol_head_space (d : jsstring) :
  at_eol d = true -> head_space d = true.
Proof.
  destruct d as [|c d]; [reflexivity|]. cbn [at_eol head_space].
  unfold is_line_terminator, is_space. intros H.
  repeat (apply orb_prop in H; destruct H as [H|H]);
    apply N.eqb_eq in H; subst c; reflexivity.
Qed.

Lemma trailing_blanks_words :
  forall n s, length s <= n ->
  words (replace_all trailing_blanks_re [] 0 s) = words s /\
  head_space (replace_all trailing_blanks_re [] 0 s) = head_space s.
Proof.
  induction n as [|n IH]; intros s Hn.
  - destruct s; [now split|cbn [length] in Hn; lia].
  - destruct s as [|c s]; [now split|]. cbn [length] in Hn.
    rewrite trailing_blanks_step.
    destruct (blank_char c && at_eol (drop_while blank_char s)) eqn:E.
    + apply andb_prop in E. destruct E as [Ec Ed].
      pose proof (drop_while_length blank_char s) as Hd.
      destruct (IH (drop_while blank_char s)) as [IH1 IH2]; [lia|].
      rewrite IH1, IH2. split.
      * rewrite words_space by now apply blank_char_space.
        rewrite <- (take_drop_while blank_char s) at 2.
        rewrite words_app_space; [reflexivity|].
        apply blank_spaces, take_while_forallb.
      * cbn [head_space]. rewrite (blank_char_space c Ec).
        now apply at_eol_head_space.
    + destruct (IH s) as [IH1 IH2]; [lia|].
      split; [now apply words_congr|reflexivity].
Qed.

(** With [maxEmptyLines] of 1 or more the cleaning of white space
    neither joins two words nor cuts one: the words of the text are
    the same. *)
Lemma cleanWhitespace_words (c : configuration) (code : jsstring) :
  1 <= Config.maxEmptyLines c ->
  words (cleanWhitespace c code) = words code.
Proof.
  intros Hk. unfold cleanWhitespace.
  set (k := Config.maxEmptyLines c).
  set (s := replace_all (blank_lines_re k) (repeat_LF k) 0 code).
  destruct (blank_lines_words k Hk (length code) code (Nat.le_refl _))
    as [H1 _]. fold s in H1.
  destruct (trailing_blanks_words (length s) s (Nat.le_refl _)) as [H2 _].
  destruct (final_newline_spec (replace_all trailing_blanks_re [] 0 s))
    as (body & j & Hs & Hr & _).
  rewrite Hr, <- H1, <- H2, Hs.
  rewrite !words_app_space_r; [reflexivity|apply repeat_LF_spaces|reflexivity].
Qed.


(** ** A second scan after the removal of statements on their lines *)









(** X28.  [cleanWhitespace] changes white space only: the characters
    of the text that are not white space are the same in the result,
    in the same order, whatever the settings; and with [maxEmptyLines]
    of 1 or more it neither joins two words nor cuts one, the words of
    the result (its longest pieces without white space) being those of
    the text. *)
Theorem cleanWhitespace_changes_white_space_only
    (c : configuration) (code : jsstring) :
  filter not_space (cleanWhitespace c code) = filter not_space code /\
  (1 <= Config.maxEmptyLines c ->
   words (cleanWhitespace c code) = words code).
Proof.
  split; [apply cleanWhitespace_filter|apply cleanWhitespace_words].
Qed.
